(** * AzuriteLauncher, home panel ([src/assets/js/panels/home.js])

    A shallow embedding of the [Home] class: the launch orchestration and
    the status monitoring with the properties of them that the
    specification states, then the news, the video, the role and the
    whitelist, with further properties that the code shows. *)

From Stdlib Require Import ZArith QArith Qround Qpower Qabs Lia Lqa.
From Stdlib Require Import Bool List String Ascii.
From Stdlib Require Import SpecFloat DecimalString.
Import ListNotations.

Local Open Scope Z_scope.

(** ** JavaScript numbers

    A JavaScript Number is an IEEE 754 binary64 value.  The carrier is the
    Standard Library's [spec_float]; every arithmetic operation is the exact
    rational result rounded to the nearest representable value, ties to the
    even mantissa, as IEEE 754 and ECMAScript prescribe. *)
Module JSNum.

Definition number := spec_float.

(** The exact value of a finite number (0 for the values that have none). *)
Definition sign_Q (s : bool) : Q := if s then (-1)%Q else 1%Q.

Definition magnitude (x : number) : Q :=
  match x with
  | S754_finite _ m e => (inject_Z (Zpos m) * 2 ^ e)%Q
  | _ => 0%Q
  end.

Definition value (x : number) : Q :=
  match x with
  | S754_finite s m e => (sign_Q s * (inject_Z (Zpos m) * 2 ^ e))%Q
  | _ => 0%Q
  end.

Definition is_finite (x : number) : bool :=
  match x with
  | S754_zero _ | S754_finite _ _ _ => true
  | _ => false
  end.

(** [Qlog2 x] is the integer [l] with [2^l <= x < 2^(l+1)], for [x > 0]. *)
Definition Qlog2 (x : Q) : Z :=
  let k := Z.log2 (Qnum x) - Z.log2 (Zpos (Qden x)) in
  if Qle_bool (2 ^ k) x then k else k - 1.

(** Nearest integer, ties to even. *)
Definition rne (y : Q) : Z :=
  let f := Qfloor y in
  match (y - inject_Z f ?= 1 # 2)%Q with
  | Lt => f
  | Gt => f + 1
  | Eq => if Z.even f then f else f + 1
  end.

(** Mantissa and exponent of the binary64 number nearest to [x > 0]:
    53 significant bits, exponent no smaller than that of the subnormals. *)
Definition round_mantissa (x : Q) : Z * Z :=
  let e := Z.max (Qlog2 x - 52) (-1074) in
  let m := rne (x / 2 ^ e) in
  if m =? 2 ^ 53 then (2 ^ 52, e + 1) else (m, e).

(** Rounding of the positive rational [x] with sign [s]; results at or above
    [2^1024] overflow to an infinity, results that round to nothing
    underflow to a zero. *)
Definition round (s : bool) (x : Q) : number :=
  if Qle_bool x 0 then S754_zero s
  else
    let '(m, e) := round_mantissa x in
    match m with
    | Zpos p => if e <=? 971 then S754_finite s p e else S754_infinity s
    | _ => S754_zero s
    end.

(** Rounding of a signed rational; an exact zero takes the sign [szero]. *)
Definition round_signed (szero : bool) (v : Q) : number :=
  match (v ?= 0)%Q with
  | Eq => S754_zero szero
  | Lt => round true (- v)
  | Gt => round false v
  end.

Definition of_Z (z : Z) : number := round_signed false (inject_Z z).

(** [x / y] *)
Definition div (x y : number) : number :=
  match x, y with
  | S754_nan, _ | _, S754_nan => S754_nan
  | S754_infinity _, S754_infinity _ => S754_nan
  | S754_zero _, S754_zero _ => S754_nan
  | S754_infinity sx, S754_finite sy _ _ => S754_infinity (xorb sx sy)
  | S754_infinity sx, S754_zero sy => S754_infinity (xorb sx sy)
  | S754_finite sx _ _, S754_infinity sy => S754_zero (xorb sx sy)
  | S754_zero sx, S754_infinity sy => S754_zero (xorb sx sy)
  | S754_finite sx _ _, S754_zero sy => S754_infinity (xorb sx sy)
  | S754_zero sx, S754_finite sy _ _ => S754_zero (xorb sx sy)
  | S754_finite sx _ _, S754_finite sy _ _ =>
      round (xorb sx sy) (magnitude x / magnitude y)
  end.

(** [x * y] *)
Definition mul (x y : number) : number :=
  match x, y with
  | S754_nan, _ | _, S754_nan => S754_nan
  | S754_infinity _, S754_zero _ | S754_zero _, S754_infinity _ => S754_nan
  | S754_infinity sx, S754_infinity sy => S754_infinity (xorb sx sy)
  | S754_infinity sx, S754_finite sy _ _ => S754_infinity (xorb sx sy)
  | S754_finite sx _ _, S754_infinity sy => S754_infinity (xorb sx sy)
  | S754_zero sx, S754_zero sy => S754_zero (xorb sx sy)
  | S754_zero sx, S754_finite sy _ _ => S754_zero (xorb sx sy)
  | S754_finite sx _ _, S754_zero sy => S754_zero (xorb sx sy)
  | S754_finite sx _ _, S754_finite sy _ _ =>
      round (xorb sx sy) (magnitude x * magnitude y)
  end.

(** [x + y]; an exact zero sum of non-zero operands is [+0]. *)
Definition add (x y : number) : number :=
  match x, y with
  | S754_nan, _ | _, S754_nan => S754_nan
  | S754_infinity sx, S754_infinity sy =>
      if Bool.eqb sx sy then x else S754_nan
  | S754_infinity _, _ => x
  | _, S754_infinity _ => y
  | S754_zero sx, S754_zero sy => S754_zero (andb sx sy)
  | S754_zero _, _ => y
  | _, S754_zero _ => x
  | S754_finite _ _ _, S754_finite _ _ _ =>
      round_signed false (value x + value y)
  end.

Definition opp (x : number) : number := SFopp x.

(** [x - y] *)
Definition sub (x y : number) : number := add x (opp y).

(** [Math.floor(x)] *)
Definition floor (x : number) : number :=
  match x with
  | S754_finite s _ _ => round_signed s (inject_Z (Qfloor (value x)))
  | _ => x
  end.

(** *** Numbers as text *)

(** The decimal digits of a natural number. *)
Definition decimal (n : Z) : string :=
  NilZero.string_of_uint (N.to_uint (Z.to_N n)).

Fixpoint zeros (n : nat) : string :=
  match n with
  | O => EmptyString
  | S n' => ("0" ++ zeros n')%string
  end.

(** [Qlog10 x] is the integer [l] with [10^l <= x < 10^(l+1)], for [x > 0]:
    it is sought around the estimate that [Qlog2] gives. *)
Definition Qlog10 (x : Q) : Z :=
  let g := (Qlog2 x * 30103) / 100000 in
  if Qle_bool (10 ^ (g + 1)) x then g + 1
  else if Qle_bool (10 ^ g) x then g
  else g - 1.

(** The shortest decimal that denotes the finite number [x > 0]: the least
    number [k] of digits, the digits [s] and the position [n] of the decimal
    point such that [s * 10^(n-k)] rounds to [x]; of two candidates the one
    closer to [x], and the even one when they are as close. *)
Definition digits_candidate (x : number) (d k : Z) : option (Z * Z) :=
  let scale := (10 ^ (d - k))%Q in
  let lo := Qfloor (magnitude x / scale) in
  let hi := lo + 1 in
  let hit c := SFeqb (round false (inject_Z c * scale)) (SFabs x) in
  let norm c := if c =? 10 ^ k then (10 ^ (k - 1), d + 1) else (c, d) in
  match hit lo, hit hi with
  | false, false => None
  | true, false => Some (norm lo)
  | false, true => Some (norm hi)
  | true, true =>
      match (magnitude x - inject_Z lo * scale
             ?= inject_Z hi * scale - magnitude x)%Q with
      | Lt => Some (norm lo)
      | Gt => Some (norm hi)
      | Eq => Some (norm (if Z.even lo then lo else hi))
      end
  end.

Fixpoint shortest_digits (x : number) (d k : Z) (fuel : nat) : Z * Z * Z :=
  match fuel with
  | O => (d, k, Qfloor (magnitude x / 10 ^ (d - k)))
  | S fuel' =>
      match digits_candidate x d k with
      | Some (s, n) => (n, k, s)
      | None => shortest_digits x d (k + 1) fuel'
      end
  end.

Definition exponent_text (n : Z) : string :=
  ("e" ++ (if (0 <=? n - 1)%Z then "+" else "-")
   ++ decimal (Z.abs (n - 1)))%string.

(** The text of a finite number by its shortest decimal. *)
Definition shortest_text (x : number) : string :=
  let '(n, k, s) := shortest_digits x (Qlog10 (magnitude x) + 1) 1 17 in
  let ds := decimal s in
  if (k <=? n) && (n <=? 21) then (ds ++ zeros (Z.to_nat (n - k)))%string
  else if (0 <? n) && (n <=? 21) then
    (substring 0 (Z.to_nat n) ds ++ "."
      ++ substring (Z.to_nat n) (Z.to_nat (k - n)) ds)%string
  else if (-6 <? n) && (n <=? 0) then
    ("0." ++ zeros (Z.to_nat (- n)) ++ ds)%string
  else if k =? 1 then (ds ++ exponent_text n)%string
  else
    (substring 0 1 ds ++ "." ++ substring 1 (Z.to_nat (k - 1)) ds
      ++ exponent_text n)%string.

(** An integer below [2^53] is every digit of its own shortest decimal. *)
Definition is_safe_integer (x : number) : bool :=
  Qeq_bool (inject_Z (Qfloor (magnitude x))) (magnitude x)
  && negb (Qle_bool (2 ^ 53) (magnitude x)).

(** [Number::toString(x)], radix 10: what a template literal prints. *)
Definition to_string (x : number) : string :=
  match x with
  | S754_nan => "NaN"%string
  | S754_zero _ => "0"%string
  | S754_infinity s => (if s then "-Infinity" else "Infinity")%string
  | S754_finite sg _ _ =>
      ((if sg then "-" else EmptyString)
       ++ (if is_safe_integer x then decimal (Qfloor (magnitude x))
           else shortest_text x))%string
  end.

(** [x.toFixed(f)]: the integer [n] with [n / 10^f] nearest to [|x|]
    (the larger one of two), printed with [f] digits after the point;
    values that are not finite, or of magnitude [10^21] and above, are
    printed by [to_string]. *)
Definition toFixed (x : number) (f : nat) : string :=
  match x with
  | S754_nan | S754_infinity _ => to_string x
  | S754_zero _ | S754_finite _ _ _ =>
      if Qle_bool (10 ^ 21) (magnitude x) then to_string x
      else
        let n := Qfloor (magnitude x * 10 ^ Z.of_nat f + (1 # 2)) in
        let m := decimal n in
        let m := (zeros (S f - length m)%nat ++ m)%string in
        let k := length m in
        let m :=
          match f with
          | O => m
          | _ => (substring 0 (k - f)%nat m ++ "."
                  ++ substring (k - f)%nat f m)%string
          end in
        ((match x with S754_finite true _ _ => "-" | _ => EmptyString end) ++ m)%string
  end.

(** Numbers of every kind, for comparing the operations above with the
    Standard Library's bit-level ones. *)
Definition samples : list number :=
  [ S754_nan; S754_infinity false; S754_infinity true;
    S754_zero false; S754_zero true ]
  ++ map of_Z
       [ 1; -1; 3; 10; 23; 40; 100; -90; 3600; 1067008; 2 ^ 53 - 1;
         2 ^ 53 + 1; 10 ^ 21 ]
  ++ [ round false (1 # 3); round false (1 # 10); round true (2 # 3);
       round false (2 ^ (-1074)); round true (2 ^ (-1030) + 2 ^ (-1074));
       round false (2 ^ 1024 - 2 ^ 971) ].

(** Integers of every length below [2^53]. *)
Definition integer_samples : list Z :=
  map Z.of_nat (seq 1 2000)
  ++ [ 3600; 86400; 1067008; 1000000; 1234567; 10 ^ 15; 10 ^ 15 + 1;
       2 ^ 52; 2 ^ 53 - 1; 9007199254740990; 4503599627370495;
       1250999896491; 99999999; 100000000; 123456789012345 ].

(** *** Predicates used to state properties *)

(** The non-negative rationals that are binary64 numbers. *)
Definition representable (r : Q) : Prop :=
  exists m e : Z,
    (0 <= m < 2 ^ 53)%Z /\ (-1074 <= e <= 971)%Z /\ r == inject_Z m * 2 ^ e.

(** [x] is finite and its value is the integer [k]. *)
Definition is_int (x : number) (k : Z) : Prop :=
  is_finite x = true /\ value x == inject_Z k.

(** The decimal text of an integer. *)
Definition int_text (k : Z) : string :=
  if (k <? 0)%Z then ("-" ++ decimal (- k))%string else decimal k.

(** The integer nearest to a number, the larger of two: [Math.round]. *)
Definition nearest_integer (x : number) : Z := Qfloor (value x + (1 # 2)).

End JSNum.

(** ** JavaScript strings and values *)
Module JSStr.

(** [s.endsWith(suffix)] *)
Definition endsWith (s suffix : string) : bool :=
  let n := String.length s in
  let m := String.length suffix in
  (m <=? n)%nat && String.eqb (substring (n - m) m s) suffix.

(** A value whose shape the panel does not fix: the [error] field of a
    status reply, a field of [package.json]. *)
Inductive js_value :=
| js_undefined
| js_null
| js_boolean (b : bool)
| js_number (n : JSNum.number)
| js_string (s : string)
| js_object (printed : string).

(** [ToBoolean]: what [!v] and [v ? a : b] test. *)
Definition truthy (v : js_value) : bool :=
  match v with
  | js_undefined | js_null => false
  | js_boolean b => b
  | js_number (S754_zero _) | js_number S754_nan => false
  | js_number _ => true
  | js_string s => negb (String.eqb s EmptyString)
  | js_object _ => true
  end.

(** [ToString], as a template literal applies it. *)
Definition to_text (v : js_value) : string :=
  match v with
  | js_undefined => "undefined"
  | js_null => "null"
  | js_boolean b => if b then "true" else "false"
  | js_number n => JSNum.to_string n
  | js_string s => s
  | js_object printed => printed
  end.

(** [v === s] for a string literal [s]. *)
Definition strict_equal_string (v : js_value) (s : string) : bool :=
  match v with
  | js_string s' => String.eqb s' s
  | _ => false
  end.

End JSStr.

(** ** The home panel *)
Module Home.
Import JSNum JSStr.

Local Open Scope string_scope.

(** Values that the panel only passes on (an account record, an engine
    payload, an error) are kept as their printed form. *)
Definition payload := string.

(** *** Collaborators' data *)

(** [package.json], of which the panel reads three fields. *)
Record package := {
  pkg_user : js_value;
  pkg_settings : string;
  pkg_env : js_value
}.

Record loader := {
  loader_type : string;
  loader_build : string;
  loader_enable : bool
}.

(** [config.ignored] is an array, or an object of which the values are
    taken, here in the order [Object.values] lists them. *)
Inductive ignored_paths :=
| ignored_array (items : list string)
| ignored_object (properties : list (string * string)).

(** The launcher configuration handed to [init], [this.config]. *)
Record launcher_config := {
  cfg_dataDirectory : string;
  cfg_game_version : string;
  cfg_loader : loader;
  cfg_verify : bool;
  cfg_ignored : ignored_paths;
  cfg_java : payload;
  cfg_status_ip : string;
  cfg_status_port : number
}.

(** The record under the key ['launcher']: [launcherSettings.launcher.close]
    is a string, or missing. *)
Record launcher_settings := {
  launcher_close : js_value
}.

Record ram_settings := {
  ramMin : number;
  ramMax : number
}.

(** The record under the key ['screen']: [resolution.screen.width] and
    [resolution.screen.height]. *)
Record screen_settings := {
  screen_width : js_value;
  screen_height : js_value
}.

(** The persisted settings that [database.get] answers from, by the keys
    that the panel asks for.  An entry is [None] when [get] resolves to
    nothing, or to a record that lacks the part that the panel reads from
    it: the read then throws a [TypeError]. *)
Record database := {
  accounts_selected : option string;
  accounts : string -> option payload;
  ram : option ram_settings;
  java_path : option payload;
  java_args : option payload;
  screen : option screen_settings;
  launcher : option launcher_settings
}.

(** The request given to the launch engine. *)
Record launch_options := {
  opt_url : string;
  opt_authenticator : payload;
  opt_timeout : Z;
  opt_path : string;
  opt_version : string;
  opt_detached : bool;
  opt_downloadFileMultiple : Z;
  opt_loader : loader;
  opt_verify : bool;
  opt_ignored : list string;
  opt_java : payload;
  opt_memory_min : string;
  opt_memory_max : string
}.

(** What [fs] finds at a path. *)
Inductive fs_entry :=
| fs_absent
| fs_file
| fs_directory (entries : list string).

(** The reply [Status.getStatus()] resolves to. *)
Record status_reply := {
  reply_error : js_value;
  reply_playersConnect : string
}.

(** How an awaited promise settles: with a value, or with the reason of its
    rejection, which [await] throws. *)
Inductive settled (A : Type) : Type :=
| fulfilled (a : A)
| rejected (reason : string).

Arguments fulfilled {A} a.
Arguments rejected {A} reason.

(** Messages to the host window. *)
Inductive ipc_message :=
| main_window_progress (progress size : number)
| main_window_progress_reset
| main_window_hide
| main_window_show.

(** The events of the launch engine. *)
Inductive engine_event :=
| ev_extract (extract : payload)
| ev_progress (progress size : number)
| ev_check (progress size : number)
| ev_estimated (time : number)
| ev_speed (speed : number)
| ev_patch (patch : payload)
| ev_data (e : payload)
| ev_close (code : number)
| ev_error (err : payload).

(** *** The document and the panel's surroundings *)

Record mod_item := {
  item_classList : list string;
  item_textContent : string
}.

(** The [.mods-list] element: the markup last assigned to [innerHTML] and
    the children appended since. *)
Record mods_list_element := {
  mods_innerHTML : string;
  mods_children : list mod_item
}.

(** The document, the host window, the console, the launch engine, the
    persisted settings and the disk, as far as the panel touches them:
    - [playBtn_display], [info_display], [progressBar_display]: the
      [style.display] of the launch control, of the info text and of the
      progress bar;
    - [info_innerHTML], [progressBar_value], [progressBar_max]: what was
      assigned last;
    - [modsList]: the [.mods-list] element, when the document has one;
    - [statusText], [onlineIndicator], [playersCount]: the text of
      [#server-status], the class list of [.online-indicator], the text of
      [#players-count];
    - [ipc]: the messages sent through [ipcRenderer.send], oldest first;
    - [console], [loggers]: what [console.log] printed and the [logger]
      objects constructed, oldest first;
    - [engine_runs]: the calls [launch.Launch(opts)], oldest first;
    - [listeners]: one entry per call of [setupLaunchListeners] on the one
      [launch] emitter of the module, with the settings it was given;
    - [db], [fs]: the persisted settings and the file system by path. *)
Record world := {
  playBtn_display : string;
  info_display : string;
  info_innerHTML : string;
  progressBar_display : string;
  progressBar_value : number;
  progressBar_max : number;
  modsList : option mods_list_element;
  statusText : string;
  onlineIndicator : list string;
  playersCount : string;
  ipc : list ipc_message;
  console : list string;
  loggers : list (string * string);
  engine_runs : list launch_options;
  listeners : list launcher_settings;
  db : database;
  fs : string -> fs_entry
}.

Definition set_playBtn_display (v : string) (w : world) : world :=
  {| playBtn_display := v; info_display := info_display w;
     info_innerHTML := info_innerHTML w;
     progressBar_display := progressBar_display w;
     progressBar_value := progressBar_value w;
     progressBar_max := progressBar_max w; modsList := modsList w;
     statusText := statusText w; onlineIndicator := onlineIndicator w;
     playersCount := playersCount w; ipc := ipc w; console := console w;
     loggers := loggers w; engine_runs := engine_runs w;
     listeners := listeners w; db := db w; fs := fs w |}.

Definition set_info_display (v : string) (w : world) : world :=
  {| playBtn_display := playBtn_display w; info_display := v;
     info_innerHTML := info_innerHTML w;
     progressBar_display := progressBar_display w;
     progressBar_value := progressBar_value w;
     progressBar_max := progressBar_max w; modsList := modsList w;
     statusText := statusText w; onlineIndicator := onlineIndicator w;
     playersCount := playersCount w; ipc := ipc w; console := console w;
     loggers := loggers w; engine_runs := engine_runs w;
     listeners := listeners w; db := db w; fs := fs w |}.

Definition set_info_innerHTML (v : string) (w : world) : world :=
  {| playBtn_display := playBtn_display w; info_display := info_display w;
     info_innerHTML := v; progressBar_display := progressBar_display w;
     progressBar_value := progressBar_value w;
     progressBar_max := progressBar_max w; modsList := modsList w;
     statusText := statusText w; onlineIndicator := onlineIndicator w;
     playersCount := playersCount w; ipc := ipc w; console := console w;
     loggers := loggers w; engine_runs := engine_runs w;
     listeners := listeners w; db := db w; fs := fs w |}.

Definition set_progressBar_display (v : string) (w : world) : world :=
  {| playBtn_display := playBtn_display w; info_display := info_display w;
     info_innerHTML := info_innerHTML w; progressBar_display := v;
     progressBar_value := progressBar_value w;
     progressBar_max := progressBar_max w; modsList := modsList w;
     statusText := statusText w; onlineIndicator := onlineIndicator w;
     playersCount := playersCount w; ipc := ipc w; console := console w;
     loggers := loggers w; engine_runs := engine_runs w;
     listeners := listeners w; db := db w; fs := fs w |}.

Definition set_progressBar_value (v : number) (w : world) : world :=
  {| playBtn_display := playBtn_display w; info_display := info_display w;
     info_innerHTML := info_innerHTML w;
     progressBar_display := progressBar_display w; progressBar_value := v;
     progressBar_max := progressBar_max w; modsList := modsList w;
     statusText := statusText w; onlineIndicator := onlineIndicator w;
     playersCount := playersCount w; ipc := ipc w; console := console w;
     loggers := loggers w; engine_runs := engine_runs w;
     listeners := listeners w; db := db w; fs := fs w |}.

Definition set_progressBar_max (v : number) (w : world) : world :=
  {| playBtn_display := playBtn_display w; info_display := info_display w;
     info_innerHTML := info_innerHTML w;
     progressBar_display := progressBar_display w;
     progressBar_value := progressBar_value w; progressBar_max := v;
     modsList := modsList w; statusText := statusText w;
     onlineIndicator := onlineIndicator w; playersCount := playersCount w;
     ipc := ipc w; console := console w; loggers := loggers w;
     engine_runs := engine_runs w; listeners := listeners w; db := db w;
     fs := fs w |}.

Definition set_modsList (v : option mods_list_element) (w : world) : world :=
  {| playBtn_display := playBtn_display w; info_display := info_display w;
     info_innerHTML := info_innerHTML w;
     progressBar_display := progressBar_display w;
     progressBar_value := progressBar_value w;
     progressBar_max := progressBar_max w; modsList := v;
     statusText := statusText w; onlineIndicator := onlineIndicator w;
     playersCount := playersCount w; ipc := ipc w; console := console w;
     loggers := loggers w; engine_runs := engine_runs w;
     listeners := listeners w; db := db w; fs := fs w |}.

Definition set_statusText (v : string) (w : world) : world :=
  {| playBtn_display := playBtn_display w; info_display := info_display w;
     info_innerHTML := info_innerHTML w;
     progressBar_display := progressBar_display w;
     progressBar_value := progressBar_value w;
     progressBar_max := progressBar_max w; modsList := modsList w;
     statusText := v; onlineIndicator := onlineIndicator w;
     playersCount := playersCount w; ipc := ipc w; console := console w;
     loggers := loggers w; engine_runs := engine_runs w;
     listeners := listeners w; db := db w; fs := fs w |}.

Definition set_onlineIndicator (v : list string) (w : world) : world :=
  {| playBtn_display := playBtn_display w; info_display := info_display w;
     info_innerHTML := info_innerHTML w;
     progressBar_display := progressBar_display w;
     progressBar_value := progressBar_value w;
     progressBar_max := progressBar_max w; modsList := modsList w;
     statusText := statusText w; onlineIndicator := v;
     playersCount := playersCount w; ipc := ipc w; console := console w;
     loggers := loggers w; engine_runs := engine_runs w;
     listeners := listeners w; db := db w; fs := fs w |}.

Definition set_playersCount (v : string) (w : world) : world :=
  {| playBtn_display := playBtn_display w; info_display := info_display w;
     info_innerHTML := info_innerHTML w;
     progressBar_display := progressBar_display w;
     progressBar_value := progressBar_value w;
     progressBar_max := progressBar_max w; modsList := modsList w;
     statusText := statusText w; onlineIndicator := onlineIndicator w;
     playersCount := v; ipc := ipc w; console := console w;
     loggers := loggers w; engine_runs := engine_runs w;
     listeners := listeners w; db := db w; fs := fs w |}.

Definition set_ipc (v : list ipc_message) (w : world) : world :=
  {| playBtn_display := playBtn_display w; info_display := info_display w;
     info_innerHTML := info_innerHTML w;
     progressBar_display := progressBar_display w;
     progressBar_value := progressBar_value w;
     progressBar_max := progressBar_max w; modsList := modsList w;
     statusText := statusText w; onlineIndicator := onlineIndicator w;
     playersCount := playersCount w; ipc := v; console := console w;
     loggers := loggers w; engine_runs := engine_runs w;
     listeners := listeners w; db := db w; fs := fs w |}.

Definition set_console (v : list string) (w : world) : world :=
  {| playBtn_display := playBtn_display w; info_display := info_display w;
     info_innerHTML := info_innerHTML w;
     progressBar_display := progressBar_display w;
     progressBar_value := progressBar_value w;
     progressBar_max := progressBar_max w; modsList := modsList w;
     statusText := statusText w; onlineIndicator := onlineIndicator w;
     playersCount := playersCount w; ipc := ipc w; console := v;
     loggers := loggers w; engine_runs := engine_runs w;
     listeners := listeners w; db := db w; fs := fs w |}.

Definition set_loggers (v : list (string * string)) (w : world) : world :=
  {| playBtn_display := playBtn_display w; info_display := info_display w;
     info_innerHTML := info_innerHTML w;
     progressBar_display := progressBar_display w;
     progressBar_value := progressBar_value w;
     progressBar_max := progressBar_max w; modsList := modsList w;
     statusText := statusText w; onlineIndicator := onlineIndicator w;
     playersCount := playersCount w; ipc := ipc w; console := console w;
     loggers := v; engine_runs := engine_runs w; listeners := listeners w;
     db := db w; fs := fs w |}.

Definition set_engine_runs (v : list launch_options) (w : world) : world :=
  {| playBtn_display := playBtn_display w; info_display := info_display w;
     info_innerHTML := info_innerHTML w;
     progressBar_display := progressBar_display w;
     progressBar_value := progressBar_value w;
     progressBar_max := progressBar_max w; modsList := modsList w;
     statusText := statusText w; onlineIndicator := onlineIndicator w;
     playersCount := playersCount w; ipc := ipc w; console := console w;
     loggers := loggers w; engine_runs := v; listeners := listeners w;
     db := db w; fs := fs w |}.

Definition set_listeners (v : list launcher_settings) (w : world) : world :=
  {| playBtn_display := playBtn_display w; info_display := info_display w;
     info_innerHTML := info_innerHTML w;
     progressBar_display := progressBar_display w;
     progressBar_value := progressBar_value w;
     progressBar_max := progressBar_max w; modsList := modsList w;
     statusText := statusText w; onlineIndicator := onlineIndicator w;
     playersCount := playersCount w; ipc := ipc w; console := console w;
     loggers := loggers w; engine_runs := engine_runs w; listeners := v;
     db := db w; fs := fs w |}.

(** *** Completions

    A handler returns normally or throws; either way the changes it made
    stay. *)
Inductive completion (A : Type) : Type :=
| Normal (a : A)
| Throw (e : string).

Arguments Normal {A} a.
Arguments Throw {A} e.

Definition action (A : Type) : Type := world -> completion A * world.

Definition ret {A : Type} (a : A) : action A := fun w => (Normal a, w).

Definition throw {A : Type} (e : string) : action A := fun w => (Throw e, w).

Definition bind {A B : Type} (m : action A) (k : A -> action B) : action B :=
  fun w =>
    match m w with
    | (Normal a, w') => k a w'
    | (Throw e, w') => (Throw e, w')
    end.

Definition read {A : Type} (f : world -> A) : action A :=
  fun w => (Normal (f w), w).

Definition modify (f : world -> world) : action unit :=
  fun w => (Normal tt, f w).

Notation "x <- m ;; k" := (bind m (fun x => k))
  (at level 61, m at next level, right associativity).
Notation "m ;; k" := (bind m (fun _ => k))
  (at level 61, right associativity).

Fixpoint for_each {A : Type} (l : list A) (body : A -> action unit)
  : action unit :=
  match l with
  | [] => ret tt
  | a :: l' => body a ;; for_each l' body
  end.

(** [await promise] *)
Definition await {A : Type} (promise : settled A) : action A :=
  match promise with
  | fulfilled a => ret a
  | rejected reason => throw reason
  end.

(** [(await this.database.get(key, table)).value], and the part of it that
    the panel reads: missing, the read throws. *)
Definition get {A : Type} (entry : database -> option A) : action A :=
  fun w =>
    match entry (db w) with
    | Some a => (Normal a, w)
    | None => (Throw "TypeError", w)
    end.

(** [fs.existsSync(path)] *)
Definition existsSync (path : string) : action bool :=
  read (fun w => match fs w path with fs_absent => false | _ => true end).

(** [fs.readdirSync(path)] *)
Definition readdirSync (path : string) : action (list string) :=
  fun w =>
    match fs w path with
    | fs_directory entries => (Normal entries, w)
    | fs_file => (Throw "ENOTDIR", w)
    | fs_absent => (Throw "ENOENT", w)
    end.

Definition ipcRenderer_send (m : ipc_message) (w : world) : world :=
  set_ipc (ipc w ++ [m]) w.

Definition console_log (s : string) (w : world) : world :=
  set_console (console w ++ [s]) w.

Definition new_logger (name color : string) (w : world) : world :=
  set_loggers (loggers w ++ [(name, color)]) w.

(** [classList.add] and [classList.remove] *)
Definition classList_add (c : string) (l : list string) : list string :=
  if existsb (String.eqb c) l then l else l ++ [c].

Definition classList_remove (c : string) (l : list string) : list string :=
  filter (fun c' => negb (String.eqb c c')) l.

(** *** The panel's code

    What the module takes from outside [home.js]: the translation [t] of
    [utils.js], [path.join], [package.json], the application-data root
    [dataDirectory] and [process.platform], fixed when the module loads,
    and the configuration given to [init]. *)
Section Panel.

Variable t : string -> string.
Variable path_join : list string -> string.
Variable pkg : package.
Variable dataDirectory : string.
Variable platform : string.
Variable config : launcher_config.

Definition settings_url : string :=
  if truthy (pkg_user pkg)
  then pkg_settings pkg ++ "/" ++ to_text (pkg_user pkg)
  else pkg_settings pkg.

Definition getBaseUrl : string :=
  let baseUrl :=
    if endsWith settings_url "/" then settings_url else settings_url ++ "/" in
  if strict_equal_string (pkg_env pkg) "azuriom"
  then baseUrl ++ "api/centralcorp/files"
  else baseUrl ++ "data/".

(** The launcher's directory under the application-data root. *)
Definition launcher_directory : string :=
  if String.eqb platform "darwin"
  then cfg_dataDirectory config
  else "." ++ cfg_dataDirectory config.

(** [getLaunchOptions]: seven records are read, of which a missing one
    throws; the Java path, the Java arguments and the screen size are read
    but do not reach the options. *)
Definition getLaunchOptions : action launch_options :=
  let urlpkg := getBaseUrl in
  uuid <- get accounts_selected ;;
  account <- get (fun d => accounts d uuid) ;;
  ram <- get ram ;;
  javaPath <- get java_path ;;
  javaArgs <- get java_args ;;
  resolution <- get screen ;;
  launcherSettings <- get launcher ;;
  let screen :=
    if strict_equal_string (screen_width resolution) "<auto>" then None
    else Some (screen_width resolution, screen_height resolution) in
  ret
  {| opt_url := urlpkg;
     opt_authenticator := account;
     opt_timeout := 10000;
     opt_path := dataDirectory ++ "/" ++ launcher_directory;
     opt_version := cfg_game_version config;
     opt_detached :=
       if strict_equal_string (launcher_close launcherSettings) "close-all"
       then false else true;
     opt_downloadFileMultiple := 30;
     opt_loader :=
       {| loader_type := loader_type (cfg_loader config);
          loader_build := loader_build (cfg_loader config);
          loader_enable := loader_enable (cfg_loader config) |};
     opt_verify := cfg_verify config;
     opt_ignored :=
       (match cfg_ignored config with
        | ignored_array items => items
        | ignored_object properties => map snd properties
        end) ++ ["launcher_config"];
     opt_java := cfg_java config;
     opt_memory_min := to_string (mul (ramMin ram) (of_Z 1024)) ++ "M";
     opt_memory_max := to_string (mul (ramMax ram) (of_Z 1024)) ++ "M" |}.

(** The percentage in the text of [updateProgressBar]:
    [((progress / size) * 100).toFixed(0)]. *)
Definition percentage (progress size : number) : string :=
  toFixed (mul (div progress size) (of_Z 100)) 0.

Definition updateProgressBar (progress size : number) (text : string)
  (w : world) : world :=
  let w := set_progressBar_display "block" w in
  let w := set_info_innerHTML (text ++ " " ++ percentage progress size ++ "%") w in
  let w := ipcRenderer_send (main_window_progress progress size) w in
  let w := set_progressBar_value progress w in
  set_progressBar_max size w.

Definition formatTime (time : number) : string :=
  let hours := floor (div time (of_Z 3600)) in
  let minutes := floor (div (sub time (mul hours (of_Z 3600))) (of_Z 60)) in
  let seconds :=
    floor (sub (sub time (mul hours (of_Z 3600))) (mul minutes (of_Z 60))) in
  to_string hours ++ "h " ++ to_string minutes ++ "m "
    ++ to_string seconds ++ "s".

Definition handleLaunchData (e : payload) (launcherSettings : launcher_settings)
  (w : world) : world :=
  let w := new_logger "Minecraft" "#36b030" w in
  let w :=
    if strict_equal_string (launcher_close launcherSettings) "close-launcher"
    then ipcRenderer_send main_window_hide w else w in
  let w := ipcRenderer_send main_window_progress_reset w in
  let w := set_progressBar_display "none" w in
  let w := set_info_innerHTML (t "starting") w in
  console_log e w.

Definition handleLaunchClose (code : number)
  (launcherSettings : launcher_settings) (w : world) : world :=
  let w :=
    if strict_equal_string (launcher_close launcherSettings) "close-launcher"
    then ipcRenderer_send main_window_show w else w in
  let w := set_progressBar_display "none" w in
  let w := set_info_display "none" w in
  let w := set_playBtn_display "block" w in
  let w := set_info_innerHTML (t "verification") w in
  let w := new_logger "Launcher" "#7289da" w in
  console_log "Close" w.

(** The nine listeners that one call of [setupLaunchListeners] registers,
    with the [launcherSettings] that the call was given. *)
Definition listener (launcherSettings : launcher_settings)
  (ev : engine_event) (w : world) : world :=
  match ev with
  | ev_extract extract => console_log extract w
  | ev_progress progress size =>
      updateProgressBar progress size (t "download") w
  | ev_check progress size =>
      updateProgressBar progress size (t "verification") w
  | ev_estimated time => console_log (formatTime time) w
  | ev_speed speed =>
      console_log (toFixed (div speed (of_Z 1067008)) 2 ++ " Mb/s") w
  | ev_patch _ => set_info_innerHTML (t "patch_in_progress") w
  | ev_data e => handleLaunchData e launcherSettings w
  | ev_close code => handleLaunchClose code launcherSettings w
  | ev_error err => console_log err w
  end.

(** [launch.on] appends to the listeners of the one [launch] object of the
    module; nothing removes a listener. *)
Definition setupLaunchListeners (launcherSettings : launcher_settings)
  (w : world) : world :=
  set_listeners (listeners w ++ [launcherSettings]) w.

(** The engine emits [ev]: the listeners registered for it run in the
    order of their registration. *)
Definition emit (ev : engine_event) (w : world) : world :=
  fold_left (fun w launcherSettings => listener launcherSettings ev w)
    (listeners w) w.

Fixpoint emit_all (evs : list engine_event) (w : world) : world :=
  match evs with
  | [] => w
  | ev :: evs' => emit_all evs' (emit ev w)
  end.

(** [launch.Launch(opts)] starts an engine run. *)
Definition Launch (opts : launch_options) (w : world) : world :=
  set_engine_runs (engine_runs w ++ [opts]) w.

Definition double_quote : string := String "034"%char EmptyString.

Definition empty_mods_markup : string :=
  "<div class=" ++ double_quote ++ "mod-item" ++ double_quote
    ++ ">Aucun mod trouvé</div>".

Definition displayEmptyModsMessage (w : world) : world :=
  set_modsList
    (Some {| mods_innerHTML := empty_mods_markup; mods_children := [] |}) w.

Definition appendChild (child : mod_item) (w : world) : world :=
  match modsList w with
  | Some el =>
      set_modsList
        (Some {| mods_innerHTML := mods_innerHTML el;
                 mods_children := mods_children el ++ [child] |}) w
  | None => w
  end.

Definition modsDirectory : string :=
  path_join [dataDirectory; launcher_directory; "mods"].

Definition verifyModsBeforeLaunch : action unit :=
  modsListElement <- read modsList ;;
  match modsListElement with
  | None => ret tt
  | Some _ =>
      present <- existsSync modsDirectory ;;
      if negb present then modify displayEmptyModsMessage
      else
        files <- readdirSync modsDirectory ;;
        let mods := filter (fun file => endsWith file ".jar") files in
        if (List.length mods =? 0)%nat then modify displayEmptyModsMessage
        else
          modify (set_modsList
                    (Some {| mods_innerHTML := EmptyString; mods_children := [] |})) ;;
          for_each mods (fun mod_ =>
            modify (appendChild {| item_classList := ["mod-item"];
                                   item_textContent := mod_ |}))
  end.

(** The click listener that [initLaunch] puts on the launch control. *)
Definition initLaunch_click : action unit :=
  verifyModsBeforeLaunch ;;
  opts <- getLaunchOptions ;;
  modify (set_playBtn_display "none") ;;
  modify (set_info_display "block") ;;
  modify (Launch opts) ;;
  launcherSettings <- get launcher ;;
  modify (setupLaunchListeners launcherSettings).

(** [initStatusServer], from how the promise of [getStatus()] settles: the
    [await] is in no [try], so that a rejection leaves the method before it
    has touched the page. *)
Definition initStatusServer (poll : settled status_reply) : action unit :=
  serverPing <- await poll ;;
  if negb (truthy (reply_error serverPing)) then
    modify (set_statusText (t "server_online")) ;;
    modify (fun w =>
      set_onlineIndicator (classList_remove "offline" (onlineIndicator w)) w) ;;
    modify (set_playersCount (reply_playersConnect serverPing))
  else
    modify (set_statusText (t "server_unavailable")) ;;
    modify (fun w =>
      set_onlineIndicator (classList_add "offline" (onlineIndicator w)) w) ;;
    modify (set_playersCount "0").

End Panel.

(** *** What the user sees, for stating properties *)

(** The launch controls: the launch control, the info text and the
    progress bar. *)
Record launch_view := {
  view_playBtn_display : string;
  view_info_display : string;
  view_info_innerHTML : string;
  view_progressBar_display : string
}.

Definition view_of (w : world) : launch_view :=
  {| view_playBtn_display := playBtn_display w;
     view_info_display := info_display w;
     view_info_innerHTML := info_innerHTML w;
     view_progressBar_display := progressBar_display w |}.

(** The view between two sessions: the launch control visible, the info
    text hidden and back to the verification label, the progress bar
    hidden. *)
Definition idle_view (t : string -> string) : launch_view :=
  {| view_playBtn_display := "block";
     view_info_display := "none";
     view_info_innerHTML := t "verification";
     view_progressBar_display := "none" |}.

(** The server status that the panel shows. *)
Record server_status := {
  reachable : bool;
  playerCount : string
}.

Definition shown_status (w : world) : server_status :=
  {| reachable := negb (existsb (String.eqb "offline") (onlineIndicator w));
     playerCount := playersCount w |}.

(** The mods that the [.mods-list] element lists. *)
Definition inventory (w : world) : list string :=
  match modsList w with
  | Some el => map item_textContent (mods_children el)
  | None => []
  end.

(** The [.mods-list] element once it holds the placeholder. *)
Definition empty_mods_element : mods_list_element :=
  {| mods_innerHTML := empty_mods_markup; mods_children := [] |}.

(** The child that the scan appends for a mod. *)
Definition mod_element (name : string) : mod_item :=
  {| item_classList := ["mod-item"]; item_textContent := name |}.

(** What one close listener sends, by the close behaviour it was given. *)
Definition close_signal (ls : launcher_settings) : list ipc_message :=
  if strict_equal_string (launcher_close ls) "close-launcher"
  then [main_window_show] else [].

(** The world but for the [.mods-list] element. *)
Definition without_modsList (w : world) : world := set_modsList None w.

(** The settings hold every record that [getLaunchOptions] reads. *)
Definition present {A : Type} (entry : option A) : bool :=
  match entry with Some _ => true | None => false end.

Definition complete (d : database) : bool :=
  match accounts_selected d with
  | Some uuid => present (accounts d uuid)
  | None => false
  end
  && present (ram d) && present (java_path d) && present (java_args d)
  && present (screen d) && present (launcher d).

(** *** A sample panel

    A concrete installation, for running the panel on explicit inputs. *)
Module Sample.

Definition t (key : string) : string := key.

Definition path_join (parts : list string) : string := String.concat "/" parts.

Definition pkg : package :=
  {| pkg_user := js_undefined;
     pkg_settings := "https://launcher.example.org";
     pkg_env := js_string "azuriom" |}.

Definition config : launcher_config :=
  {| cfg_dataDirectory := "azurite";
     cfg_game_version := "1.20.1";
     cfg_loader :=
       {| loader_type := "forge"; loader_build := "latest";
          loader_enable := true |};
     cfg_verify := true;
     cfg_ignored := ignored_array ["logs"; "saves"];
     cfg_java := "true";
     cfg_status_ip := "play.example.org";
     cfg_status_port := of_Z 25565 |}.

Definition database_with (close : js_value) : database :=
  {| accounts_selected := Some "0001";
     accounts := fun id => Some ("account " ++ id);
     ram := Some {| ramMin := of_Z 2; ramMax := of_Z 4 |};
     java_path := Some "null";
     java_args := Some "[]";
     screen :=
       Some {| screen_width := js_string "<auto>";
               screen_height := js_string "<auto>" |};
     launcher := Some {| launcher_close := close |} |}.

(** The panel as [init] leaves it, with no mods directory on the disk. *)
Definition world_with (close : js_value) : world :=
  {| playBtn_display := "block";
     info_display := "none";
     info_innerHTML := t "verification";
     progressBar_display := "none";
     progressBar_value := of_Z 0;
     progressBar_max := of_Z 1;
     modsList := Some {| mods_innerHTML := EmptyString; mods_children := [] |};
     statusText := t "offline";
     onlineIndicator := [];
     playersCount := "0";
     ipc := [];
     console := [];
     loggers := [];
     engine_runs := [];
     listeners := [];
     db := database_with close;
     fs := fun _ => fs_absent |}.

(** A click on the launch control, and what the engine emits. *)
Definition click (w : world) : world :=
  snd (initLaunch_click path_join pkg "/home/user" "linux" config w).

Definition engine_emits (ev : engine_event) (w : world) : world :=
  emit t ev w.

End Sample.

End Home.

(** ** A launch session, for stating properties *)
Module Session.
Import JSNum JSStr Home.

Local Open Scope string_scope.

(** What one data listener sends, by the close behaviour it was given. *)
Definition data_signal (ls : launcher_settings) : list ipc_message :=
  (if strict_equal_string (launcher_close ls) "close-launcher"
   then [main_window_hide] else [])
  ++ [main_window_progress_reset].

(** The registrations that hide the window while the game runs. *)
Definition hides_window (ls : launcher_settings) : bool :=
  strict_equal_string (launcher_close ls) "close-launcher".

Definition is_hide (m : ipc_message) : bool :=
  match m with main_window_hide => true | _ => false end.

Definition is_show (m : ipc_message) : bool :=
  match m with main_window_show => true | _ => false end.

(** The world but for what the console printed. *)
Definition without_console (w : world) : world := set_console [] w.

(** The world but for the progress bar, the markup of the info text and the
    messages sent to the host window. *)
Definition without_progress (w : world) : world :=
  set_progressBar_display EmptyString
    (set_progressBar_value (S754_zero false)
       (set_progressBar_max (S754_zero false)
          (set_info_innerHTML EmptyString (set_ipc [] w)))).

(** The events that are only printed. *)
Definition printed_only (ev : engine_event) : bool :=
  match ev with
  | ev_extract _ | ev_estimated _ | ev_speed _ | ev_error _ => true
  | _ => false
  end.

(** The world with another disk, with other settings, and with other
    amounts of RAM, or none, in the settings. *)
Definition with_disk (disk : string -> fs_entry) (w : world) : world :=
  {| playBtn_display := playBtn_display w; info_display := info_display w;
     info_innerHTML := info_innerHTML w;
     progressBar_display := progressBar_display w;
     progressBar_value := progressBar_value w;
     progressBar_max := progressBar_max w; modsList := modsList w;
     statusText := statusText w; onlineIndicator := onlineIndicator w;
     playersCount := playersCount w; ipc := ipc w; console := console w;
     loggers := loggers w; engine_runs := engine_runs w;
     listeners := listeners w; db := db w; fs := disk |}.

Definition with_database (d : database) (w : world) : world :=
  {| playBtn_display := playBtn_display w; info_display := info_display w;
     info_innerHTML := info_innerHTML w;
     progressBar_display := progressBar_display w;
     progressBar_value := progressBar_value w;
     progressBar_max := progressBar_max w; modsList := modsList w;
     statusText := statusText w; onlineIndicator := onlineIndicator w;
     playersCount := playersCount w; ipc := ipc w; console := console w;
     loggers := loggers w; engine_runs := engine_runs w;
     listeners := listeners w; db := d; fs := fs w |}.

Definition with_ram (r : option ram_settings) (w : world) : world :=
  with_database
    {| accounts_selected := accounts_selected (db w);
       accounts := accounts (db w);
       ram := r;
       java_path := java_path (db w);
       java_args := java_args (db w);
       screen := screen (db w);
       launcher := launcher (db w) |} w.

(** What happens to the panel: the user clicks the launch control, or the
    engine emits an event. *)
Inductive happening :=
| user_click
| engine_event_of (ev : engine_event).

Definition clicks (l : list happening) : nat :=
  List.length (filter (fun h => match h with user_click => true | _ => false end) l).

Section Run.

Variable t : string -> string.
Variable path_join : list string -> string.
Variable pkg : package.
Variable dataDirectory : string.
Variable platform : string.
Variable config : launcher_config.

(** The panel after a happening; a click handler that throws leaves what it
    did until then. *)
Definition after (w : world) (h : happening) : world :=
  match h with
  | user_click =>
      snd (initLaunch_click path_join pkg dataDirectory platform config w)
  | engine_event_of ev => emit t ev w
  end.

Definition run (l : list happening) (w : world) : world :=
  fold_left after l w.

End Run.

End Session.

(** ** The rest of the page: news, video, role and whitelist *)
Module Page.
Import JSNum JSStr Home.

Local Open Scope string_scope.

(** *** Collaborators' data *)

(** The fields of [this.config] that these methods read. *)
Record page_config := {
  server_icon : js_value;
  video_activate : js_value;
  video_url : js_value;
  video_type : js_value;
  whitelist_activate : js_value;
  whitelist : list string;
  whitelist_roles : list string
}.

(** A news item of the feed. *)
Record news_item := {
  news_title : string;
  news_content : string;
  news_author : js_value;
  news_publish_date : string
}.

(** The object that [getDate] returns, and [{}], of which both fields are
    undefined. *)
Record news_date := {
  date_day : js_value;
  date_month : js_value
}.

(** An account, as far as the panel reads it: [account.name], and
    [account.user_info.role.name], which is [None] when [user_info] or
    [role] is missing, so that reading it throws. *)
Record account := {
  account_name : string;
  account_role_name : option string
}.

(** *** The document *)

(** A [div] made by [document.createElement]: its classes, and the text or
    the markup assigned to it. *)
Record element := {
  el_classList : list string;
  el_content : string
}.

(** The [.server-img] element. *)
Record server_img := {
  img_src : string;
  img_display : string
}.

(** The [.youtube-thumbnail] element: the [src] of its [.thumbnail-img]
    when it has one, whether it has a [.ytb-play-btn], and its click
    listeners, each kept as the markup that it assigns to the [innerHTML]
    of the thumbnail. *)
Record thumbnail := {
  thumb_img_src : option string;
  thumb_playButton : bool;
  thumb_onclick : list string
}.

(** The [.ytb] container: its [style.display], its [.youtube-thumbnail] and
    its [.ytb-btn] when it has them, the latter as the list of its click
    listeners, each kept as the URL that it opens; and the errors printed by
    [console.error]. *)
Record video := {
  ytb_display : string;
  ytb_thumbnail : option thumbnail;
  ytb_btn : option (list string);
  console_errors : list string
}.

(** The style and the text of the [.play-btn] element. *)
Record play_button := {
  btn_backgroundColor : string;
  btn_pointerEvents : string;
  btn_boxShadow : string;
  btn_textContent : string
}.

Definition line_break : string := String "010"%char EmptyString.

Definition quoted (s : string) : string := double_quote ++ s ++ double_quote.

Definition MONTHS : list string :=
  ["janvier"; "février"; "mars"; "avril"; "mai"; "juin"; "juillet"; "août";
   "septembre"; "octobre"; "novembre"; "décembre"].

(** [array.includes(s)], on strings *)
Definition includes (l : list string) (s : string) : bool :=
  existsb (String.eqb s) l.

Section Methods.

Variable t : string -> string.
Variable config : page_config.

(** [new Date(e)] in the local time zone: the day of the month and the index
    of the month of the date that [e] denotes, [None] for an invalid date. *)
Variable Date : string -> option (Z * nat).

(** [getDate]: of an invalid date the day is [NaN] and the month is
    undefined. *)
Definition getDate (e : string) : news_date :=
  match Date e with
  | Some (d, m) =>
      {| date_day := js_number (of_Z d);
         date_month :=
           match nth_error MONTHS m with
           | Some name => js_string name
           | None => js_undefined
           end |}
  | None => {| date_day := js_number S754_nan; date_month := js_undefined |}
  end.

(** The markup of a news block. *)
Definition news_markup (title content : string) (author : js_value)
  (date : news_date) : string :=
  line_break
  ++ "            <div class=" ++ quoted "news-header" ++ ">" ++ line_break
  ++ "                <div class=" ++ quoted "header-text" ++ ">" ++ line_break
  ++ "                    <div class=" ++ quoted "title" ++ ">" ++ title
  ++ "</div>" ++ line_break
  ++ "                </div>" ++ line_break
  ++ "                "
  ++ (if truthy (date_day date)
      then "<div class=" ++ quoted "date" ++ "><div class=" ++ quoted "day"
           ++ ">" ++ to_text (date_day date) ++ "</div><div class="
           ++ quoted "month" ++ ">" ++ to_text (date_month date)
           ++ "</div></div>"
      else EmptyString)
  ++ line_break
  ++ "            </div>" ++ line_break
  ++ "            <div class=" ++ quoted "news-content" ++ ">" ++ line_break
  ++ "                <div class=" ++ quoted "bbWrapper" ++ ">" ++ line_break
  ++ "                    <p>" ++ content ++ "</p>" ++ line_break
  ++ "                    "
  ++ (if truthy author
      then "<p class=" ++ quoted "news-author" ++ "><span>" ++ to_text author
           ++ "</span></p>"
      else EmptyString)
  ++ line_break
  ++ "                </div>" ++ line_break
  ++ "            </div>".

(** [createNewsBlock(container, title, content, author = '', date = {})]:
    an argument left out is [None]; the default also replaces an undefined
    one.  The container is the list of its children. *)
Definition createNewsBlock (container : list element) (title content : string)
  (author : option js_value) (date : option news_date) : list element :=
  let author :=
    match author with
    | None | Some js_undefined => js_string EmptyString
    | Some a => a
    end in
  let date :=
    match date with
    | None => {| date_day := js_undefined; date_month := js_undefined |}
    | Some d => d
    end in
  (container
   ++ [ {| el_classList := ["news-block"; "opacity-1"];
           el_content := news_markup title content author date |} ])%list.

Definition setServerIcon (serverImg : server_img) : server_img :=
  let serverImg :=
    {| img_src := to_text (server_icon config);
       img_display := img_display serverImg |} in
  if negb (truthy (server_icon config))
  then {| img_src := img_src serverImg; img_display := "none" |}
  else serverImg.

(** [initNews], on the children of [.news-list] and the [.server-img]
    element; [this.news] is the list of the items, or a value that is not
    truthy ([None]) when the feed could not be read. *)
Definition initNews (news : option (list news_item))
  (newsContainer : list element) (serverImg : server_img)
  : list element * server_img :=
  let newsContainer :=
    match news with
    | Some items =>
        if (List.length items =? 0)%nat then
          createNewsBlock newsContainer (t "no_news_available")
            (t "news_follow_here") None None
        else
          fold_left
            (fun container newsItem =>
               let date := getDate (news_publish_date newsItem) in
               createNewsBlock container (news_title newsItem)
                 (news_content newsItem) (Some (news_author newsItem))
                 (Some date))
            items newsContainer
    | None =>
        createNewsBlock newsContainer (t "error_contacting_server")
          (t "error_contacting_server") None None
    end in
  (newsContainer, setServerIcon serverImg).

(** [initVideo]; a method called on a missing element throws. *)
Definition initVideo (videoContainer : video) : completion unit * video :=
  if negb (truthy (video_activate config)) then
    (Normal tt,
     {| ytb_display := "none";
        ytb_thumbnail := ytb_thumbnail videoContainer;
        ytb_btn := ytb_btn videoContainer;
        console_errors := console_errors videoContainer |})
  else
    let youtubeVideoId := to_text (video_url config) in
    let videoType := video_type config in
    let embed : option string :=
      if strict_equal_string videoType "short" then
        Some ("https://www.youtube.com/embed/" ++ youtubeVideoId
              ++ "?autoplay=1&playsinline=1")
      else if strict_equal_string videoType "normal" then
        Some ("https://www.youtube.com/embed/" ++ youtubeVideoId
              ++ "?autoplay=1")
      else None in
    match embed with
    | None =>
        (Normal tt,
         {| ytb_display := ytb_display videoContainer;
            ytb_thumbnail := ytb_thumbnail videoContainer;
            ytb_btn := ytb_btn videoContainer;
            console_errors :=
              (console_errors videoContainer
               ++ ["Invalid video type specified in the configuration."])%list |})
    | Some youtubeEmbedUrl =>
        let youtubeThumbnailUrl :=
          "https://img.youtube.com/vi/" ++ youtubeVideoId ++ "/0.jpg" in
        match ytb_thumbnail videoContainer with
        | None => (Throw "TypeError", videoContainer)
        | Some videoThumbnail =>
            match ytb_btn videoContainer with
            | None => (Throw "TypeError", videoContainer)
            | Some btn_listeners =>
                let watch := "https://youtube.com/watch?v=" ++ youtubeVideoId in
                let btn := (btn_listeners ++ [watch])%list in
                let iframe :=
                  "<iframe width=" ++ quoted "500" ++ " height=" ++ quoted "290"
                  ++ " src=" ++ quoted youtubeEmbedUrl
                  ++ " frameborder=" ++ quoted "0" ++ " allow="
                  ++ quoted "accelerometer; autoplay; encrypted-media; gyroscope; picture-in-picture"
                  ++ "></iframe>" in
                let videoThumbnail :=
                  match thumb_img_src videoThumbnail with
                  | Some _ =>
                      if thumb_playButton videoThumbnail then
                        {| thumb_img_src := Some youtubeThumbnailUrl;
                           thumb_playButton := true;
                           thumb_onclick :=
                             (thumb_onclick videoThumbnail ++ [iframe])%list |}
                      else videoThumbnail
                  | None => videoThumbnail
                  end in
                (Normal tt,
                 {| ytb_display := ytb_display videoContainer;
                    ytb_thumbnail := Some videoThumbnail;
                    ytb_btn := Some btn;
                    console_errors := console_errors videoContainer |})
            end
        end
    end.

(** [updateRole], on the children of the tooltip, when the page has one. *)
Definition updateRole (account : account) (tooltip : option (list element))
  : completion unit * option (list element) :=
  match tooltip with
  | Some children =>
      match account_role_name account with
      | Some name =>
          let blockRole :=
            {| el_classList := ["player-role"];
               el_content := t "grade" ++ ": " ++ name |} in
          (Normal tt, Some (children ++ [blockRole])%list)
      | None => (Throw "TypeError", tooltip)
      end
  | None => (Normal tt, tooltip)
  end.

(** [updateWhitelist]: [&&] reads its right operand only when the left one
    is truthy. *)
Definition updateWhitelist (account : account) (playBtn : play_button)
  : completion unit * play_button :=
  let condition : completion bool :=
    if truthy (whitelist_activate config) then
      if negb (includes (whitelist config) (account_name account)) then
        match account_role_name account with
        | Some name => Normal (negb (includes (whitelist_roles config) name))
        | None => Throw "TypeError"
        end
      else Normal false
    else Normal false in
  match condition with
  | Throw e => (Throw e, playBtn)
  | Normal true =>
      (Normal tt,
       {| btn_backgroundColor := "#696969";
          btn_pointerEvents := "none";
          btn_boxShadow := "none";
          btn_textContent := t "unavailable" |})
  | Normal false =>
      (Normal tt,
       {| btn_backgroundColor := "#00bd7a";
          btn_pointerEvents := "auto";
          btn_boxShadow := "2px 2px 5px rgba(0, 0, 0, 0.3)";
          btn_textContent := t "play" |})
  end.

End Methods.

(** *** The player, the role line and the launch button, for stating
    properties *)

(** The click listeners of the thumbnail. *)
Definition thumbnail_listeners (v : video) : list string :=
  match ytb_thumbnail v with
  | Some videoThumbnail => thumb_onclick videoThumbnail
  | None => []
  end.

(** The configuration asks for a video of a known type. *)
Definition video_wanted (config : page_config) : Prop :=
  truthy (video_activate config) = true /\
  (video_type config = js_string "short" \/
   video_type config = js_string "normal").

Definition role_line (t : string -> string) (name : string) : element :=
  {| el_classList := ["player-role"]; el_content := t "grade" ++ ": " ++ name |}.

(** The news block of an item whose date reads as [date]. *)
Definition news_block (item : news_item) (date : news_date) : element :=
  {| el_classList := ["news-block"; "opacity-1"];
     el_content :=
       news_markup (news_title item) (news_content item)
         (match news_author item with
          | js_undefined => js_string EmptyString
          | a => a
          end) date |}.

(** The news block of a notice, without author or date. *)
Definition notice_block (title content : string) : element :=
  {| el_classList := ["news-block"; "opacity-1"];
     el_content :=
       news_markup title content (js_string EmptyString)
         {| date_day := js_undefined; date_month := js_undefined |} |}.

Definition playable_button (t : string -> string) : play_button :=
  {| btn_backgroundColor := "#00bd7a";
     btn_pointerEvents := "auto";
     btn_boxShadow := "2px 2px 5px rgba(0, 0, 0, 0.3)";
     btn_textContent := t "play" |}.

Definition blocked_button (t : string -> string) : play_button :=
  {| btn_backgroundColor := "#696969";
     btn_pointerEvents := "none";
     btn_boxShadow := "none";
     btn_textContent := t "unavailable" |}.

(** A page and a configuration, for running the methods on explicit
    inputs. *)
Module SamplePage.

Definition settings : page_config :=
  {| server_icon := js_string "https://launcher.example.org/icon.png";
     video_activate := js_boolean true;
     video_url := js_string "dQw4w9WgXcQ";
     video_type := js_string "short";
     whitelist_activate := js_boolean true;
     whitelist := ["Steve"; "Alex"];
     whitelist_roles := ["Admin"] |}.

(** The dates that the sample feed uses. *)
Definition Date (e : string) : option (Z * nat) :=
  if String.eqb e "2024-03-05" then Some (5, 2%nat)
  else if String.eqb e "2023-12-24" then Some (24, 11%nat)
  else None.

Definition video_container : video :=
  {| ytb_display := "block";
     ytb_thumbnail :=
       Some {| thumb_img_src := Some EmptyString; thumb_playButton := true;
               thumb_onclick := [] |};
     ytb_btn := Some [];
     console_errors := [] |}.

End SamplePage.

End Page.

(** ** Facts about JavaScript numbers *)
Module JSNumFacts.
Import JSNum.

(** *** The model against the Standard Library

    On the samples the operations are, bit for bit, the IEEE 754 binary64
    operations of [SpecFloat]. *)
Lemma operations_agree_with_SpecFloat :
  map (fun p => (div (fst p) (snd p), mul (fst p) (snd p),
                 add (fst p) (snd p), sub (fst p) (snd p)))
      (list_prod samples samples)
  = map (fun p => (SFdiv 53 1024 (fst p) (snd p), SFmul 53 1024 (fst p) (snd p),
                   SFadd 53 1024 (fst p) (snd p), SFsub 53 1024 (fst p) (snd p)))
      (list_prod samples samples).
Proof. vm_compute. reflexivity. Qed.

(** The digits of an integer below [2^53] are its shortest decimal. *)
Lemma shortest_text_of_integers :
  forallb (fun n => String.eqb (shortest_text (of_Z n)) (decimal n))
    integer_samples = true.
Proof. vm_compute. reflexivity. Qed.

(** Texts that JavaScript prints. *)
Lemma to_string_examples :
  to_string (add (round false (1 # 10)) (round false (2 # 10)))
  = "0.30000000000000004"%string /\
  to_string (div (of_Z 1) (of_Z 3)) = "0.3333333333333333"%string /\
  to_string (of_Z (10 ^ 21)) = "1e+21"%string /\
  to_string (of_Z 123456789012345678901) = "123456789012345680000"%string /\
  to_string (round false (2 ^ (-1074))) = "5e-324"%string /\
  to_string (round true (15 # 10000000)) = "-0.0000015"%string /\
  to_string (round false (1 # 10000000)) = "1e-7"%string /\
  toFixed (round false (1005 # 1000)) 2 = "1.00"%string /\
  toFixed (round false (5 # 2)) 0 = "3"%string /\
  toFixed (round true (1 # 4)) 0 = "-0"%string /\
  toFixed (div (of_Z 1067008) (of_Z 1067008)) 2 = "1.00"%string.
Proof. vm_compute. repeat split. Qed.

Local Open Scope Q_scope.

Lemma pow2_pos (e : Z) : 0 < 2 ^ e.
Proof. apply Qpower_0_lt. reflexivity. Qed.

Lemma pow2_add (a b : Z) : 2 ^ (a + b) == 2 ^ a * 2 ^ b.
Proof. apply Qpower_plus. discriminate. Qed.

Lemma pow2_le (a b : Z) : (a <= b)%Z -> 2 ^ a <= 2 ^ b.
Proof. intros H. apply Qpower_le_compat_l; [exact H | discriminate]. Qed.

Lemma pow2_lt (a b : Z) : (a < b)%Z -> 2 ^ a < 2 ^ b.
Proof. intros H. apply Qpower_lt_compat_l; [exact H | reflexivity]. Qed.

Lemma pow2_inject (a : Z) : (0 <= a)%Z -> inject_Z (2 ^ a) == 2 ^ a.
Proof. intros H. apply (Zpower_Qpower 2 a H). Qed.

Lemma pow2_sub (a b : Z) : 2 ^ (a - b) == 2 ^ a / 2 ^ b.
Proof.
  unfold Z.sub. rewrite pow2_add, Qpower_opp. reflexivity.
Qed.

(** [Z.log2] brackets a positive integer between two powers of 2. *)
Lemma log2_bracket (n : Z) :
  (0 < n)%Z -> 2 ^ Z.log2 n <= inject_Z n /\ inject_Z n < 2 ^ (Z.log2 n + 1).
Proof.
  intros Hn. pose proof (Z.log2_spec n Hn) as [Hl Hu].
  pose proof (Z.log2_nonneg n) as Hnn.
  rewrite <- !pow2_inject by lia.
  rewrite <- Zle_Qle, <- Zlt_Qlt. replace (Z.log2 n + 1)%Z with (Z.succ (Z.log2 n)) by lia.
  split; assumption.
Qed.

Lemma Qlog2_spec (x : Q) :
  0 < x -> 2 ^ Qlog2 x <= x /\ x < 2 ^ (Qlog2 x + 1).
Proof.
  intros Hx. unfold Qlog2.
  destruct x as [n d]. cbn [Qnum Qden].
  assert (Hn : (0 < n)%Z).
  { unfold Qlt in Hx. cbn in Hx. lia. }
  destruct (log2_bracket n Hn) as [Hnl Hnu].
  destruct (log2_bracket (Zpos d) eq_refl) as [Hdl Hdu].
  set (ln := Z.log2 n) in *. set (ld := Z.log2 (Zpos d)) in *.
  assert (Hx' : n # d == inject_Z n / inject_Z (Zpos d)).
  { rewrite (Qmake_Qdiv n d). reflexivity. }
  assert (Hd0 : 0 < inject_Z (Zpos d)) by reflexivity.
  assert (Hlow : 2 ^ (ln - ld - 1) <= n # d).
  { rewrite Hx'. apply Qle_shift_div_l; [exact Hd0|].
    apply Qle_trans with (2 ^ (ln - ld - 1) * 2 ^ (ld + 1)).
    - apply Qmult_le_l; [apply pow2_pos | apply Qlt_le_weak; exact Hdu].
    - rewrite <- pow2_add. replace (ln - ld - 1 + (ld + 1))%Z with ln by ring.
      exact Hnl. }
  assert (Hupp : n # d < 2 ^ (ln - ld + 1)).
  { rewrite Hx'. apply Qlt_shift_div_r; [exact Hd0|].
    apply Qlt_le_trans with (2 ^ (ln + 1)); [exact Hnu|].
    replace (ln + 1)%Z with (ln - ld + 1 + ld)%Z by ring.
    rewrite pow2_add. apply Qmult_le_l; [apply pow2_pos | exact Hdl]. }
  destruct (Qle_bool (2 ^ (ln - ld)) (n # d)) eqn:Hb.
  - apply Qle_bool_iff in Hb. split; assumption.
  - assert (Hlt : n # d < 2 ^ (ln - ld)).
    { apply Qnot_le_lt. intros H. apply Qle_bool_iff in H. congruence. }
    split; [exact Hlow|].
    replace (ln - ld - 1 + 1)%Z with (ln - ld)%Z by ring. exact Hlt.
Qed.

Lemma rne_lower (y : Q) (z : Z) : inject_Z z <= y -> (z <= rne y)%Z.
Proof.
  intros H. assert (Hf : (z <= Qfloor y)%Z).
  { rewrite <- (Qfloor_Z z). apply Qfloor_resp_le. exact H. }
  unfold rne. destruct (y - inject_Z (Qfloor y) ?= 1 # 2);
    try destruct (Z.even (Qfloor y)); lia.
Qed.

Lemma rne_upper (y : Q) (z : Z) : y <= inject_Z z -> (rne y <= z)%Z.
Proof.
  intros H.
  assert (Hc : (Qceiling y <= z)%Z).
  { rewrite <- (Qceiling_Z z). apply Qceiling_resp_le. exact H. }
  pose proof (Qle_floor_ceiling y) as Hfc. rewrite <- Zle_Qle in Hfc.
  unfold rne.
  destruct (Qcompare_spec (y - inject_Z (Qfloor y)) (1 # 2)) as [He|Hl|Hg].
  - assert (Hne : (Qfloor y < Qceiling y)%Z).
    { destruct (Z.eq_dec (Qfloor y) (Qceiling y)) as [E|E]; [|lia].
      exfalso. pose proof (Qle_ceiling y) as H1. rewrite <- E in H1.
      pose proof (Qfloor_le y) as H2. lra. }
    destruct (Z.even (Qfloor y)); lia.
  - lia.
  - assert (Hne : (Qfloor y < Qceiling y)%Z).
    { destruct (Z.eq_dec (Qfloor y) (Qceiling y)) as [E|E]; [|lia].
      exfalso. pose proof (Qle_ceiling y) as H1. rewrite <- E in H1.
      pose proof (Qfloor_le y) as H2. lra. }
    lia.
Qed.

Lemma rne_error (y : Q) : - (1 # 2) <= inject_Z (rne y) - y <= 1 # 2.
Proof.
  pose proof (Qfloor_le y) as H1. pose proof (Qlt_floor y) as H2.
  rewrite inject_Z_plus in H2. change (inject_Z 1) with 1 in H2.
  unfold rne.
  destruct (Qcompare_spec (y - inject_Z (Qfloor y)) (1 # 2)) as [He|Hl|Hg].
  - destruct (Z.even (Qfloor y)); [|rewrite inject_Z_plus; change (inject_Z 1) with 1]; lra.
  - lra.
  - rewrite inject_Z_plus; change (inject_Z 1) with 1. lra.
Qed.


Lemma inject_pow2_53 : inject_Z (2 ^ 53) == 2 ^ 53.
Proof. reflexivity. Qed.

Lemma inject_pow2_52 : inject_Z (2 ^ 52) == 2 ^ 52.
Proof. reflexivity. Qed.

(** The mantissa before normalisation. *)
Section Mantissa.

Variable x : Q.
Hypothesis Hx : 0 < x.

Let l := Qlog2 x.
Let e0 := Z.max (l - 52) (-1074).
Let y := x / 2 ^ e0.
Let m0 := rne y.

Lemma mantissa_scaled : y * 2 ^ e0 == x.
Proof.
  unfold y. field. intros H. pose proof (pow2_pos e0). lra.
Qed.

Lemma mantissa_scaled_pos : 0 < y.
Proof.
  unfold y. apply Qlt_shift_div_l; [apply pow2_pos | lra].
Qed.

Lemma mantissa_nonneg : (0 <= m0)%Z.
Proof.
  apply rne_lower. apply Qlt_le_weak. exact mantissa_scaled_pos.
Qed.

Lemma mantissa_scaled_upper : y < 2 ^ 53.
Proof.
  unfold y. apply Qlt_shift_div_r; [apply pow2_pos|].
  destruct (Qlog2_spec x Hx) as [_ Hu]. fold l in Hu.
  apply Qlt_le_trans with (2 ^ (l + 1)); [exact Hu|].
  rewrite <- pow2_add. apply pow2_le. unfold e0. lia.
Qed.

Lemma mantissa_upper : (m0 <= 2 ^ 53)%Z.
Proof.
  apply rne_upper. rewrite inject_pow2_53.
  apply Qlt_le_weak. exact mantissa_scaled_upper.
Qed.

Lemma mantissa_normal : (-1074 < e0)%Z -> (2 ^ 52 <= m0)%Z.
Proof.
  intros He. apply rne_lower. rewrite inject_pow2_52.
  unfold y. apply Qle_shift_div_l; [apply pow2_pos|].
  destruct (Qlog2_spec x Hx) as [Hl _]. fold l in Hl.
  rewrite <- pow2_add. apply Qle_trans with (2 ^ l); [|exact Hl].
  apply pow2_le. unfold e0 in *. lia.
Qed.

(** A representable number with an exponent at least [e0] is an integer
    multiple of [2^e0]. *)
Lemma representable_multiple (m e : Z) :
  (0 <= m)%Z -> (e0 <= e)%Z ->
  inject_Z m * 2 ^ e == inject_Z (m * 2 ^ (e - e0)) * 2 ^ e0.
Proof.
  intros Hm He. rewrite inject_Z_mult, pow2_inject by lia.
  rewrite <- Qmult_assoc, <- pow2_add.
  replace (e - e0 + e0)%Z with e by ring. reflexivity.
Qed.

Lemma mantissa_lower_bound (lo : Q) :
  representable lo -> lo <= x -> lo <= inject_Z m0 * 2 ^ e0.
Proof.
  intros (m & e & Hm & He & Hlo) Hle.
  pose proof (pow2_pos e0) as Hp.
  destruct (Z_le_gt_dec e0 e) as [Hee|Hee].
  - rewrite Hlo, (representable_multiple m e) by lia.
    apply Qmult_le_compat_r; [|lra].
    rewrite <- Zle_Qle. apply rne_lower.
    unfold y. apply Qle_shift_div_l; [exact Hp|].
    rewrite <- representable_multiple by lia. rewrite <- Hlo. exact Hle.
  - assert (Hn : (2 ^ 52 <= m0)%Z) by (apply mantissa_normal; lia).
    rewrite Zle_Qle, inject_pow2_52 in Hn.
    rewrite Hlo.
    apply Qle_trans with (2 ^ 53 * 2 ^ e).
    + apply Qmult_le_compat_r; [|apply Qlt_le_weak, pow2_pos].
      rewrite <- inject_pow2_53, <- Zle_Qle. lia.
    + apply Qle_trans with (2 ^ 52 * 2 ^ e0).
      * rewrite <- !pow2_add. apply pow2_le. lia.
      * apply Qmult_le_compat_r; [exact Hn | lra].
Qed.

Lemma mantissa_upper_bound (hi : Q) :
  representable hi -> x <= hi -> inject_Z m0 * 2 ^ e0 <= hi.
Proof.
  intros (m & e & Hm & He & Hhi) Hle.
  pose proof (pow2_pos e0) as Hp.
  destruct (Z_le_gt_dec e0 e) as [Hee|Hee].
  - rewrite Hhi, (representable_multiple m e) by lia.
    apply Qmult_le_compat_r; [|lra].
    rewrite <- Zle_Qle. apply rne_upper.
    unfold y. apply Qle_shift_div_r; [exact Hp|].
    rewrite <- representable_multiple by lia. rewrite <- Hhi. exact Hle.
  - exfalso.
    destruct (Qlog2_spec x Hx) as [Hl _]. fold l in Hl.
    assert (Hlt : hi < 2 ^ l).
    { rewrite Hhi. apply Qlt_le_trans with (2 ^ 53 * 2 ^ e).
      - apply Qmult_lt_compat_r; [apply pow2_pos|].
        rewrite <- inject_pow2_53, <- Zlt_Qlt. lia.
      - rewrite <- pow2_add. apply pow2_le. unfold e0 in *. lia. }
    lra.
Qed.

End Mantissa.

Lemma representable_eq (r r' : Q) :
  r == r' -> representable r -> representable r'.
Proof.
  intros E (m & e & Hm & He & Hr). exists m, e.
  repeat split; try lia. rewrite <- E. exact Hr.
Qed.

Lemma representable_lt_overflow (r : Q) : representable r -> r < 2 ^ 1024.
Proof.
  intros (m & e & Hm & He & Hr). rewrite Hr.
  apply Qlt_le_trans with (2 ^ 53 * 2 ^ e).
  - apply Qmult_lt_compat_r; [apply pow2_pos|].
    rewrite <- inject_pow2_53, <- Zlt_Qlt. lia.
  - rewrite <- pow2_add. apply pow2_le. lia.
Qed.

Lemma representable_nonneg (r : Q) : representable r -> 0 <= r.
Proof.
  intros (m & e & Hm & He & Hr). rewrite Hr.
  apply Qmult_le_0_compat; [|apply Qlt_le_weak, pow2_pos].
  change 0 with (inject_Z 0). rewrite <- Zle_Qle. lia.
Qed.

Lemma value_magnitude (x : number) :
  value x ==
  match x with
  | S754_finite true _ _ => - magnitude x
  | _ => magnitude x
  end.
Proof. destruct x as [| | |[] m e]; cbn; ring. Qed.

Lemma magnitude_finite_pos (s : bool) (m : positive) (e : Z) :
  0 < magnitude (S754_finite s m e).
Proof.
  cbn. apply Qmult_lt_0_compat; [reflexivity | apply pow2_pos].
Qed.

(** Rounding stays between the representable numbers around its argument,
    and is finite there. *)
Lemma round_sandwich (s : bool) (x lo hi : Q) :
  0 < x -> representable lo -> representable hi -> lo <= x <= hi ->
  is_finite (round s x) = true /\
  lo <= magnitude (round s x) <= hi /\
  value (round s x) == sign_Q s * magnitude (round s x).
Proof.
  intros Hx Hlo Hhi [Hl Hh].
  pose proof (mantissa_lower_bound x Hx lo Hlo Hl) as HL.
  pose proof (mantissa_upper_bound x Hx hi Hhi Hh) as HU.
  pose proof (mantissa_nonneg x Hx) as Hm0.
  pose proof (mantissa_upper x Hx) as Hm1.
  pose proof (mantissa_normal x Hx) as Hmn.
  pose proof (representable_lt_overflow hi Hhi) as Hov.
  pose proof (representable_nonneg lo Hlo) as Hlo0.
  cbv zeta in HL, HU, Hm0, Hm1, Hmn.
  unfold round. destruct (Qle_bool x 0) eqn:Hb.
  { apply Qle_bool_iff in Hb. lra. }
  unfold round_mantissa.
  set (e0 := Z.max (Qlog2 x - 52) (-1074)) in *.
  set (m0 := rne (x / 2 ^ e0)) in *.
  pose proof (pow2_pos e0) as Hp.
  destruct (Z.eqb_spec m0 (2 ^ 53)) as [E|E].
  - assert (Hv : inject_Z (2 ^ 52) * 2 ^ (e0 + 1) == inject_Z m0 * 2 ^ e0).
    { rewrite E, pow2_add. change (2 ^ 1) with 2.
      change (inject_Z (2 ^ 52)) with (2 ^ 52). change (inject_Z (2 ^ 53)) with (2 ^ 53).
      change (2 ^ 53) with (2 ^ 52 * 2). ring. }
    change (2 ^ 52)%Z with (Zpos (2 ^ 52)%positive) in *.
    destruct (Z.leb_spec (e0 + 1) 971) as [Hle|Hgt].
    + cbn [is_finite magnitude value]. rewrite Hv.
      split; [reflexivity|]. split; [split; assumption | reflexivity].
    + exfalso.
      assert (2 ^ 1024 <= inject_Z m0 * 2 ^ e0).
      { rewrite E. rewrite inject_pow2_53, <- pow2_add. apply pow2_le. lia. }
      lra.
  - destruct m0 as [|p|p] eqn:Em.
    + cbn [is_finite magnitude value].
      split; [reflexivity|]. change (inject_Z 0) with 0 in *.
      split; [split; lra | ring].
    + destruct (Z.leb_spec e0 971) as [Hle|Hgt].
      * cbn [is_finite magnitude value].
        split; [reflexivity|]. split; [split; assumption | reflexivity].
      * exfalso.
        assert (H52 : (2 ^ 52 <= Zpos p)%Z) by (apply Hmn; lia).
        rewrite Zle_Qle, inject_pow2_52 in H52.
        assert (2 ^ 1024 <= inject_Z (Zpos p) * 2 ^ e0).
        { apply Qle_trans with (2 ^ 52 * 2 ^ e0).
          - rewrite <- pow2_add. apply pow2_le. lia.
          - apply Qmult_le_compat_r; [exact H52 | lra]. }
        lra.
    + lia.
Qed.

Lemma round_exact (s : bool) (x : Q) :
  0 < x -> representable x ->
  is_finite (round s x) = true /\ value (round s x) == sign_Q s * x.
Proof.
  intros Hx Hr.
  destruct (round_sandwich s x x x Hx Hr Hr) as (Hf & [H1 H2] & Hv).
  { split; apply Qle_refl. }
  split; [exact Hf|]. rewrite Hv.
  assert (magnitude (round s x) == x) as -> by (apply Qle_antisym; assumption).
  reflexivity.
Qed.

Lemma round_signed_exact (szero : bool) (v : Q) :
  representable (Qabs v) ->
  is_finite (round_signed szero v) = true /\ value (round_signed szero v) == v.
Proof.
  intros Hr. unfold round_signed.
  destruct (Qcompare_spec v 0) as [E|L|G].
  - split; [reflexivity|]. cbn. symmetry. exact E.
  - assert (Ha : Qabs v == - v) by (apply Qabs_neg; lra).
    apply (representable_eq _ _ Ha) in Hr.
    destruct (round_exact true (- v)) as [Hf Hv]; [lra | exact Hr |].
    split; [exact Hf|]. rewrite Hv. cbn. ring.
  - assert (Ha : Qabs v == v) by (apply Qabs_pos; lra).
    apply (representable_eq _ _ Ha) in Hr.
    destruct (round_exact false v) as [Hf Hv]; [lra | exact Hr |].
    split; [exact Hf|]. rewrite Hv. cbn. ring.
Qed.

Lemma representable_integer (k : Z) :
  (0 <= k <= 2 ^ 53)%Z -> representable (inject_Z k).
Proof.
  intros Hk. destruct (Z.eq_dec k (2 ^ 53)) as [E|E].
  - exists (2 ^ 52)%Z, 1%Z. subst k. repeat split; lia || reflexivity.
  - exists k, 0%Z. split; [lia|]. split; [lia|]. change (2 ^ 0) with 1. ring.
Qed.

Lemma of_Z_exact (z : Z) :
  (Z.abs z <= 2 ^ 53)%Z ->
  is_finite (of_Z z) = true /\ value (of_Z z) == inject_Z z.
Proof.
  intros Hz. apply round_signed_exact.
  assert (E : inject_Z (Z.abs z) == Qabs (inject_Z z)) by reflexivity.
  apply (representable_eq _ _ E). apply representable_integer. lia.
Qed.


(** The result of rounding, when it is finite, is the rounded mantissa
    scaled back. *)
Lemma round_magnitude (s : bool) (x : Q) :
  0 < x -> is_finite (round s x) = true ->
  magnitude (round s x)
  == inject_Z (rne (x / 2 ^ Z.max (Qlog2 x - 52) (-1074)))
     * 2 ^ Z.max (Qlog2 x - 52) (-1074).
Proof.
  intros Hx. unfold round. destruct (Qle_bool x 0) eqn:Hb.
  { apply Qle_bool_iff in Hb. lra. }
  unfold round_mantissa.
  set (e0 := Z.max (Qlog2 x - 52) (-1074)).
  set (m0 := rne (x / 2 ^ e0)).
  pose proof (mantissa_nonneg x Hx) as Hm0. cbv zeta in Hm0. fold e0 m0 in Hm0.
  destruct (Z.eqb_spec m0 (2 ^ 53)) as [E|E].
  - change (2 ^ 52)%Z with (Zpos (2 ^ 52)%positive).
    destruct (Z.leb_spec (e0 + 1) 971); [|discriminate].
    intros _. cbn [magnitude]. rewrite E, pow2_add.
    change (2 ^ 1) with 2. change (inject_Z (2 ^ 53)) with (2 ^ 52 * 2).
    change (inject_Z (Zpos (2 ^ 52))) with (2 ^ 52). ring.
  - destruct m0 as [|p|p].
    + intros _. cbn [magnitude]. change (inject_Z 0) with 0. ring.
    + destruct (Z.leb_spec e0 971); [|discriminate].
      intros _. reflexivity.
    + lia.
Qed.

(** The rounding error is at most [2^-53] of the rounded quantity, or half
    the gap between the subnormal numbers. *)
Lemma round_error_bound (s : bool) (x : Q) :
  0 < x -> is_finite (round s x) = true ->
  - (x * 2 ^ (-53) + 2 ^ (-1075)) <= magnitude (round s x) - x
  <= x * 2 ^ (-53) + 2 ^ (-1075).
Proof.
  intros Hx Hf.
  rewrite (round_magnitude s x Hx Hf).
  destruct (Qlog2_spec x Hx) as [Hl Hu].
  set (e0 := Z.max (Qlog2 x - 52) (-1074)).
  pose proof (pow2_pos e0) as Hp.
  pose proof (pow2_pos (-1075)) as Hs.
  pose proof (pow2_pos (-53)) as Hu53.
  pose proof (rne_error (x / 2 ^ e0)) as [He1 He2].
  set (m := inject_Z (rne (x / 2 ^ e0))) in *.
  assert (Ey : x / 2 ^ e0 * 2 ^ e0 == x) by (field; lra).
  assert (Hb : 2 ^ e0 * (1 # 2) <= x * 2 ^ (-53) + 2 ^ (-1075)).
  { change (1 # 2) with (2 ^ (-1)). rewrite <- pow2_add.
    destruct (Z_le_gt_dec (-1074) (Qlog2 x - 52)) as [H|H].
    - apply Qle_trans with (x * 2 ^ (-53)); [|lra].
      apply Qle_trans with (2 ^ Qlog2 x * 2 ^ (-53)).
      + rewrite <- pow2_add. apply pow2_le. unfold e0. lia.
      + apply Qmult_le_compat_r; [exact Hl | lra].
    - apply Qle_trans with (2 ^ (-1075)).
      + apply pow2_le. unfold e0. lia.
      + assert (0 <= x * 2 ^ (-53)) by (apply Qmult_le_0_compat; lra). lra. }
  assert (H1 : (m - x / 2 ^ e0) * 2 ^ e0 <= (1 # 2) * 2 ^ e0).
  { apply Qmult_le_compat_r; lra. }
  assert (H2 : - (1 # 2) * 2 ^ e0 <= (m - x / 2 ^ e0) * 2 ^ e0).
  { apply Qmult_le_compat_r; lra. }
  assert (E : (m - x / 2 ^ e0) * 2 ^ e0 == m * 2 ^ e0 - x).
  { rewrite <- Ey at 2. ring. }
  rewrite E in H1, H2. split; lra.
Qed.

Lemma Qfloor_half_range (v : Q) (n : Z) :
  0 <= v <= inject_Z n -> (0 <= Qfloor (v + (1 # 2)) <= n)%Z.
Proof.
  intros [H0 H1]. split.
  - change 0%Z with (Qfloor 0). apply Qfloor_resp_le. lra.
  - assert (H : (Qfloor (v + (1 # 2)) < n + 1)%Z); [|lia].
    rewrite Zlt_Qlt, inject_Z_plus. change (inject_Z 1) with 1.
    apply Qle_lt_trans with (v + (1 # 2)); [apply Qfloor_le | lra].
Qed.

(** *** The operations on finite numbers *)

Lemma finite_nonneg_cases (x : number) :
  is_finite x = true -> 0 <= value x ->
  (exists s, x = S754_zero s) \/ (exists m e, x = S754_finite false m e).
Proof.
  intros Hf Hv. destruct x as [s| | |[] m e]; try discriminate Hf.
  - left. now exists s.
  - exfalso. pose proof (magnitude_finite_pos true m e) as Hp.
    cbn in Hv, Hp. lra.
  - right. now exists m, e.
Qed.

Lemma finite_pos_cases (x : number) :
  is_finite x = true -> 0 < value x -> exists m e, x = S754_finite false m e.
Proof.
  intros Hf Hv.
  destruct (finite_nonneg_cases x Hf) as [[s ->]|H]; [lra | | exact H].
  exfalso. cbn [value] in Hv. lra.
Qed.

Lemma finite_neg_cases (x : number) :
  is_finite x = true -> value x < 0 -> exists m e, x = S754_finite true m e.
Proof.
  intros Hf Hv. destruct x as [s| | |[] m e]; try discriminate Hf.
  - exfalso. cbn [value] in Hv. lra.
  - now exists m, e.
  - exfalso. pose proof (magnitude_finite_pos false m e) as Hp.
    cbn in Hv, Hp. lra.
Qed.

Lemma div_sandwich_nonneg (x y : number) (lo hi : Q) :
  is_finite x = true -> 0 <= value x ->
  is_finite y = true -> 0 < value y ->
  representable lo -> representable hi ->
  lo <= value x / value y <= hi ->
  is_finite (div x y) = true /\ lo <= value (div x y) <= hi.
Proof.
  intros Hfx Hvx Hfy Hvy Hlo Hhi Hb.
  destruct (finite_pos_cases y Hfy Hvy) as (my & ey & ->).
  pose proof (magnitude_finite_pos false my ey) as Hmy.
  assert (Ey : value (S754_finite false my ey) == magnitude (S754_finite false my ey))
    by (cbn; ring).
  rewrite Ey in Hb. clear Ey Hvy.
  destruct (finite_nonneg_cases x Hfx Hvx) as [[s ->]|(mx & ex & ->)].
  - cbn [div is_finite value]. split; [reflexivity|].
    cbn [value] in Hb. unfold Qdiv in Hb. rewrite Qmult_0_l in Hb. exact Hb.
  - pose proof (magnitude_finite_pos false mx ex) as Hmx.
    assert (Ex : value (S754_finite false mx ex) == magnitude (S754_finite false mx ex))
      by (cbn; ring).
    rewrite Ex in Hb. cbn [div xorb].
    set (q := magnitude (S754_finite false mx ex) / magnitude (S754_finite false my ey)) in *.
    assert (Hq : 0 < q) by (apply Qlt_shift_div_l; lra).
    destruct (round_sandwich false q lo hi Hq Hlo Hhi Hb) as (Hf & Hm & Hv).
    split; [exact Hf|]. rewrite Hv. cbn [sign_Q]. rewrite Qmult_1_l. exact Hm.
Qed.

Lemma div_sandwich_neg (x y : number) (lo hi : Q) :
  is_finite x = true -> value x < 0 ->
  is_finite y = true -> 0 < value y ->
  representable (- hi) -> representable (- lo) ->
  lo <= value x / value y <= hi ->
  is_finite (div x y) = true /\ lo <= value (div x y) <= hi.
Proof.
  intros Hfx Hvx Hfy Hvy Hhi Hlo Hb.
  destruct (finite_pos_cases y Hfy Hvy) as (my & ey & ->).
  destruct (finite_neg_cases x Hfx Hvx) as (mx & ex & ->).
  pose proof (magnitude_finite_pos false my ey) as Hmy.
  pose proof (magnitude_finite_pos true mx ex) as Hmx.
  change (value (S754_finite true mx ex))
    with (sign_Q true * magnitude (S754_finite true mx ex)) in Hb.
  change (value (S754_finite false my ey))
    with (sign_Q false * magnitude (S754_finite false my ey)) in Hb.
  cbn [div xorb].
  set (a := magnitude (S754_finite true mx ex)) in *.
  set (b := magnitude (S754_finite false my ey)) in *.
  assert (E : sign_Q true * a / (sign_Q false * b) == - (a / b)).
  { cbn [sign_Q]. field. lra. }
  rewrite E in Hb.
  set (q := a / b) in *.
  assert (Hq : 0 < q) by (apply Qlt_shift_div_l; lra).
  destruct (round_sandwich true q (- hi) (- lo) Hq Hhi Hlo) as (Hf & Hm & Hv).
  { split; lra. }
  split; [exact Hf|]. rewrite Hv. cbn [sign_Q]. lra.
Qed.

Lemma mul_sandwich_nonneg (x y : number) (lo hi : Q) :
  is_finite x = true -> 0 <= value x ->
  is_finite y = true -> 0 <= value y ->
  representable lo -> representable hi ->
  lo <= value x * value y <= hi ->
  is_finite (mul x y) = true /\ lo <= value (mul x y) <= hi.
Proof.
  intros Hfx Hvx Hfy Hvy Hlo Hhi Hb.
  destruct (finite_nonneg_cases x Hfx Hvx) as [[sx ->]|(mx & ex & ->)];
    destruct (finite_nonneg_cases y Hfy Hvy) as [[sy ->]|(my & ey & ->)];
    try (cbn [mul is_finite value] in *; split; [reflexivity|];
         rewrite ?Qmult_0_l, ?Qmult_0_r in Hb; exact Hb).
  pose proof (magnitude_finite_pos false mx ex) as Hmx.
  pose proof (magnitude_finite_pos false my ey) as Hmy.
  assert (E : value (S754_finite false mx ex) * value (S754_finite false my ey)
              == magnitude (S754_finite false mx ex)
                 * magnitude (S754_finite false my ey)).
  { cbn [value magnitude sign_Q]. ring. }
  rewrite E in Hb. cbn [mul xorb].
  set (q := magnitude (S754_finite false mx ex) * magnitude (S754_finite false my ey)) in *.
  assert (Hq : 0 < q) by (apply Qmult_lt_0_compat; assumption).
  destruct (round_sandwich false q lo hi Hq Hlo Hhi Hb) as (Hf & Hm & Hv).
  split; [exact Hf|]. rewrite Hv. cbn [sign_Q]. rewrite Qmult_1_l. exact Hm.
Qed.

Lemma sign_Q_xorb (a b : bool) : sign_Q (xorb a b) == sign_Q a * sign_Q b.
Proof. destruct a, b; reflexivity. Qed.

Lemma Qabs_sign_mul (s : bool) (q : Q) : 0 < q -> Qabs (sign_Q s * q) == q.
Proof.
  intros Hq. destruct s; cbn [sign_Q].
  - rewrite Qabs_neg by lra. ring.
  - rewrite Qabs_pos by lra. ring.
Qed.

Lemma mul_exact (x y : number) :
  is_finite x = true -> is_finite y = true ->
  representable (Qabs (value x * value y)) ->
  is_finite (mul x y) = true /\ value (mul x y) == value x * value y.
Proof.
  intros Hfx Hfy Hr.
  destruct x as [sx| | |sx mx ex]; try discriminate;
    destruct y as [sy| | |sy my ey]; try discriminate;
    try (cbn [mul is_finite value]; split; [reflexivity | ring]).
  pose proof (magnitude_finite_pos sx mx ex) as Hmx.
  pose proof (magnitude_finite_pos sy my ey) as Hmy.
  cbn [mul].
  change (value (S754_finite sx mx ex))
    with (sign_Q sx * magnitude (S754_finite sx mx ex)) in *.
  change (value (S754_finite sy my ey)) with (sign_Q sy * magnitude (S754_finite sy my ey)) in *.
  set (a := magnitude (S754_finite sx mx ex)) in *.
  set (b := magnitude (S754_finite sy my ey)) in *.
  assert (Hab : 0 < a * b) by (apply Qmult_lt_0_compat; assumption).
  assert (E : Qabs (sign_Q sx * a * (sign_Q sy * b)) == a * b).
  { rewrite <- (Qabs_sign_mul (xorb sx sy) (a * b) Hab).
    apply Qabs_wd. rewrite sign_Q_xorb. ring. }
  apply (representable_eq _ _ E) in Hr.
  destruct (round_exact (xorb sx sy) (a * b) Hab Hr) as [Hf Hv].
  split; [exact Hf|]. rewrite Hv, sign_Q_xorb. ring.
Qed.

Lemma opp_exact (x : number) :
  is_finite (opp x) = is_finite x /\ value (opp x) == - value x.
Proof.
  destruct x as [s| | |s m e]; cbn; split; try reflexivity; try ring.
  destruct s; cbn; ring.
Qed.

Lemma add_exact (x y : number) :
  is_finite x = true -> is_finite y = true ->
  representable (Qabs (value x + value y)) ->
  is_finite (add x y) = true /\ value (add x y) == value x + value y.
Proof.
  intros Hfx Hfy Hr.
  destruct x as [sx| | |sx mx ex]; try discriminate;
    destruct y as [sy| | |sy my ey]; try discriminate.
  - cbn. split; [reflexivity | ring].
  - cbn [add]. split; [reflexivity|]. cbn [value]. ring.
  - cbn [add]. split; [reflexivity|]. cbn [value]. ring.
  - cbn [add]. apply round_signed_exact. exact Hr.
Qed.

Lemma sub_exact (x y : number) :
  is_finite x = true -> is_finite y = true ->
  representable (Qabs (value x - value y)) ->
  is_finite (sub x y) = true /\ value (sub x y) == value x - value y.
Proof.
  intros Hfx Hfy Hr. unfold sub.
  destruct (opp_exact y) as [Hfo Hvo].
  destruct (add_exact x (opp y)) as [Hf Hv].
  - exact Hfx.
  - rewrite Hfo. exact Hfy.
  - apply (representable_eq (Qabs (value x - value y))); [|exact Hr].
    apply Qabs_wd. rewrite Hvo. ring.
  - split; [exact Hf|]. rewrite Hv, Hvo. ring.
Qed.

Lemma floor_exact (x : number) :
  is_finite x = true -> - 2 ^ 53 <= value x < 2 ^ 53 ->
  is_finite (floor x) = true /\
  value (floor x) == inject_Z (Qfloor (value x)).
Proof.
  intros Hf [Hl Hu]. destruct x as [s| | |s m e]; try discriminate.
  - cbn. split; reflexivity.
  - unfold floor. set (v := value (S754_finite s m e)) in *.
    apply round_signed_exact.
    assert (Hk : (- 2 ^ 53 <= Qfloor v < 2 ^ 53)%Z).
    { split.
      - change (- 2 ^ 53)%Z with (Qfloor (inject_Z (- 2 ^ 53))).
        apply Qfloor_resp_le. exact Hl.
      - rewrite Zlt_Qlt, inject_pow2_53.
        apply Qle_lt_trans with v; [apply Qfloor_le | exact Hu]. }
    assert (E : inject_Z (Z.abs (Qfloor v)) == Qabs (inject_Z (Qfloor v)))
      by reflexivity.
    apply (representable_eq _ _ E). apply representable_integer. lia.
Qed.


(** *** Numbers as text *)

Lemma decimal_nonempty (n : Z) : (1 <= String.length (decimal n))%nat.
Proof.
  unfold decimal, NilZero.string_of_uint.
  destruct (N.to_uint (Z.to_N n)); cbn; lia.
Qed.

Lemma is_safe_integer_true (x : number) (k : Z) :
  magnitude x == inject_Z k -> (k < 2 ^ 53)%Z -> is_safe_integer x = true.
Proof.
  intros E Hk. unfold is_safe_integer. apply andb_true_intro. split.
  - apply Qeq_bool_iff. rewrite (Qfloor_comp _ _ E), Qfloor_Z.
    symmetry. exact E.
  - apply negb_true_iff. apply not_true_is_false. intros H.
    apply Qle_bool_iff in H.
    assert (H' : inject_Z (2 ^ 53) <= inject_Z k).
    { rewrite inject_pow2_53, <- E. exact H. }
    rewrite <- Zle_Qle in H'. lia.
Qed.

Lemma to_string_integer (x : number) (k : Z) :
  is_finite x = true -> value x == inject_Z k -> (Z.abs k < 2 ^ 53)%Z ->
  to_string x = int_text k.
Proof.
  intros Hf Hv Hk. destruct x as [s| | |s m e]; try discriminate Hf.
  - cbn [value] in Hv. change 0 with (inject_Z 0) in Hv.
    assert (k = 0)%Z by (symmetry; apply inject_Z_injective; exact Hv). subst k. reflexivity.
  - pose proof (magnitude_finite_pos s m e) as Hp.
    change (value (S754_finite s m e))
      with (sign_Q s * magnitude (S754_finite s m e)) in Hv.
    unfold to_string. set (a := magnitude (S754_finite s m e)) in *.
    destruct s; cbn [sign_Q] in Hv.
    + assert (Ea : a == inject_Z (- k)) by (rewrite inject_Z_opp; lra).
      assert (Hk0 : (k < 0)%Z).
      { rewrite Zlt_Qlt. change (inject_Z 0) with 0. lra. }
      rewrite (is_safe_integer_true _ (- k) Ea) by lia.
      fold a. rewrite (Qfloor_comp _ _ Ea), Qfloor_Z. unfold int_text.
      destruct (Z.ltb_spec k 0); [reflexivity | lia].
    + assert (Ea : a == inject_Z k) by lra.
      assert (Hk0 : (0 < k)%Z).
      { rewrite Zlt_Qlt. change (inject_Z 0) with 0. lra. }
      rewrite (is_safe_integer_true _ k Ea) by lia.
      fold a. rewrite (Qfloor_comp _ _ Ea), Qfloor_Z. unfold int_text.
      destruct (Z.ltb_spec k 0); [lia | reflexivity].
Qed.

Lemma toFixed_0_nonneg (x : number) :
  is_finite x = true -> 0 <= value x -> value x < 10 ^ 21 ->
  toFixed x 0 = decimal (Qfloor (value x + (1 # 2))).
Proof.
  intros Hf H0 H1.
  assert (Em : magnitude x == value x).
  { destruct (finite_nonneg_cases x Hf H0) as [[s ->]|(m & e & ->)];
      cbn [value magnitude sign_Q]; ring. }
  assert (Hb : Qle_bool (10 ^ 21) (magnitude x) = false).
  { apply not_true_is_false. intros H. apply Qle_bool_iff in H. lra. }
  assert (Hz : forall n, (zeros (1 - String.length (decimal n)) ++ decimal n)%string
                         = decimal n).
  { intros n. pose proof (decimal_nonempty n) as Hn.
    replace (1 - String.length (decimal n))%nat with O by lia. reflexivity. }
  assert (En : Qfloor (magnitude x * 10 ^ Z.of_nat 0 + (1 # 2))
               = Qfloor (value x + (1 # 2))).
  { apply Qfloor_comp. rewrite Em. change (10 ^ Z.of_nat 0) with 1. ring. }
  destruct (finite_nonneg_cases x Hf H0) as [[s ->]|(m & e & ->)];
    unfold toFixed; rewrite Hb, En, Hz; reflexivity.
Qed.


(** *** Numbers that are integers *)

Lemma of_Z_int (z : Z) : (Z.abs z <= 2 ^ 53)%Z -> is_int (of_Z z) z.
Proof. apply of_Z_exact. Qed.

Lemma representable_abs_integer (k : Z) (v : Q) :
  v == inject_Z k -> (Z.abs k <= 2 ^ 53)%Z -> representable (Qabs v).
Proof.
  intros E Hk. apply (representable_eq (inject_Z (Z.abs k))).
  - rewrite (Qabs_wd _ _ E). reflexivity.
  - apply representable_integer. lia.
Qed.

Lemma mul_int (x y : number) (a b : Z) :
  is_int x a -> is_int y b -> (Z.abs (a * b) <= 2 ^ 53)%Z ->
  is_int (mul x y) (a * b).
Proof.
  intros [Hfx Hvx] [Hfy Hvy] Hk.
  assert (E : value x * value y == inject_Z (a * b)).
  { rewrite Hvx, Hvy, inject_Z_mult. reflexivity. }
  destruct (mul_exact x y Hfx Hfy) as [Hf Hv].
  - exact (representable_abs_integer _ _ E Hk).
  - split; [exact Hf|]. rewrite Hv. exact E.
Qed.

Lemma sub_int (x y : number) (a b : Z) :
  is_int x a -> is_int y b -> (Z.abs (a - b) <= 2 ^ 53)%Z ->
  is_int (sub x y) (a - b).
Proof.
  intros [Hfx Hvx] [Hfy Hvy] Hk.
  assert (E : value x - value y == inject_Z (a - b)).
  { rewrite Hvx, Hvy. unfold Z.sub. rewrite inject_Z_plus, inject_Z_opp. ring. }
  destruct (sub_exact x y Hfx Hfy) as [Hf Hv].
  - exact (representable_abs_integer _ _ E Hk).
  - split; [exact Hf|]. rewrite Hv. exact E.
Qed.

Lemma Qfloor_between (v : Q) (k : Z) :
  inject_Z k <= v -> v < inject_Z k + 1 -> Qfloor v = k.
Proof.
  intros Hl Hu.
  assert (H1 : (k <= Qfloor v)%Z).
  { rewrite <- (Qfloor_Z k). apply Qfloor_resp_le. exact Hl. }
  assert (H2 : (Qfloor v < k + 1)%Z).
  { rewrite Zlt_Qlt, inject_Z_plus. change (inject_Z 1) with 1.
    apply Qle_lt_trans with v; [apply Qfloor_le | exact Hu]. }
  lia.
Qed.

Lemma floor_int (x : number) (a : Z) :
  is_int x a -> (Z.abs a < 2 ^ 53)%Z -> is_int (floor x) a.
Proof.
  intros [Hf Hv] Ha.
  assert (Hb : - 2 ^ 53 <= value x < 2 ^ 53).
  { rewrite Hv. rewrite <- inject_pow2_53, <- inject_Z_opp.
    rewrite <- Zle_Qle, <- Zlt_Qlt. lia. }
  destruct (floor_exact x Hf Hb) as [Hff Hfv].
  split; [exact Hff|]. rewrite Hfv, (Qfloor_comp _ _ Hv), Qfloor_Z. reflexivity.
Qed.

(** The quotient of two integers, rounded, has the floor of the exact
    quotient: between the exact quotient and the next integer lies a
    representable number. *)
Lemma floor_div_int (x y : number) (n d : Z) :
  is_int x n -> is_int y d -> (0 < d <= 4096)%Z ->
  (Z.abs n < 2 ^ 41 * d)%Z ->
  is_int (floor (div x y)) (n / d).
Proof.
  intros [Hfx Hvx] [Hfy Hvy] Hd Hn.
  set (k := (n / d)%Z).
  assert (Hk : (d * k <= n <= d * k + (d - 1))%Z).
  { pose proof (Z.div_mod n d ltac:(lia)) as E.
    pose proof (Z.mod_pos_bound n d ltac:(lia)) as B. fold k in E. lia. }
  assert (Hk41 : (- 2 ^ 41 <= k < 2 ^ 41)%Z) by (subst k; nia).
  assert (Hdq : 0 < inject_Z d).
  { change 0 with (inject_Z 0). rewrite <- Zlt_Qlt. lia. }
  assert (Hvy0 : 0 < value y) by (rewrite Hvy; exact Hdq).
  set (lo := inject_Z k).
  set (hi := inject_Z k + 1 - (1 # 4096)).
  assert (Hq : lo <= value x / value y <= hi).
  { rewrite Hvx, Hvy. unfold lo, hi. split.
    - apply Qle_shift_div_l; [exact Hdq|].
      rewrite <- inject_Z_mult, <- Zle_Qle. lia.
    - apply Qle_shift_div_r; [exact Hdq|].
      assert (H1 : inject_Z n <= inject_Z (d * k + (d - 1))).
      { rewrite <- Zle_Qle. lia. }
      assert (H2 : inject_Z d <= 4096).
      { change 4096 with (inject_Z 4096). rewrite <- Zle_Qle. lia. }
      rewrite inject_Z_plus, inject_Z_mult in H1.
      unfold Z.sub in H1. rewrite inject_Z_plus in H1.
      change (inject_Z (- (1))) with (- (1)) in H1.
      assert (H3 : inject_Z d * (1 # 4096) <= 1).
      { apply Qle_trans with (4096 * (1 # 4096)); [|lra].
        apply Qmult_le_compat_r; [exact H2 | lra]. }
      lra. }
  assert (Hv : is_finite (div x y) = true /\ lo <= value (div x y) <= hi).
  { destruct (Z_le_gt_dec 0 n) as [Hn0|Hn0].
    - assert (Hk0 : (0 <= k)%Z) by nia.
      apply div_sandwich_nonneg; try assumption.
      + rewrite Hvx. change 0 with (inject_Z 0). rewrite <- Zle_Qle. exact Hn0.
      + apply representable_integer. lia.
      + exists (4096 * (k + 1) - 1)%Z, (-12)%Z.
        split; [lia|]. split; [lia|].
        unfold hi. unfold Z.sub. rewrite inject_Z_plus, inject_Z_mult, inject_Z_plus.
        change (2 ^ (-12)) with (1 # 4096). change (inject_Z (- (1))) with (- (1)).
        change (inject_Z 4096) with 4096. change (inject_Z 1) with 1. field.
    - assert (Hk0 : (k < 0)%Z) by nia.
      apply div_sandwich_neg; try assumption.
      + rewrite Hvx. change 0 with (inject_Z 0). rewrite <- Zlt_Qlt. lia.
      + exists (4096 * (- (k + 1)) + 1)%Z, (-12)%Z.
        split; [lia|]. split; [lia|].
        unfold hi. rewrite inject_Z_plus, inject_Z_mult, inject_Z_opp, inject_Z_plus.
        change (2 ^ (-12)) with (1 # 4096).
        change (inject_Z 4096) with 4096. change (inject_Z 1) with 1. field.
      + apply (representable_eq (inject_Z (- k))).
        * unfold lo. rewrite inject_Z_opp. reflexivity.
        * apply representable_integer. lia. }
  destruct Hv as [Hf [Hl Hu]].
  assert (Hfl : Qfloor (value (div x y)) = k).
  { apply Qfloor_between; [exact Hl|]. unfold hi in Hu. lra. }
  assert (Hb : - 2 ^ 53 <= value (div x y) < 2 ^ 53).
  { assert (H1 : - 2 ^ 53 <= lo).
    { unfold lo. rewrite <- inject_pow2_53, <- inject_Z_opp, <- Zle_Qle. lia. }
    assert (H2 : inject_Z k + 1 <= 2 ^ 53).
    { rewrite <- inject_pow2_53. change 1 with (inject_Z 1).
      rewrite <- inject_Z_plus, <- Zle_Qle. lia. }
    unfold hi in Hu. split; lra. }
  destruct (floor_exact (div x y) Hf Hb) as [Hff Hfv].
  split; [exact Hff|]. rewrite Hfv, Hfl. reflexivity.
Qed.

Lemma to_string_int (x : number) (k : Z) :
  is_int x k -> (Z.abs k < 2 ^ 53)%Z -> to_string x = int_text k.
Proof. intros [Hf Hv] Hk. exact (to_string_integer x k Hf Hv Hk). Qed.

(** *** Numbers with a fraction *)

(** [rne] gives a nearest integer. *)
Lemma rne_nearest (y : Q) (z : Z) :
  Qabs (inject_Z (rne y) - y) <= Qabs (inject_Z z - y).
Proof.
  pose proof (rne_error y) as [H1 H2].
  destruct (Z.eq_dec z (rne y)) as [->|Hne]; [apply Qle_refl|].
  apply Qle_trans with (1 # 2).
  - apply Qabs_Qle_condition. split; lra.
  - assert (Hd : (z <= rne y - 1 \/ rne y + 1 <= z)%Z) by lia.
    destruct Hd as [Hd|Hd]; rewrite Zle_Qle in Hd.
    + unfold Z.sub in Hd. rewrite inject_Z_plus in Hd.
      change (inject_Z (- (1))) with (- (1)) in Hd.
      rewrite Qabs_neg by lra. lra.
    + rewrite inject_Z_plus in Hd. change (inject_Z 1) with 1 in Hd.
      rewrite Qabs_pos by lra. lra.
Qed.

(** Rounding gives a nearest representable number. *)
Lemma round_nearest (s : bool) (x r : Q) :
  0 < x -> representable r -> is_finite (round s x) = true ->
  Qabs (magnitude (round s x) - x) <= Qabs (r - x).
Proof.
  intros Hx (m & e & Hm & He & Hr) Hf.
  rewrite (round_magnitude s x Hx Hf).
  pose proof (mantissa_normal x Hx) as Hmn. cbv zeta in Hmn.
  destruct (Qlog2_spec x Hx) as [Hl _].
  set (e0 := Z.max (Qlog2 x - 52) (-1074)) in *.
  pose proof (pow2_pos e0) as Hp.
  set (y := x / 2 ^ e0) in *.
  assert (Ey : y * 2 ^ e0 == x) by (unfold y; field; lra).
  destruct (Z_le_gt_dec e0 e) as [Hee|Hee].
  - (* [r] is a multiple of [2^e0] *)
    pose proof (rne_nearest y (m * 2 ^ (e - e0))) as Hn.
    assert (E1 : inject_Z (rne y) * 2 ^ e0 - x
                 == (inject_Z (rne y) - y) * 2 ^ e0).
    { rewrite <- Ey at 1. ring. }
    assert (E2 : r - x == (inject_Z (m * 2 ^ (e - e0)) - y) * 2 ^ e0).
    { rewrite Hr, (representable_multiple x m e) by lia. fold e0.
      rewrite <- Ey at 1. ring. }
    rewrite (Qabs_wd _ _ E1), (Qabs_wd _ _ E2), !Qabs_Qmult.
    apply Qmult_le_compat_r; [exact Hn | apply Qabs_nonneg].
  - (* [r] lies below the binade of [x], at least half a gap away *)
    assert (Hn : (2 ^ 52 <= rne y)%Z) by (apply Hmn; lia).
    pose proof (rne_error y) as [H1 H2].
    assert (Hr1 : r <= 2 ^ (52 + e0) - 2 ^ (e0 - 1)).
    { rewrite Hr. apply Qle_trans with ((2 ^ 53 - 1) * 2 ^ (e0 - 1)).
      - apply Qle_trans with ((2 ^ 53 - 1) * 2 ^ e).
        + apply Qmult_le_compat_r; [|apply Qlt_le_weak, pow2_pos].
          change (2 ^ 53 - 1) with (inject_Z (2 ^ 53 - 1)).
          rewrite <- Zle_Qle. lia.
        + apply Qmult_le_l; [reflexivity | apply pow2_le; lia].
      - replace (52 + e0)%Z with (53 + (e0 - 1))%Z by lia.
        rewrite pow2_add. set (P := 2 ^ (e0 - 1)).
        change (2 ^ 53) with 9007199254740992. lra. }
    assert (Hx1 : 2 ^ (52 + e0) <= x).
    { apply Qle_trans with (2 ^ Qlog2 x); [|exact Hl].
      apply pow2_le. unfold e0. lia. }
    assert (Hh : 2 ^ (e0 - 1) == (1 # 2) * 2 ^ e0).
    { rewrite pow2_sub. change (2 ^ 1) with 2. field. }
    assert (Hd : - ((1 # 2) * 2 ^ e0) <= inject_Z (rne y) * 2 ^ e0 - x
                 <= (1 # 2) * 2 ^ e0).
    { assert (E1 : inject_Z (rne y) * 2 ^ e0 - x
                   == (inject_Z (rne y) - y) * 2 ^ e0).
      { rewrite <- Ey at 1. ring. }
      rewrite E1. split.
      - apply Qle_trans with (- (1 # 2) * 2 ^ e0); [lra|].
        apply Qmult_le_compat_r; lra.
      - apply Qmult_le_compat_r; lra. }
    rewrite (Qabs_neg (r - x)) by lra.
    apply Qabs_Qle_condition. split; lra.
Qed.

(** Below a representable number [b] whose predecessor is [b - u],
    everything closer to the predecessor than to [b] is rounded below
    [b]. *)
Lemma round_below (s : bool) (x b u : Q) :
  0 < x -> 0 < u -> representable (b - u) -> representable b ->
  x < b - u * (1 # 2) ->
  is_finite (round s x) = true /\ magnitude (round s x) < b.
Proof.
  intros Hx Hu Hr Hb Hlt.
  assert (R0 : representable 0) by (apply (representable_integer 0); lia).
  destruct (Qlt_le_dec (b - u) x) as [Hc|Hc].
  - destruct (round_sandwich s x 0 b Hx R0 Hb) as (Hf & _ & _).
    { split; lra. }
    split; [exact Hf|].
    pose proof (round_nearest s x (b - u) Hx Hr Hf) as Hn.
    rewrite (Qabs_neg (b - u - x)) in Hn by lra.
    apply Qabs_Qle_condition in Hn. lra.
  - destruct (round_sandwich s x 0 (b - u) Hx R0 Hr) as (Hf & [_ H2] & _).
    { split; lra. }
    split; [exact Hf | lra].
Qed.

(** A binary64 number [M * 2^E] below the multiple [d * (k + 1)] of an
    integer [d] is at least [2^E] below it, which leaves the quotient by
    [d] closer to the number before [k + 1] than to [k + 1]. *)
Lemma quotient_below_next (M E d k j : Z) :
  (0 <= M < 2 ^ 53)%Z -> (E <= 0)%Z -> (0 < d)%Z -> (0 <= k)%Z ->
  inject_Z d * 2 ^ j <= inject_Z M * 2 ^ E ->
  inject_Z M * 2 ^ E < inject_Z d * inject_Z (k + 1) ->
  inject_Z M * 2 ^ E / inject_Z d
  < inject_Z (k + 1) - 2 ^ (j - 52) * (1 # 2).
Proof.
  intros HM HE Hd Hk Hj Hlt.
  pose proof (pow2_pos E) as HP. pose proof (pow2_pos j) as HJ.
  assert (HD : 0 < inject_Z d).
  { change 0 with (inject_Z 0). rewrite <- Zlt_Qlt. exact Hd. }
  (* the multiple of [d] is a multiple of [2^E] too *)
  assert (Hz : inject_Z d * inject_Z (k + 1)
               == inject_Z (d * (k + 1) * 2 ^ (- E)) * 2 ^ E).
  { rewrite !inject_Z_mult, pow2_inject by lia.
    rewrite <- !Qmult_assoc, <- pow2_add.
    replace (- E + E)%Z with 0%Z by ring. change (2 ^ 0) with 1. ring. }
  assert (H1 : inject_Z M * 2 ^ E + 2 ^ E <= inject_Z d * inject_Z (k + 1)).
  { rewrite Hz in Hlt |- *.
    assert (Hlt' : inject_Z M < inject_Z (d * (k + 1) * 2 ^ (- E))).
    { apply (Qmult_lt_r _ _ (2 ^ E) HP). exact Hlt. }
    rewrite <- Zlt_Qlt in Hlt'.
    assert (Hle : inject_Z (M + 1) <= inject_Z (d * (k + 1) * 2 ^ (- E))).
    { rewrite <- Zle_Qle. lia. }
    rewrite inject_Z_plus in Hle. change (inject_Z 1) with 1 in Hle.
    apply Qle_trans with ((inject_Z M + 1) * 2 ^ E); [ring_simplify; apply Qle_refl|].
    apply Qmult_le_compat_r; [exact Hle | lra]. }
  assert (H2 : inject_Z M * 2 ^ E <= (9007199254740992 - 1) * 2 ^ E).
  { apply Qmult_le_compat_r; [|lra].
    change (9007199254740992 - 1) with (inject_Z (2 ^ 53 - 1)).
    rewrite <- Zle_Qle. lia. }
  assert (Hu : 2 ^ (j - 52) == 2 ^ j * (1 # 4503599627370496)).
  { rewrite pow2_sub. change (2 ^ 52) with 4503599627370496. field. }
  rewrite Hu.
  apply Qlt_shift_div_r; [exact HD|].
  set (MP := inject_Z M * 2 ^ E) in *.
  set (DK := inject_Z d * inject_Z (k + 1)) in *.
  set (DJ := inject_Z d * 2 ^ j) in *.
  assert (E3 : (inject_Z (k + 1) - 2 ^ j * (1 # 4503599627370496) * (1 # 2))
               * inject_Z d
               == DK - DJ * (1 # 9007199254740992)).
  { unfold DK, DJ. ring. }
  rewrite E3. lra.
Qed.

(** The quotient of a binary64 number below [2^53] by a positive integer,
    rounded, has the floor of the exact quotient. *)
Lemma floor_div_fraction (x y : number) (M E d : Z) :
  is_finite x = true -> value x == inject_Z M * 2 ^ E ->
  (0 <= M < 2 ^ 53)%Z -> (-1074 <= E <= 0)%Z ->
  is_int y d -> (0 < d)%Z ->
  is_int (floor (div x y)) (Qfloor (value x / inject_Z d)).
Proof.
  intros Hfx Hvx HM HE [Hfy Hvy] Hd.
  pose proof (pow2_pos E) as HP.
  assert (HD : 0 < inject_Z d).
  { change 0 with (inject_Z 0). rewrite <- Zlt_Qlt. exact Hd. }
  assert (Ht0 : 0 <= value x).
  { rewrite Hvx. apply Qmult_le_0_compat; [|lra].
    change 0 with (inject_Z 0). rewrite <- Zle_Qle. lia. }
  assert (Ht1 : value x < 2 ^ 53).
  { rewrite Hvx. apply Qlt_le_trans with (2 ^ 53 * 2 ^ E).
    - apply Qmult_lt_compat_r; [exact HP|].
      rewrite <- inject_pow2_53, <- Zlt_Qlt. lia.
    - rewrite <- pow2_add. apply pow2_le. lia. }
  set (v := value x / inject_Z d) in *.
  assert (Hv0 : 0 <= v) by (apply Qle_shift_div_l; lra).
  assert (Hvt : v <= value x).
  { apply Qle_shift_div_r; [exact HD|].
    assert (1 <= inject_Z d).
    { change 1 with (inject_Z 1). rewrite <- Zle_Qle. lia. }
    assert (1 * value x <= inject_Z d * value x).
    { apply Qmult_le_compat_r; assumption. }
    lra. }
  set (k := Qfloor v).
  pose proof (Qfloor_le v) as Hk1. pose proof (Qlt_floor v) as Hk2.
  fold k in Hk1, Hk2.
  assert (Hk0 : (0 <= k)%Z).
  { unfold k. change 0%Z with (Qfloor 0). apply Qfloor_resp_le. exact Hv0. }
  assert (Hk53 : (k < 2 ^ 53)%Z).
  { rewrite Zlt_Qlt, inject_pow2_53. lra. }
  assert (Hvy0 : 0 < value y) by (rewrite Hvy; exact HD).
  destruct (finite_pos_cases y Hfy Hvy0) as (my & ey & Ey).
  destruct (finite_nonneg_cases x Hfx Ht0) as [[s Ex]|(mx & ex & Ex)].
  - (* zero seconds *)
    assert (Ek : k = 0%Z).
    { unfold k, v. rewrite Ex. cbn [value]. reflexivity. }
    rewrite Ek, Ex, Ey. cbn [div floor]. split; reflexivity.
  - assert (Ha : magnitude x == value x).
    { rewrite Ex. cbn [value magnitude sign_Q]. ring. }
    assert (Hb : magnitude y == inject_Z d).
    { rewrite <- Hvy, Ey. cbn [value magnitude sign_Q]. ring. }
    assert (Hdiv : div x y = round false (magnitude x / magnitude y)).
    { rewrite Ex, Ey. reflexivity. }
    rewrite Hdiv.
    set (q0 := magnitude x / magnitude y).
    assert (Eq0 : q0 == v).
    { unfold q0, v. rewrite Ha, Hb. reflexivity. }
    assert (Hx0 : 0 < value x).
    { rewrite <- Ha, Ex. apply magnitude_finite_pos. }
    assert (Hq0 : 0 < q0).
    { rewrite Eq0. apply Qlt_shift_div_l; lra. }
    rewrite inject_Z_plus in Hk2. change (inject_Z 1) with 1 in Hk2.
    assert (Rk : representable (inject_Z k)).
    { apply representable_integer. lia. }
    assert (Rk1 : representable (inject_Z k + 1)).
    { apply (representable_eq (inject_Z (k + 1))).
      - rewrite inject_Z_plus. reflexivity.
      - apply representable_integer. lia. }
    destruct (round_sandwich false q0 (inject_Z k) (inject_Z k + 1) Hq0 Rk Rk1)
      as (Hf & [Hl Hu] & Hval).
    { rewrite Eq0. split; lra. }
    assert (Ek1 : inject_Z k + 1 == inject_Z (k + 1)).
    { rewrite inject_Z_plus. reflexivity. }
    assert (Hstrict : magnitude (round false q0) < inject_Z k + 1).
    { destruct (Z.eq_dec k 0) as [Ek|Ek];
        [destruct (Qlt_le_dec (1 # 2) v) as [Hhalf|Hhalf]|].
      - (* below 1, above 1/2 *)
        apply (round_below false q0 (inject_Z k + 1) (2 ^ (-1 - 52)));
          try assumption.
        + apply pow2_pos.
        + rewrite Ek. exists (2 ^ 53 - 1)%Z, (-53)%Z.
          split; [lia|]. split; [lia|]. reflexivity.
        + rewrite Eq0. unfold v. rewrite Hvx, Ek1.
          apply quotient_below_next; try lia.
          * rewrite <- Hvx. change (2 ^ (-1)) with (1 # 2).
            unfold v in Hhalf. apply Qlt_le_weak.
            apply (Qmult_lt_r _ _ (/ inject_Z d)); [apply Qinv_lt_0_compat; exact HD|].
            assert (E1 : inject_Z d * (1 # 2) * / inject_Z d == 1 # 2) by (field; lra).
            rewrite E1. exact Hhalf.
          * rewrite <- Hvx. rewrite inject_Z_plus. change (inject_Z 1) with 1.
            apply (Qmult_lt_r _ _ (/ inject_Z d)); [apply Qinv_lt_0_compat; exact HD|].
            assert (E1 : inject_Z d * (inject_Z k + 1) * / inject_Z d == inject_Z k + 1)
              by (field; lra).
            rewrite E1. exact Hk2.
      - (* at most 1/2 *)
        destruct (round_sandwich false q0 0 (1 # 2) Hq0) as (_ & [_ H2] & _).
        + apply (representable_integer 0). lia.
        + exists 1%Z, (-1)%Z. split; [lia|]. split; [lia|]. reflexivity.
        + rewrite Eq0. split; lra.
        + rewrite Ek. change (inject_Z 0) with 0. lra.
      - (* one or more *)
        pose proof (Z.log2_spec k ltac:(lia)) as [Hj1 Hj2].
        pose proof (Z.log2_nonneg k) as Hj0.
        set (j := Z.log2 k) in *.
        assert (Hj52 : (j <= 52)%Z).
        { apply Z.lt_succ_r. apply (Z.pow_lt_mono_r_iff 2); lia. }
        apply (round_below false q0 (inject_Z k + 1) (2 ^ (j - 52)));
          try assumption.
        + apply pow2_pos.
        + exists ((k + 1) * 2 ^ (52 - j) - 1)%Z, (j - 52)%Z.
          assert (Hp : (0 < 2 ^ (52 - j))%Z) by (apply Z.pow_pos_nonneg; lia).
          assert (Hs : (2 ^ Z.succ j * 2 ^ (52 - j) = 2 ^ 53)%Z).
          { rewrite <- Z.pow_add_r by lia. f_equal. lia. }
          split; [nia|]. split; [lia|].
          assert (Em : inject_Z ((k + 1) * 2 ^ (52 - j) - 1)
                       == (inject_Z k + 1) * 2 ^ (52 - j) - 1).
          { replace ((k + 1) * 2 ^ (52 - j) - 1)%Z
              with ((k + 1) * 2 ^ (52 - j) + (-1))%Z by lia.
            rewrite inject_Z_plus, inject_Z_mult, inject_Z_plus.
            rewrite pow2_inject by lia.
            change (inject_Z (-1)) with (- (1)). change (inject_Z 1) with 1.
            ring. }
          assert (E1 : 2 ^ (52 - j) * 2 ^ (j - 52) == 1).
          { rewrite <- pow2_add. replace (52 - j + (j - 52))%Z with 0%Z by ring.
            reflexivity. }
          rewrite Em.
          set (A := 2 ^ (52 - j)) in *. set (B := 2 ^ (j - 52)) in *.
          assert (E2 : ((inject_Z k + 1) * A - 1) * B
                       == (inject_Z k + 1) * (A * B) - B) by ring.
          rewrite E2, E1. ring.
        + rewrite Eq0. unfold v. rewrite Hvx, Ek1.
          apply quotient_below_next; try lia.
          * rewrite <- Hvx.
            apply Qle_trans with (inject_Z d * inject_Z k).
            -- apply Qmult_le_l; [exact HD|].
               rewrite <- pow2_inject by lia. rewrite <- Zle_Qle. exact Hj1.
            -- apply (Qmult_le_r _ _ (/ inject_Z d)); [apply Qinv_lt_0_compat; exact HD|].
               assert (E1 : inject_Z d * inject_Z k * / inject_Z d == inject_Z k)
                 by (field; lra).
               rewrite E1. exact Hk1.
          * rewrite <- Hvx. rewrite inject_Z_plus. change (inject_Z 1) with 1.
            apply (Qmult_lt_r _ _ (/ inject_Z d)); [apply Qinv_lt_0_compat; exact HD|].
            assert (E1 : inject_Z d * (inject_Z k + 1) * / inject_Z d == inject_Z k + 1)
              by (field; lra).
            rewrite E1. exact Hk2. }
    assert (Hvz : value (round false q0) == magnitude (round false q0)).
    { rewrite Hval. cbn [sign_Q]. ring. }
    assert (Hfl : Qfloor (value (round false q0)) = k).
    { apply Qfloor_between; rewrite Hvz; assumption. }
    destruct (floor_exact (round false q0) Hf) as [Hff Hfv].
    { rewrite Hvz. split.
      2:{ apply Qlt_le_trans with (inject_Z k + 1); [exact Hstrict|].
          rewrite Ek1, <- inject_pow2_53, <- Zle_Qle. lia. }
      apply Qle_trans with 0; [discriminate|].
      apply Qle_trans with (inject_Z k); [|exact Hl].
      change 0 with (inject_Z 0). rewrite <- Zle_Qle. exact Hk0. }
    split; [exact Hff|]. rewrite Hfv, Hfl. reflexivity.
Qed.

(** Taking an integer multiple away from a binary64 number [M * 2^E],
    [E <= 0], leaves a number on the same grid, exactly. *)
Lemma sub_fraction (x y : number) (M E n : Z) :
  is_finite x = true -> value x == inject_Z M * 2 ^ E ->
  (0 <= M < 2 ^ 53)%Z -> (-1074 <= E <= 0)%Z ->
  is_int y n -> (0 <= n)%Z -> inject_Z n <= value x ->
  is_finite (sub x y) = true /\
  value (sub x y) == value x - inject_Z n /\
  value (sub x y) == inject_Z (M - n * 2 ^ (- E)) * 2 ^ E /\
  (0 <= M - n * 2 ^ (- E) < 2 ^ 53)%Z.
Proof.
  intros Hfx Hvx HM HE [Hfy Hvy] Hn Hle.
  pose proof (pow2_pos E) as HP.
  assert (Hz : inject_Z n == inject_Z (n * 2 ^ (- E)) * 2 ^ E).
  { rewrite inject_Z_mult, pow2_inject by lia.
    rewrite <- Qmult_assoc, <- pow2_add.
    replace (- E + E)%Z with 0%Z by ring. change (2 ^ 0) with 1. ring. }
  assert (Hm : (n * 2 ^ (- E) <= M)%Z).
  { rewrite Zle_Qle. apply (Qmult_le_r _ _ (2 ^ E) HP).
    rewrite <- Hz, <- Hvx. exact Hle. }
  assert (Hp : (0 <= n * 2 ^ (- E))%Z).
  { apply Z.mul_nonneg_nonneg; [exact Hn | apply Z.pow_nonneg; lia]. }
  assert (Ev : value x - value y == inject_Z (M - n * 2 ^ (- E)) * 2 ^ E).
  { rewrite Hvx, Hvy, Hz. unfold Z.sub. rewrite inject_Z_plus, inject_Z_opp.
    ring. }
  destruct (sub_exact x y Hfx Hfy) as [Hf Hv].
  - apply (representable_eq (inject_Z (M - n * 2 ^ (- E)) * 2 ^ E)).
    + rewrite (Qabs_wd _ _ Ev). symmetry. apply Qabs_pos.
      apply Qmult_le_0_compat; [|lra].
      change 0 with (inject_Z 0). rewrite <- Zle_Qle. lia.
    + exists (M - n * 2 ^ (- E))%Z, E. repeat split; lia || reflexivity.
  - split; [exact Hf|]. split; [rewrite Hv, Hvy; reflexivity|].
    split; [rewrite Hv; exact Ev | lia].
Qed.

End JSNumFacts.

(** ** Facts about the home panel *)
Module HomeFacts.
Import JSNum JSStr Home JSNumFacts.

(** *** The progress percentage *)

Local Open Scope Q_scope.

Section Percentage.

Variables current total : number.
Hypothesis Hfc : is_finite current = true.
Hypothesis Hft : is_finite total = true.
Hypothesis Hc0 : 0 <= value current.
Hypothesis Ht0 : 0 < value total.

Let x := mul (div current total) (of_Z 100).

Lemma representable_hundred : representable 100.
Proof. apply (representable_integer 100). lia. Qed.

Lemma representable_zero : representable 0.
Proof. apply (representable_integer 0). lia. Qed.

Lemma of_Z_hundred : of_Z 100 = S754_finite false 7036874417766400 (-46).
Proof. reflexivity. Qed.

(** A quotient of at most [bound] gives a percentage of at most
    [100 * bound]. *)
Lemma percentage_bounds (bound : Q) :
  representable bound -> representable (100 * bound) ->
  value current <= bound * value total ->
  is_finite x = true /\ 0 <= value x <= 100 * bound.
Proof.
  intros Rb Rhb Hb. subst x.
  assert (Hq : 0 <= value current / value total <= bound).
  { split.
    - apply Qle_shift_div_l; [exact Ht0 | lra].
    - apply Qle_shift_div_r; [exact Ht0 | exact Hb]. }
  destruct (div_sandwich_nonneg current total 0 bound Hfc Hc0 Hft Ht0
              representable_zero Rb Hq) as (Hfq & Hq0 & Hq1).
  destruct (of_Z_exact 100 ltac:(lia)) as [Hfh Hvh].
  apply mul_sandwich_nonneg; try assumption.
  - rewrite Hvh. discriminate.
  - apply representable_zero.
  - rewrite Hvh. change (inject_Z 100) with 100. split.
    + apply Qmult_le_0_compat; [exact Hq0 | discriminate].
    + rewrite (Qmult_comm 100). apply Qmult_le_compat_r; [exact Hq1 | discriminate].
Qed.

(** When no more than the total is processed, the percentage is within
    [2^-45] of the exact one. *)
Lemma percentage_error :
  value current <= value total ->
  - 2 ^ (-45) <= value x - 100 * value current / value total <= 2 ^ (-45).
Proof.
  intros Hct. subst x.
  destruct (finite_pos_cases total Hft Ht0) as (mt & et & Et).
  pose proof (pow2_pos (-1075)) as Hs.
  assert (Hs' : 2 ^ (-1075) <= 1 # 2 ^ 60).
  { change (1 # 2 ^ 60) with (2 ^ (-60)). apply pow2_le. lia. }
  change (Qmake 1 (2 ^ 60)) with (1 # 1152921504606846976) in Hs'.
  set (delta := 2 ^ (-1075)) in *.
  rewrite of_Z_hundred.
  destruct (finite_nonneg_cases current Hfc Hc0) as [[s Ec]|(mc & ec & Ec)].
  - (* nothing processed yet: every step is exact *)
    assert (Ed : div current total = S754_zero (xorb s false)).
    { rewrite Ec, Et. reflexivity. }
    rewrite Ed, Ec. cbn [mul xorb value].
    assert (E : 100 * 0 / value total == 0) by (field; lra).
    rewrite E. change (2 ^ (-45)) with (1 # 35184372088832). split; lra.
  - assert (Ha : magnitude current == value current).
    { rewrite Ec. cbn [value magnitude sign_Q]. ring. }
    assert (Hb : magnitude total == value total).
    { rewrite Et. cbn [value magnitude sign_Q]. ring. }
    assert (Ha0 : 0 < magnitude current).
    { rewrite Ec. apply magnitude_finite_pos. }
    rewrite Ec, Et in *. cbn [div xorb].
    set (a := magnitude (S754_finite false mc ec)) in *.
    set (b := magnitude (S754_finite false mt et)) in *.
    set (q0 := a / b).
    assert (Hb0 : 0 < b) by lra.
    assert (Hq0 : 0 < q0).
    { unfold q0. apply Qlt_shift_div_l; lra. }
    assert (Hq1 : q0 <= 1).
    { unfold q0. apply Qle_shift_div_r; lra. }
    assert (Eex : 100 * value (S754_finite false mc ec)
                  / value (S754_finite false mt et) == 100 * q0).
    { rewrite <- Ha, <- Hb. unfold q0. field. lra. }
    rewrite Eex.
    destruct (round_sandwich false q0 0 1 Hq0 representable_zero
                (representable_integer 1 ltac:(lia)))
      as (Hfq & [Hql Hqu] & Hvq).
    { split; lra. }
    pose proof (round_error_bound false q0 Hq0 Hfq) as [He1 He2].
    change (2 ^ (-53)) with (1 # 9007199254740992) in He1, He2.
    fold delta in He1, He2.
    set (q := round false q0) in *.
    assert (Hvq' : value q == magnitude q).
    { rewrite Hvq. cbn [sign_Q]. ring. }
    change (2 ^ (-45)) with (1 # 35184372088832).
    destruct (finite_nonneg_cases q Hfq ltac:(lra)) as [[sq Eq]|(mq & eq & Eq)].
    + (* the quotient underflows *)
      rewrite Eq in *. cbn [mul xorb value]. cbn [magnitude] in He1, He2.
      split; lra.
    + rewrite Eq in *. cbn [mul xorb].
      set (c := magnitude (S754_finite false mq eq)) in *.
      set (h := magnitude (S754_finite false 7036874417766400 (-46))).
      assert (E100 : h == 100) by reflexivity.
      assert (Hc : 0 < c) by apply magnitude_finite_pos.
      set (p0 := c * h).
      assert (Ep0 : p0 == 100 * c) by (unfold p0; rewrite E100; ring).
      assert (Hp0 : 0 < p0) by lra.
      destruct (round_sandwich false p0 0 100 Hp0 representable_zero
                  representable_hundred)
        as (Hfp & [Hpl Hpu] & Hvp).
      { split; lra. }
      pose proof (round_error_bound false p0 Hp0 Hfp) as [Hf1 Hf2].
      change (2 ^ (-53)) with (1 # 9007199254740992) in Hf1, Hf2.
      fold delta in Hf1, Hf2.
      rewrite Hvp. cbn [sign_Q]. rewrite Qmult_1_l.
      split; lra.
Qed.

End Percentage.

Local Close Scope Q_scope.

(** *** The duration text *)

Lemma formatTime_integer (t : Z) :
  - 2 ^ 52 < t < 2 ^ 52 ->
  formatTime (of_Z t)
  = (int_text (t / 3600) ++ "h " ++ int_text (t mod 3600 / 60) ++ "m "
       ++ int_text (t mod 60) ++ "s")%string.
Proof.
  intros Ht. unfold formatTime.
  pose proof (Z.div_mod t 3600 ltac:(lia)) as Edm.
  pose proof (Z.mod_pos_bound t 3600 ltac:(lia)) as Bm.
  set (h := t / 3600) in *. set (r := t mod 3600) in *.
  pose proof (Z.div_mod r 60 ltac:(lia)) as Edm2.
  pose proof (Z.mod_pos_bound r 60 ltac:(lia)) as Bm2.
  assert (Es : r mod 60 = t mod 60).
  { unfold r. apply Z.mod_mod_divide. exists 60. reflexivity. }
  set (m := r / 60) in *. rewrite <- Es.
  assert (Hx : is_int (of_Z t) t) by (apply of_Z_int; lia).
  assert (H3600 : is_int (of_Z 3600) 3600) by (apply of_Z_int; lia).
  assert (H60 : is_int (of_Z 60) 60) by (apply of_Z_int; lia).
  assert (Hh : is_int (floor (div (of_Z t) (of_Z 3600))) h).
  { apply floor_div_int; try assumption; lia. }
  set (hours := floor (div (of_Z t) (of_Z 3600))) in *.
  assert (Hhm : is_int (mul hours (of_Z 3600)) (h * 3600)).
  { apply mul_int; try assumption. lia. }
  assert (Hr : is_int (sub (of_Z t) (mul hours (of_Z 3600))) r).
  { replace r with (t - h * 3600) by lia. apply sub_int; try assumption. lia. }
  set (rest := sub (of_Z t) (mul hours (of_Z 3600))) in *.
  assert (Hm : is_int (floor (div rest (of_Z 60))) m).
  { apply floor_div_int; try assumption; lia. }
  set (minutes := floor (div rest (of_Z 60))) in *.
  assert (Hmm : is_int (mul minutes (of_Z 60)) (m * 60)).
  { apply mul_int; try assumption. lia. }
  assert (Hs : is_int (floor (sub rest (mul minutes (of_Z 60)))) (r mod 60)).
  { apply floor_int; [|lia].
    replace (r mod 60) with (r - m * 60) by lia. apply sub_int; try assumption. lia. }
  rewrite (to_string_int hours h Hh) by lia.
  rewrite (to_string_int minutes m Hm) by lia.
  rewrite (to_string_int _ (r mod 60) Hs) by lia.
  reflexivity.
Qed.

(** *** The claims on the progress text and the duration text *)

Local Open Scope string_scope.

(** C1, as stated, fails: with a total of 0 the text does not show 0.
    Five items of none are shown as [Infinity], none of none as [NaN]. *)
Lemma percentage_of_zero_total_is_not_zero :
  percentage (of_Z 5) (of_Z 0) = "Infinity" /\
  percentage (of_Z 0) (of_Z 0) = "NaN" /\
  info_innerHTML
    (updateProgressBar (of_Z 5) (of_Z 0) "verification"
       (Sample.world_with js_undefined))
  = "verification Infinity%".
Proof. repeat split; vm_compute; reflexivity. Qed.

(** C1, amended: a total of 0 (of either sign) is not guarded.  The
    division does not fail; the text shows [NaN] when the current count is 0
    or not a number, and an infinity with the sign of the quotient
    otherwise.  It never shows a numeral. *)
Theorem percentage_of_zero_total (progress : number) (s : bool)
  (text : string) (w : world) :
  info_innerHTML (updateProgressBar progress (S754_zero s) text w)
  = text ++ " "
      ++ match progress with
         | S754_nan | S754_zero _ => "NaN"
         | S754_infinity sp | S754_finite sp _ _ =>
             if xorb sp s then "-Infinity" else "Infinity"
         end
      ++ "%".
Proof.
  unfold updateProgressBar. cbn [info_innerHTML set_progressBar_max
    set_progressBar_value ipcRenderer_send set_ipc set_info_innerHTML].
  do 2 f_equal. f_equal. unfold percentage.
  destruct progress as [sp|sp| |sp m e]; cbn [div].
  - reflexivity.
  - destruct (xorb sp s); reflexivity.
  - reflexivity.
  - destruct (xorb sp s); reflexivity.
Qed.

(** The percentage is computed on binary64 numbers: 23 items of 40 are
    shown as 57, for [23 / 40 * 100] is [57.49999999999999] there. *)
Lemma percentage_is_rounded_on_binary64 :
  percentage (of_Z 23) (of_Z 40) = "57" /\
  to_string (mul (div (of_Z 23) (of_Z 40)) (of_Z 100)) = "57.49999999999999".
Proof. split; vm_compute; reflexivity. Qed.

(** C6: for counts [0 <= current], [0 < total] (with a quotient below
    [2^60]) the text shows the integer nearest to the binary64 number
    [current / total * 100], as a numeral; when [current <= total] that
    integer lies between 0 and 100 and is within [1/2 + 2^-45] of the exact
    percentage. *)
Theorem percentage_rounds (current total : number) (text : string)
  (w : world) :
  is_finite current = true -> is_finite total = true ->
  (0 <= value current)%Q -> (0 < value total)%Q ->
  (value current <= 2 ^ 60 * value total)%Q ->
  let p := nearest_integer (mul (div current total) (of_Z 100)) in
  info_innerHTML (updateProgressBar current total text w)
  = text ++ " " ++ decimal p ++ "%" /\
  ((value current <= value total)%Q ->
   (0 <= p <= 100)%Z /\
   (Qabs (inject_Z p - 100 * value current / value total)
    <= (1 # 2) + 2 ^ (-45))%Q).
Proof.
  intros Hfc Hft Hc0 Ht0 Hb p. subst p.
  set (x := mul (div current total) (of_Z 100)).
  split.
  - destruct (percentage_bounds current total Hfc Hft Hc0 Ht0 (2 ^ 60))
      as (Hf & H0 & H1).
    { exists 1%Z, 60%Z. repeat split; lia || discriminate || reflexivity. }
    { exists 25%Z, 62%Z. repeat split; lia || discriminate || reflexivity. }
    { exact Hb. }
    cbv zeta in Hf, H0, H1. fold x in Hf, H0, H1.
    unfold updateProgressBar. cbn [info_innerHTML set_progressBar_max
      set_progressBar_value ipcRenderer_send set_ipc set_info_innerHTML].
    do 2 f_equal. f_equal. unfold percentage. fold x.
    apply toFixed_0_nonneg; [exact Hf | exact H0 |].
    apply Qle_lt_trans with (100 * 2 ^ 60)%Q; [exact H1 | reflexivity].
  - intros Hct.
    destruct (percentage_bounds current total Hfc Hft Hc0 Ht0 1)
      as (Hf & H0 & H1).
    { apply (representable_integer 1). lia. }
    { apply representable_hundred. }
    { lra. }
    pose proof (percentage_error current total Hfc Hft Hc0 Ht0 Hct) as [He1 He2].
    cbv zeta in Hf, H0, H1, He1, He2. fold x in Hf, H0, H1, He1, He2.
    split.
    + apply Qfloor_half_range. change (inject_Z 100) with (100 * 1)%Q.
      split; assumption.
    + unfold nearest_integer.
      pose proof (Qfloor_le (value x + (1 # 2))) as F1.
      pose proof (Qlt_floor (value x + (1 # 2))) as F2.
      rewrite inject_Z_plus in F2. change (inject_Z 1) with 1%Q in F2.
      change (2 ^ (-45))%Q with (1 # 35184372088832)%Q in *.
      apply Qabs_Qle_condition. split; lra.
Qed.

Lemma percentage_rounds_witness :
  info_innerHTML
    (updateProgressBar (of_Z 50) (of_Z 200) "download"
       (Sample.world_with js_undefined))
  = "download 25%".
Proof.
  destruct (percentage_rounds (of_Z 50) (of_Z 200) "download"
              (Sample.world_with js_undefined)
              ltac:(reflexivity) ltac:(reflexivity)
              ltac:(vm_compute; discriminate) ltac:(vm_compute; reflexivity)
              ltac:(vm_compute; discriminate))
    as [H _].
  rewrite H. vm_compute. reflexivity.
Defined.

(** C8, as stated, fails: a negative number of seconds is formatted like
    any other. *)
Lemma formatTime_of_negative_returns :
  formatTime (of_Z (-1)) = "-1h 59m 59s".
Proof. vm_compute. reflexivity. Qed.

(** C8, amended: [formatTime] does not check the sign and does not fail.
    For a negative integer number of seconds the hours are the (negative)
    floor of the quotient by 3600, and the minutes and seconds are what is
    left, between 0 and 59. *)
Theorem formatTime_negative (time : Z) :
  (- 2 ^ 52 < time < 0)%Z ->
  formatTime (of_Z time)
  = "-" ++ decimal (- (time / 3600)) ++ "h "
      ++ decimal (time mod 3600 / 60) ++ "m "
      ++ decimal (time mod 60) ++ "s".
Proof.
  intros Ht. rewrite formatTime_integer by lia. unfold int_text.
  pose proof (Z.mod_pos_bound time 3600 ltac:(lia)) as B1.
  pose proof (Z.mod_pos_bound time 60 ltac:(lia)) as B2.
  assert (H1 : (time / 3600 < 0)%Z) by (apply Z.div_lt_upper_bound; lia).
  assert (H2 : (0 <= time mod 3600 / 60)%Z) by (apply Z.div_pos; lia).
  destruct (Z.ltb_spec (time / 3600) 0); [|lia].
  destruct (Z.ltb_spec (time mod 3600 / 60) 0); [lia|].
  destruct (Z.ltb_spec (time mod 60) 0); [lia|].
  reflexivity.
Qed.

Lemma formatTime_negative_witness :
  formatTime (of_Z (-90)) = "-1h 58m 30s".
Proof.
  rewrite (formatTime_negative (-90)) by lia. vm_compute. reflexivity.
Defined.

Lemma int_text_nonneg (k : Z) : (0 <= k)%Z -> int_text k = decimal k.
Proof.
  intros Hk. unfold int_text. destruct (Z.ltb_spec k 0); [lia | reflexivity].
Qed.

(** C9: a non-negative number of seconds (a binary64 number [M * 2^E]
    below [2^53]) is split by floor division: the hours are the floor of
    [time / 3600], the minutes the floor of what is left by 60, and the
    seconds the floor of what is left then, not rounded. *)
Theorem formatTime_splits (time : number) (M E : Z) :
  is_finite time = true -> (value time == inject_Z M * 2 ^ E)%Q ->
  (0 <= M < 2 ^ 53)%Z -> (-1074 <= E <= 0)%Z ->
  let v := value time in
  let h := Qfloor (v / 3600) in
  let m := Qfloor ((v - 3600 * inject_Z h) / 60) in
  let s := Qfloor (v - 3600 * inject_Z h - 60 * inject_Z m) in
  formatTime time
  = decimal h ++ "h " ++ decimal m ++ "m " ++ decimal s ++ "s" /\
  (0 <= h)%Z /\ (0 <= m < 60)%Z /\ (0 <= s < 60)%Z.
Proof.
  intros Hf Hv HM HE v h m s.
  pose proof (pow2_pos E) as HP.
  assert (Hv0 : (0 <= v)%Q).
  { unfold v. rewrite Hv. apply Qmult_le_0_compat; [|lra].
    change 0%Q with (inject_Z 0). rewrite <- Zle_Qle. lia. }
  assert (Hv53 : (v < 2 ^ 53)%Q).
  { unfold v. rewrite Hv. apply Qlt_le_trans with (2 ^ 53 * 2 ^ E)%Q.
    - apply Qmult_lt_compat_r; [exact HP|].
      rewrite <- inject_pow2_53, <- Zlt_Qlt. lia.
    - rewrite <- pow2_add. apply pow2_le. lia. }
  change (2 ^ 53)%Q with 9007199254740992%Q in Hv53.
  (* the hours *)
  pose proof (Qfloor_le (v / 3600)) as Hh1.
  pose proof (Qlt_floor (v / 3600)) as Hh2.
  fold h in Hh1, Hh2. rewrite inject_Z_plus in Hh2.
  change (inject_Z 1) with 1%Q in Hh2.
  assert (Ediv : (v / 3600 * 3600 == v)%Q) by (field; discriminate).
  assert (Hh0 : (0 <= h)%Z).
  { unfold h. change 0%Z with (Qfloor 0). apply Qfloor_resp_le.
    apply Qle_shift_div_l; [reflexivity | lra]. }
  assert (Hhv : (3600 * inject_Z h <= v)%Q) by lra.
  assert (Hhv' : (v - 3600 * inject_Z h < 3600)%Q) by lra.
  assert (H3600 : is_int (of_Z 3600) 3600) by (apply of_Z_int; lia).
  assert (H60 : is_int (of_Z 60) 60) by (apply of_Z_int; lia).
  assert (Hh : is_int (floor (div time (of_Z 3600))) h).
  { apply (floor_div_fraction time (of_Z 3600) M E 3600); try assumption. lia. }
  unfold formatTime.
  set (hours := floor (div time (of_Z 3600))) in *.
  assert (Hh53 : (h * 3600 < 2 ^ 53)%Z).
  { rewrite Zlt_Qlt, inject_Z_mult. change (inject_Z 3600) with 3600%Q.
    change (inject_Z (2 ^ 53)) with 9007199254740992%Q. lra. }
  assert (Hhm : is_int (mul hours (of_Z 3600)) (h * 3600)).
  { apply mul_int; try assumption. lia. }
  destruct (sub_fraction time (mul hours (of_Z 3600)) M E (h * 3600) Hf Hv HM HE Hhm)
    as (Hfr & Er & Hvr & HMr).
  { lia. }
  { rewrite inject_Z_mult. change (inject_Z 3600) with 3600%Q. fold v. lra. }
  set (rest := sub time (mul hours (of_Z 3600))) in *.
  set (M1 := (M - h * 3600 * 2 ^ (- E))%Z) in *.
  rewrite inject_Z_mult in Er. change (inject_Z 3600) with 3600%Q in Er.
  fold v in Er. rewrite (Qmult_comm (inject_Z h)) in Er.
  (* the minutes *)
  assert (Em : m = Qfloor (value rest / inject_Z 60)).
  { unfold m. apply Qfloor_comp. rewrite Er. reflexivity. }
  pose proof (Qfloor_le ((v - 3600 * inject_Z h) / 60)) as Hm1.
  pose proof (Qlt_floor ((v - 3600 * inject_Z h) / 60)) as Hm2.
  fold m in Hm1, Hm2. rewrite inject_Z_plus in Hm2.
  change (inject_Z 1) with 1%Q in Hm2.
  assert (Ediv2 : ((v - 3600 * inject_Z h) / 60 * 60 == v - 3600 * inject_Z h)%Q)
    by (field; discriminate).
  assert (Hm0 : (0 <= m < 60)%Z).
  { split.
    - unfold m. change 0%Z with (Qfloor 0). apply Qfloor_resp_le.
      apply Qle_shift_div_l; [reflexivity | lra].
    - rewrite Zlt_Qlt. change (inject_Z 60) with 60%Q. lra. }
  assert (Hm : is_int (floor (div rest (of_Z 60))) m).
  { rewrite Em.
    apply (floor_div_fraction rest (of_Z 60) M1 E 60); try assumption. lia. }
  set (minutes := floor (div rest (of_Z 60))) in *.
  assert (Hmm : is_int (mul minutes (of_Z 60)) (m * 60)).
  { apply mul_int; try assumption. lia. }
  destruct (sub_fraction rest (mul minutes (of_Z 60)) M1 E (m * 60) Hfr Hvr HMr HE Hmm)
    as (Hfs & Es & Hvs & HMs).
  { lia. }
  { rewrite inject_Z_mult. change (inject_Z 60) with 60%Q. rewrite Er. lra. }
  set (rest2 := sub rest (mul minutes (of_Z 60))) in *.
  rewrite inject_Z_mult in Es. change (inject_Z 60) with 60%Q in Es.
  rewrite Er, (Qmult_comm (inject_Z m)) in Es.
  (* the seconds *)
  assert (Hs0 : (0 <= s < 60)%Z).
  { unfold s. split.
    - change 0%Z with (Qfloor 0). apply Qfloor_resp_le. lra.
    - rewrite Zlt_Qlt. change (inject_Z 60) with 60%Q.
      apply Qle_lt_trans with (v - 3600 * inject_Z h - 60 * inject_Z m)%Q;
        [apply Qfloor_le | lra]. }
  assert (Hs : is_int (floor rest2) s).
  { destruct (floor_exact rest2 Hfs) as [Hff Hfv].
    - rewrite Es. change (2 ^ 53)%Q with 9007199254740992%Q. split; lra.
    - split; [exact Hff|]. rewrite Hfv. unfold s.
      rewrite (Qfloor_comp _ _ Es). reflexivity. }
  rewrite (to_string_int hours h Hh) by lia.
  rewrite (to_string_int minutes m Hm) by lia.
  rewrite (to_string_int (floor rest2) s Hs) by lia.
  rewrite !int_text_nonneg by lia.
  repeat split; lia.
Qed.

Lemma formatTime_splits_witness :
  formatTime (of_Z 3661) = "1h 1m 1s" /\
  formatTime (of_Z 0) = "0h 0m 0s" /\
  formatTime (div (of_Z 7325) (of_Z 2)) = "1h 1m 2s".
Proof.
  split; [|split].
  - destruct (formatTime_splits (of_Z 3661) 3661 0 eq_refl
                ltac:(vm_compute; reflexivity) ltac:(lia) ltac:(lia))
      as [H _].
    rewrite H. vm_compute. reflexivity.
  - destruct (formatTime_splits (of_Z 0) 0 0 eq_refl
                ltac:(vm_compute; reflexivity) ltac:(lia) ltac:(lia))
      as [H _].
    rewrite H. vm_compute. reflexivity.
  - destruct (formatTime_splits (div (of_Z 7325) (of_Z 2)) 7325 (-1) eq_refl
                ltac:(vm_compute; reflexivity) ltac:(lia) ltac:(lia))
      as [H _].
    rewrite H. vm_compute. reflexivity.
Defined.


(** *** Strings *)

Lemma substring_all (s : string) : substring 0 (String.length s) s = s.
Proof. induction s as [|c s IH]; cbn; [reflexivity | now rewrite IH]. Qed.

Lemma substring_suffix (a b : string) :
  substring (String.length a) (String.length b) (a ++ b) = b.
Proof. induction a as [|c a IH]; cbn; [apply substring_all | exact IH]. Qed.

Lemma substring_split (s : string) (k m : nat) :
  (k + m = String.length s)%nat -> s = substring 0 k s ++ substring k m s.
Proof.
  revert k. induction s as [|c s IH]; intros k H.
  - cbn in H. assert (k = O) by lia. assert (m = O) by lia. subst. reflexivity.
  - destruct k as [|k].
    + cbn in H. subst m. cbn [substring]. rewrite substring_all. reflexivity.
    + cbn in H. cbn [substring append]. f_equal. apply IH. lia.
Qed.

Lemma length_append (a b : string) :
  String.length (a ++ b) = (String.length a + String.length b)%nat.
Proof. induction a as [|c a IH]; cbn; [reflexivity | now rewrite IH]. Qed.

(** [endsWith] decides whether the string is some stem followed by the
    suffix. *)
Lemma endsWith_spec (s suffix : string) :
  endsWith s suffix = true <-> exists stem, s = stem ++ suffix.
Proof.
  unfold endsWith. split.
  - intros H. apply andb_true_iff in H as [Hl He].
    apply Nat.leb_le in Hl. apply String.eqb_eq in He.
    exists (substring 0 (String.length s - String.length suffix) s).
    pose proof (substring_split s (String.length s - String.length suffix)
                  (String.length suffix) ltac:(lia)) as E.
    rewrite He in E. exact E.
  - intros [stem ->]. rewrite length_append. apply andb_true_iff. split.
    + apply Nat.leb_le. lia.
    + replace (String.length stem + String.length suffix - String.length suffix)%nat
        with (String.length stem) by lia.
      rewrite substring_suffix. apply String.eqb_refl.
Qed.

Section PanelFacts.

Variable t : string -> string.
Variable path_join : list string -> string.
Variable pkg : package.
Variable dataDirectory : string.
Variable platform : string.
Variable config : launcher_config.

Local Abbreviation verifyMods := (verifyModsBeforeLaunch path_join dataDirectory platform config).
Local Abbreviation modsDir := (modsDirectory path_join dataDirectory platform config).
Local Abbreviation click := (initLaunch_click path_join pkg dataDirectory platform config).
Local Abbreviation options := (getLaunchOptions pkg dataDirectory platform config).

(** *** The mods list *)

Lemma for_each_appendChild (mods : list string) :
  forall (w : world) (el : mods_list_element),
    modsList w = Some el ->
    exists w',
      for_each mods (fun mod_ =>
        modify (appendChild {| item_classList := ["mod-item"];
                               item_textContent := mod_ |})) w
      = (Normal tt, w') /\
      modsList w'
      = Some {| mods_innerHTML := mods_innerHTML el;
                mods_children := mods_children el ++ map mod_element mods |} /\
      without_modsList w' = without_modsList w.
Proof.
  induction mods as [|name mods IH]; intros w el Hel.
  - exists w. cbn. rewrite app_nil_r. destruct el. repeat split. exact Hel.
  - cbn [for_each]. unfold bind at 1. unfold modify at 1.
    set (w1 := appendChild _ w).
    assert (H1 : modsList w1
                 = Some {| mods_innerHTML := mods_innerHTML el;
                           mods_children := mods_children el ++ [mod_element name] |}).
    { unfold w1, appendChild. rewrite Hel. reflexivity. }
    assert (H2 : without_modsList w1 = without_modsList w).
    { unfold w1, appendChild. rewrite Hel. reflexivity. }
    destruct (IH w1 _ H1) as (w' & Hrun & Hm & Hw).
    exists w'. split; [exact Hrun|]. split.
    + rewrite Hm. cbn. rewrite <- app_assoc. reflexivity.
    + rewrite Hw. exact H2.
Qed.

(** What a scan does, by what it finds. *)
Lemma verifyModsBeforeLaunch_cases (w : world) :
  match modsList w with
  | None => verifyMods w = (Normal tt, w)
  | Some _ =>
      match fs w modsDir with
      | fs_absent => verifyMods w = (Normal tt, displayEmptyModsMessage w)
      | fs_file => verifyMods w = (Throw "ENOTDIR", w)
      | fs_directory entries =>
          exists w',
            verifyMods w = (Normal tt, w') /\
            without_modsList w' = without_modsList w /\
            modsList w'
            = Some
                match filter (fun file => endsWith file ".jar") entries with
                | [] => empty_mods_element
                | mods =>
                    {| mods_innerHTML := EmptyString;
                       mods_children := map mod_element mods |}
                end
      end
  end.
Proof.
  unfold verifyModsBeforeLaunch, bind, read, existsSync, readdirSync, modify.
  destruct (modsList w) as [el|] eqn:Hel; [|reflexivity].
  destruct (fs w modsDir) as [| |entries] eqn:Hfs;
    cbn; rewrite Hfs; cbn; rewrite ?Hfs; cbn; try reflexivity.
  destruct (filter (fun file => endsWith file ".jar") entries) as [|m mods] eqn:Hf.
  - cbn. exists (displayEmptyModsMessage w). repeat split.
  - cbn [List.length Nat.eqb].
    set (w1 := set_modsList _ w).
    destruct (for_each_appendChild (m :: mods) w1
                {| mods_innerHTML := EmptyString; mods_children := [] |} eq_refl)
      as (w' & Hrun & Hm & Hw).
    exists w'. split; [exact Hrun|]. split; [rewrite Hw; reflexivity|].
    rewrite Hm. reflexivity.
Qed.


(** C7: a scan of a missing mods directory returns and puts the placeholder
    into the list element (when the page has one); a scan of an existing
    directory lists exactly the entries that end with [.jar], in the order
    of the listing, or the placeholder when there is none. *)
Theorem scan_of_mods_directory (w : world) :
  (fs w modsDir = fs_absent ->
   exists w',
     verifyMods w = (Normal tt, w') /\
     without_modsList w' = without_modsList w /\
     modsList w' = option_map (fun _ => empty_mods_element) (modsList w)) /\
  (forall entries : list string,
     fs w modsDir = fs_directory entries ->
     exists w',
       verifyMods w = (Normal tt, w') /\
       without_modsList w' = without_modsList w /\
       (modsList w <> None ->
        inventory w' = filter (fun file => endsWith file ".jar") entries /\
        (inventory w' = [] -> modsList w' = Some empty_mods_element))) /\
  (forall file : string,
     endsWith file ".jar" = true <-> exists stem, file = stem ++ ".jar").
Proof.
  pose proof (verifyModsBeforeLaunch_cases w) as H.
  split; [|split].
  - intros Hfs. destruct (modsList w) as [el|] eqn:Hel.
    + rewrite Hfs in H. exists (displayEmptyModsMessage w).
      repeat split. exact H.
    + exists w. repeat split; assumption.
  - intros entries Hfs. destruct (modsList w) as [el|] eqn:Hel.
    + rewrite Hfs in H. destruct H as (w' & Hrun & Hw & Hm).
      exists w'. split; [exact Hrun|]. split; [exact Hw|]. intros _.
      unfold inventory. rewrite Hm.
      destruct (filter (fun file => endsWith file ".jar") entries) as [|m mods].
      * split; reflexivity.
      * cbn [mods_children]. rewrite map_map. cbn [mod_element item_textContent].
        rewrite map_id. split; [reflexivity | discriminate].
    + exists w. split; [exact H|]. split; [reflexivity|]. intros C. now elim C.
  - intros file. apply endsWith_spec.
Qed.

(** *** Starting a launch *)

Lemma without_modsList_fields (w w' : world) :
  without_modsList w' = without_modsList w ->
  db w' = db w /\ engine_runs w' = engine_runs w /\
  listeners w' = listeners w /\ view_of w' = view_of w /\ ipc w' = ipc w.
Proof.
  intros H.
  pose proof (f_equal db H) as H1. pose proof (f_equal engine_runs H) as H2.
  pose proof (f_equal listeners H) as H3. pose proof (f_equal view_of H) as H4.
  pose proof (f_equal ipc H) as H5.
  repeat split; assumption.
Qed.

Lemma verifyModsBeforeLaunch_returns (w : world) :
  modsList w = None \/ fs w modsDir <> fs_file ->
  exists w',
    verifyMods w = (Normal tt, w') /\
    without_modsList w' = without_modsList w.
Proof.
  intros Hpre. pose proof (verifyModsBeforeLaunch_cases w) as H.
  destruct (modsList w) as [el|] eqn:Hel.
  - destruct Hpre as [Hn|Hnf]; [discriminate|].
    destruct (fs w modsDir) as [| |entries].
    + exists (displayEmptyModsMessage w). split; [exact H | reflexivity].
    + now elim Hnf.
    + destruct H as (w' & Hrun & Hw & _). exists w'. split; assumption.
  - exists w. split; [exact H | reflexivity].
Qed.

(** [getLaunchOptions] only reads: it returns when the settings are
    complete and throws otherwise. *)
Lemma getLaunchOptions_cases (w : world) :
  (complete (db w) = true /\
   exists opts ls,
     options w = (Normal opts, w) /\ launcher (db w) = Some ls /\
     opt_detached opts
     = (if strict_equal_string (launcher_close ls) "close-all"
        then false else true)) \/
  (complete (db w) = false /\ options w = (Throw "TypeError", w)).
Proof.
  unfold getLaunchOptions, complete, bind, get, ret.
  destruct (accounts_selected (db w)) as [uuid|]; [|right; split; reflexivity].
  destruct (accounts (db w) uuid) as [account|]; [|right; split; reflexivity].
  destruct (ram (db w)) as [r|]; [|right; split; reflexivity].
  destruct (java_path (db w)) as [jp|]; [|right; split; reflexivity].
  destruct (java_args (db w)) as [ja|]; [|right; split; reflexivity].
  destruct (screen (db w)) as [sc|]; [|right; split; reflexivity].
  destruct (launcher (db w)) as [ls|]; [|right; split; reflexivity].
  left. split; [reflexivity|]. eexists. exists ls. repeat split.
Qed.

(** The options that are returned, from the records that were read. *)
Lemma getLaunchOptions_returns (w w' : world) (opts : launch_options) :
  options w = (Normal opts, w') ->
  exists uuid account r ls,
    accounts_selected (db w) = Some uuid /\
    accounts (db w) uuid = Some account /\
    ram (db w) = Some r /\ launcher (db w) = Some ls /\
    opt_authenticator opts = account /\
    opt_path opts
    = dataDirectory ++ "/" ++ launcher_directory platform config /\
    opt_memory_min opts = to_string (mul (ramMin r) (of_Z 1024)) ++ "M" /\
    opt_memory_max opts = to_string (mul (ramMax r) (of_Z 1024)) ++ "M".
Proof.
  unfold getLaunchOptions, bind, get, ret.
  destruct (accounts_selected (db w)) as [uuid|] eqn:E1; [|discriminate].
  destruct (accounts (db w) uuid) as [account|] eqn:E2; [|discriminate].
  destruct (ram (db w)) as [r|] eqn:E3; [|discriminate].
  destruct (java_path (db w)) as [jp|]; [|discriminate].
  destruct (java_args (db w)) as [ja|]; [|discriminate].
  destruct (screen (db w)) as [sc|]; [|discriminate].
  destruct (launcher (db w)) as [ls|] eqn:E4; [|discriminate].
  intros H. injection H as <- _. exists uuid, account, r, ls.
  repeat split; assumption.
Qed.

Lemma getLaunchOptions_db (w w' : world) :
  db w' = db w -> fst (options w') = fst (options w).
Proof.
  intros H. unfold getLaunchOptions, bind, get, ret. rewrite H.
  destruct (accounts_selected (db w)) as [uuid|]; [|reflexivity].
  cbn. rewrite ?H.
  destruct (accounts (db w) uuid) as [account|]; [|reflexivity].
  cbn. rewrite ?H.
  destruct (ram (db w)) as [r|]; [|reflexivity].
  cbn. rewrite ?H.
  destruct (java_path (db w)) as [jp|]; [|reflexivity].
  cbn. rewrite ?H.
  destruct (java_args (db w)) as [ja|]; [|reflexivity].
  cbn. rewrite ?H.
  destruct (screen (db w)) as [sc|]; [|reflexivity].
  cbn. rewrite ?H.
  destruct (launcher (db w)) as [ls|]; reflexivity.
Qed.

(** What a click does, once the scan of the mods has returned. *)
Lemma click_after_scan (w w1 : world) :
  verifyMods w = (Normal tt, w1) -> db w1 = db w ->
  (complete (db w) = true /\
   exists opts ls,
     fst (options w) = Normal opts /\ launcher (db w) = Some ls /\
     click w
     = (Normal tt,
        setupLaunchListeners ls
          (Launch opts
             (set_info_display "block" (set_playBtn_display "none" w1))))) \/
  (complete (db w) = false /\ click w = (Throw "TypeError", w1)).
Proof.
  intros Hrun Hdb.
  pose proof (getLaunchOptions_db w w1 Hdb) as Ho.
  assert (E : click w
              = match options w1 with
                | (Normal opts, w2) =>
                    match launcher (db w2) with
                    | Some ls =>
                        (Normal tt,
                         setupLaunchListeners ls
                           (Launch opts
                              (set_info_display "block"
                                 (set_playBtn_display "none" w2))))
                    | None =>
                        (Throw "TypeError",
                         Launch opts
                           (set_info_display "block"
                              (set_playBtn_display "none" w2)))
                    end
                | (Throw e, w2) => (Throw e, w2)
                end).
  { unfold initLaunch_click, bind at 1. rewrite Hrun. unfold bind at 1.
    destruct (options w1) as [[opts|e] w2]; [|reflexivity].
    unfold bind, modify, get.
    cbn [db setupLaunchListeners Launch set_listeners set_engine_runs
         set_info_display set_playBtn_display].
    destruct (launcher (db w2)); reflexivity. }
  rewrite E.
  destruct (getLaunchOptions_cases w1) as [(Hc & opts & ls & Hopts & Hls & _)|[Hc Hopts]];
    rewrite Hdb in Hc; rewrite Hopts in Ho; cbn [fst] in Ho; rewrite Hopts.
  - left. split; [exact Hc|]. exists opts, ls.
    rewrite Hls. rewrite Hdb in Hls.
    split; [symmetry; exact Ho|]. split; [exact Hls | reflexivity].
  - right. split; [exact Hc | reflexivity].
Qed.

(** *** The engine's events *)

Lemma listeners_listener (ls : launcher_settings) (ev : engine_event)
  (w : world) :
  listeners (listener t ls ev w) = listeners w.
Proof.
  destruct ev; try reflexivity.
  - unfold listener, handleLaunchData.
    destruct (strict_equal_string (launcher_close ls) "close-launcher");
      reflexivity.
  - unfold listener, handleLaunchClose.
    destruct (strict_equal_string (launcher_close ls) "close-launcher");
      reflexivity.
Qed.

Lemma listeners_fold (ev : engine_event) (l : list launcher_settings) :
  forall w,
    listeners (fold_left (fun w ls => listener t ls ev w) l w) = listeners w.
Proof.
  induction l as [|ls l IH]; intros w; cbn [fold_left]; [reflexivity|].
  rewrite IH. apply listeners_listener.
Qed.

Lemma listeners_emit (ev : engine_event) (w : world) :
  listeners (emit t ev w) = listeners w.
Proof. apply listeners_fold. Qed.

Lemma listeners_emit_all (evs : list engine_event) :
  forall w, listeners (emit_all t evs w) = listeners w.
Proof.
  induction evs as [|ev evs IH]; intros w; cbn [emit_all]; [reflexivity|].
  rewrite IH. apply listeners_emit.
Qed.

Lemma handleLaunchClose_effect (code : number) (ls : launcher_settings)
  (w : world) :
  view_of (handleLaunchClose t code ls w) = idle_view t /\
  ipc (handleLaunchClose t code ls w) = (ipc w ++ close_signal ls)%list.
Proof.
  unfold handleLaunchClose, close_signal.
  destruct (strict_equal_string (launcher_close ls) "close-launcher");
    split; try reflexivity.
  cbn. now rewrite app_nil_r.
Qed.

Lemma close_fold (code : number) (l : list launcher_settings) :
  forall w,
    ipc (fold_left (fun w ls => listener t ls (ev_close code) w) l w)
    = (ipc w ++ flat_map close_signal l)%list.
Proof.
  induction l as [|ls l IH]; intros w; cbn [fold_left flat_map].
  - now rewrite app_nil_r.
  - rewrite IH. cbn [listener].
    rewrite (proj2 (handleLaunchClose_effect code ls w)).
    now rewrite app_assoc.
Qed.

(** Every close listener sends its own signal; the last one leaves the
    idle view. *)
Lemma emit_close (code : number) (w : world) :
  ipc (emit t (ev_close code) w)
  = (ipc w ++ flat_map close_signal (listeners w))%list /\
  (listeners w <> [] -> view_of (emit t (ev_close code) w) = idle_view t).
Proof.
  split; [apply close_fold|].
  intros Hne. unfold emit.
  destruct (exists_last Hne) as (l & ls & ->).
  rewrite fold_left_app. cbn [fold_left listener].
  apply handleLaunchClose_effect.
Qed.


(** Only the close listener touches the launch control. *)
Lemma playBtn_display_emit (ev : engine_event) :
  (forall code, ev <> ev_close code) ->
  forall w, playBtn_display (emit t ev w) = playBtn_display w.
Proof.
  intros Hev w. unfold emit. generalize (listeners w). intros l. revert w.
  induction l as [|ls l IH]; intros w; cbn [fold_left]; [reflexivity|].
  rewrite IH. destruct ev; try reflexivity.
  - unfold listener, handleLaunchData.
    destruct (strict_equal_string (launcher_close ls) "close-launcher");
      reflexivity.
  - now elim (Hev code).
Qed.

(** C2, amended: the click listener has no guard against an active session
    and never rejects a click for that reason.  Whenever the scan of the
    mods returns and the settings hold the seven records that the options
    are made of, a click starts an engine run with the options resolved
    then, registers one more set of listeners, hides the launch control and
    shows the info text; the launch control stays hidden until a close
    event, which leaves the idle view, and a click after that starts a run
    in the same way.  When a record is missing, the click throws a
    [TypeError] once the mods are scanned: no run is started, no listener is
    registered and the launch control stays as it was. *)
Theorem click_starts_engine_run (w : world) :
  modsList w = None \/ fs w modsDir <> fs_file ->
  (complete (db w) = true ->
   exists w' opts ls,
     click w = (Normal tt, w') /\
     fst (options w) = Normal opts /\
     launcher (db w) = Some ls /\
     engine_runs w' = (engine_runs w ++ [opts])%list /\
     listeners w' = (listeners w ++ [ls])%list /\
     playBtn_display w' = "none" /\
     info_display w' = "block" /\
     (forall ev, (forall code, ev <> ev_close code) ->
        playBtn_display (emit t ev w') = "none") /\
     (forall code, view_of (emit t (ev_close code) w') = idle_view t)) /\
  (complete (db w) = false ->
   exists w',
     click w = (Throw "TypeError", w') /\
     without_modsList w' = without_modsList w /\
     engine_runs w' = engine_runs w /\
     listeners w' = listeners w /\
     view_of w' = view_of w).
Proof.
  intros Hpre.
  destruct (verifyModsBeforeLaunch_returns w Hpre) as (w1 & Hrun & Hw).
  destruct (without_modsList_fields w w1 Hw) as (Hdb & Hruns & Hls & Hview & _).
  destruct (click_after_scan w w1 Hrun Hdb)
    as [(Hc & opts & ls & Hopts & Hl & Hclick)|[Hc Hclick]]; split;
    intros Hc'; try congruence.
  - eexists. exists opts, ls. split; [exact Hclick|].
    split; [exact Hopts|]. split; [exact Hl|].
    cbn [engine_runs listeners playBtn_display info_display
         setupLaunchListeners Launch set_listeners set_engine_runs
         set_info_display set_playBtn_display].
    rewrite Hruns, Hls. repeat split.
    + intros ev Hev. rewrite (playBtn_display_emit ev Hev). reflexivity.
    + intros code. apply emit_close.
      cbn [listeners setupLaunchListeners set_listeners].
      intros E. apply app_eq_nil in E as [_ E]. discriminate.
  - exists w1. repeat split; assumption.
Qed.

(** With one set of listeners, as in the first session, the close event
    leaves the idle view whatever came before, and shows the window once
    exactly when the close behaviour is ['close-launcher']. *)
Lemma close_with_one_registration (ls : launcher_settings)
  (evs : list engine_event) (code : number) (w : world) :
  listeners w = [ls] ->
  let w1 := emit_all t evs w in
  let w2 := emit t (ev_close code) w1 in
  view_of w2 = idle_view t /\
  ipc w2
  = (ipc w1
     ++ if strict_equal_string (launcher_close ls) "close-launcher"
        then [main_window_show] else [])%list.
Proof.
  intros Hls w1 w2.
  assert (H1 : listeners w1 = [ls]).
  { unfold w1. rewrite listeners_emit_all. exact Hls. }
  destruct (emit_close code w1) as [Hipc Hview]. split.
  - apply Hview. rewrite H1. discriminate.
  - unfold w2. rewrite Hipc, H1. cbn [flat_map]. now rewrite app_nil_r.
Qed.

(** C5: the error listener prints the error and touches nothing else: the
    launch control, the info text and the progress bar stay as they are and
    nothing is sent to the host window.  No event but close shows the launch
    control again, and the close event that follows leaves the idle view. *)
Theorem error_leaves_the_view (err : payload) (w : world) :
  let w' := emit t (ev_error err) w in
  view_of w' = view_of w /\
  ipc w' = ipc w /\
  console w' = (console w ++ repeat err (List.length (listeners w)))%list /\
  (forall ev : engine_event,
     (forall code, ev <> ev_close code) ->
     playBtn_display (emit t ev w') = playBtn_display w) /\
  (forall code : number,
     listeners w <> [] -> view_of (emit t (ev_close code) w') = idle_view t).
Proof.
  intros w'.
  assert (H : forall l w0,
             let w1 := fold_left (fun w ls => listener t ls (ev_error err) w) l w0 in
             view_of w1 = view_of w0 /\ ipc w1 = ipc w0 /\
             console w1 = (console w0 ++ repeat err (List.length l))%list).
  { induction l as [|ls l IH]; intros w0; cbn [fold_left].
    - cbn. rewrite app_nil_r. repeat split.
    - destruct (IH (listener t ls (ev_error err) w0)) as (H1 & H2 & H3).
      cbv zeta. rewrite H1, H2, H3. cbn [listener console_log console set_console
        List.length repeat]. rewrite <- app_assoc. repeat split. }
  destruct (H (listeners w) w) as (H1 & H2 & H3).
  split; [exact H1|]. split; [exact H2|]. split; [exact H3|]. split.
  - intros ev Hev. rewrite (playBtn_display_emit ev Hev).
    exact (f_equal view_playBtn_display H1).
  - intros code Hne. apply emit_close. unfold w'. rewrite listeners_emit.
    exact Hne.
Qed.

(** What [initStatusServer] makes of a reply. *)
Lemma initStatusServer_reply (serverPing : status_reply) (w : world) :
  initStatusServer t (fulfilled serverPing) w
  = (Normal tt,
     if negb (truthy (reply_error serverPing)) then
       set_playersCount (reply_playersConnect serverPing)
         (set_onlineIndicator (classList_remove "offline" (onlineIndicator w))
            (set_statusText (t "server_online") w))
     else
       set_playersCount "0"
         (set_onlineIndicator (classList_add "offline" (onlineIndicator w))
            (set_statusText (t "server_unavailable") w))).
Proof.
  unfold initStatusServer, await, bind, ret, modify.
  destruct (truthy (reply_error serverPing)); reflexivity.
Qed.


(** C10: the options are detached unless the close behaviour is
    ['close-all']. *)
Theorem detached_unless_close_all (w w' : world) (opts : launch_options) :
  options w = (Normal opts, w') ->
  exists ls : launcher_settings,
    launcher (db w) = Some ls /\
    (opt_detached opts = false
     <-> launcher_close ls = js_string "close-all") /\
    (opt_detached opts = true
     <-> launcher_close ls <> js_string "close-all").
Proof.
  intros Hopts.
  destruct (getLaunchOptions_cases w) as [(_ & o & ls & Ho & Hls & Hd)|[_ Ho]];
    rewrite Ho in Hopts; [|discriminate Hopts].
  injection Hopts as <- _. exists ls. split; [exact Hls|]. rewrite Hd.
  destruct (launcher_close ls) as [| |b|n|s|p]; cbn;
    try (split; split; intros H; congruence).
  destruct (String.eqb_spec s "close-all") as [->|Hne].
  - split; split; intros H; congruence.
  - split; split; intros H; try congruence.
Qed.

End PanelFacts.

Lemma scan_of_mods_directory_witness :
  modsList (snd (verifyModsBeforeLaunch Sample.path_join "/home/user" "linux"
                   Sample.config (Sample.world_with js_undefined)))
  = Some empty_mods_element.
Proof.
  destruct (proj1 (scan_of_mods_directory Sample.path_join "/home/user" "linux"
                     Sample.config (Sample.world_with js_undefined)) eq_refl)
    as (w' & Hrun & _ & Hm).
  rewrite Hrun. exact Hm.
Defined.

Lemma click_starts_engine_run_witness :
  let click :=
    initLaunch_click Sample.path_join Sample.pkg "/home/user" "linux"
      Sample.config in
  (exists w',
     click (Sample.world_with js_undefined) = (Normal tt, w') /\
     List.length (engine_runs w') = 1%nat) /\
  (exists w',
     click (Session.with_ram None (Sample.world_with js_undefined))
     = (Throw "TypeError", w') /\
     engine_runs w' = [] /\ playBtn_display w' = "block").
Proof.
  intros click. split.
  - destruct (click_starts_engine_run Sample.t Sample.path_join Sample.pkg
                "/home/user" "linux" Sample.config
                (Sample.world_with js_undefined)) as [H _].
    { right. discriminate. }
    destruct (H eq_refl) as (w' & opts & ls & Hrun & _ & _ & Hruns & _).
    exists w'. split; [exact Hrun|]. rewrite Hruns. reflexivity.
  - destruct (click_starts_engine_run Sample.t Sample.path_join Sample.pkg
                "/home/user" "linux" Sample.config
                (Session.with_ram None (Sample.world_with js_undefined)))
      as [_ H].
    { right. discriminate. }
    destruct (H eq_refl) as (w' & Hrun & _ & Hruns & _ & Hview).
    exists w'. split; [exact Hrun|]. rewrite Hruns.
    split; [reflexivity|]. exact (f_equal view_playBtn_display Hview).
Defined.

(** C2, as stated, fails: a click while a session is active is not
    rejected, and starts a second engine run. *)
Lemma second_click_starts_second_run :
  let click :=
    initLaunch_click Sample.path_join Sample.pkg "/home/user" "linux"
      Sample.config in
  let w1 := snd (click (Sample.world_with js_undefined)) in
  fst (click (Sample.world_with js_undefined)) = Normal tt /\
  playBtn_display w1 = "none" /\
  fst (click w1) = Normal tt /\
  List.length (engine_runs (snd (click w1))) = 2%nat.
Proof. vm_compute. repeat split. Qed.

(** C3 on the code: the listeners are put on the one [launch] object of the
    module at every click and never removed, so the close event of the
    second session runs two close listeners and shows the window twice,
    where the first session showed it once. *)
Lemma close_of_second_session_shows_window_twice :
  let close := Sample.engine_emits (ev_close (of_Z 0)) in
  let w1 := Sample.click (Sample.world_with (js_string "close-launcher")) in
  let w3 := Sample.click (close w1) in
  ipc (close w1) = (ipc w1 ++ [main_window_show])%list /\
  List.length (listeners w3) = 2%nat /\
  ipc (close w3) = (ipc w3 ++ [main_window_show; main_window_show])%list /\
  view_of (close w3) = idle_view Sample.t.
Proof. vm_compute. repeat split. Qed.

Lemma error_leaves_the_view_witness :
  let w := Sample.click (Sample.world_with js_undefined) in
  view_of (Sample.engine_emits (ev_close (of_Z 1))
             (Sample.engine_emits (ev_error "Error: spawn java ENOENT") w))
  = idle_view Sample.t.
Proof.
  intros w.
  apply (proj2 (proj2 (proj2 (proj2
           (error_leaves_the_view Sample.t "Error: spawn java ENOENT" w))))).
  discriminate.
Defined.



Lemma detached_unless_close_all_witness :
  exists opts,
    fst (getLaunchOptions Sample.pkg "/home/user" "linux" Sample.config
           (Sample.world_with (js_string "close-all")))
    = Normal opts /\
    opt_detached opts = false.
Proof.
  destruct (getLaunchOptions Sample.pkg "/home/user" "linux" Sample.config
              (Sample.world_with (js_string "close-all")))
    as [[opts|e] w'] eqn:E.
  - exists opts. split; [reflexivity|].
    destruct (detached_unless_close_all Sample.pkg "/home/user" "linux"
                Sample.config _ _ _ E) as (ls & Hls & Hfalse & _).
    apply Hfalse. injection Hls as <-. reflexivity.
  - vm_compute in E. discriminate E.
Defined.

End HomeFacts.

(** ** Facts about strings *)
Module TextFacts.
Import JSNum.

Local Open Scope string_scope.

Lemma append_assoc (a b c : string) : (a ++ b) ++ c = a ++ b ++ c.
Proof. induction a as [|x a IH]; cbn; [reflexivity | now rewrite IH]. Qed.

Lemma length_substring (s : string) :
  forall n m, (n + m <= String.length s)%nat ->
    String.length (substring n m s) = m.
Proof.
  induction s as [|c s IH]; intros n m H.
  - cbn in H. assert (n = O) by lia. assert (m = O) by lia. subst. reflexivity.
  - destruct n as [|n].
    + destruct m as [|m]; [reflexivity|]. cbn [substring String.length].
      f_equal. apply (IH O m). cbn in H. lia.
    + cbn [substring]. apply IH. cbn in H. lia.
Qed.

Lemma length_zeros (n : nat) : String.length (zeros n) = n.
Proof. induction n as [|n IH]; cbn; [reflexivity | now rewrite IH]. Qed.

End TextFacts.

(** ** The order of JavaScript numbers *)
Module JSNumOrder.
Import JSNum JSNumFacts.

Local Open Scope Q_scope.

Lemma Qlog2_monotone (x y : Q) : 0 < x -> x <= y -> (Qlog2 x <= Qlog2 y)%Z.
Proof.
  intros Hx Hxy.
  destruct (Qlog2_spec x Hx) as [Hl _].
  destruct (Qlog2_spec y ltac:(lra)) as [_ Hu].
  destruct (Z_le_gt_dec (Qlog2 x) (Qlog2 y)) as [H|H]; [exact H|].
  exfalso. pose proof (pow2_le (Qlog2 y + 1) (Qlog2 x) ltac:(lia)). lra.
Qed.

Lemma rne_monotone (a b : Q) : a <= b -> (rne a <= rne b)%Z.
Proof.
  intros Hab.
  pose proof (Qfloor_resp_le a b Hab) as Hf.
  destruct (Z.eq_dec (Qfloor a) (Qfloor b)) as [E|E].
  - unfold rne. rewrite E.
    destruct (Qcompare_spec (a - inject_Z (Qfloor b)) (1 # 2)) as [Ha|Ha|Ha];
      destruct (Qcompare_spec (b - inject_Z (Qfloor b)) (1 # 2)) as [Hb|Hb|Hb];
      try destruct (Z.even (Qfloor b)); try lia; exfalso; lra.
  - apply Z.le_trans with (Qfloor b).
    + apply Z.le_trans with (Qfloor a + 1)%Z; [|lia].
      unfold rne. destruct (a - inject_Z (Qfloor a) ?= 1 # 2);
        try destruct (Z.even (Qfloor a)); lia.
    + apply rne_lower. apply Qfloor_le.
Qed.

(** Rounding keeps the order, below the overflow. *)
Lemma round_monotone (s : bool) (x y hi : Q) :
  0 < x -> x <= y -> y <= hi -> representable hi ->
  magnitude (round s x) <= magnitude (round s y).
Proof.
  intros Hx Hxy Hyh Hhi.
  assert (Hy : 0 < y) by lra.
  assert (R0 : representable 0) by (apply (representable_integer 0); lia).
  destruct (round_sandwich s x 0 hi Hx R0 Hhi ltac:(split; lra)) as (Hfx & _ & _).
  destruct (round_sandwich s y 0 hi Hy R0 Hhi ltac:(split; lra)) as (Hfy & _ & _).
  pose proof (Qlog2_monotone x y Hx Hxy) as Hl.
  destruct (Z.eq_dec (Z.max (Qlog2 x - 52) (-1074)) (Z.max (Qlog2 y - 52) (-1074)))
    as [E|E].
  - rewrite (round_magnitude s x Hx Hfx), (round_magnitude s y Hy Hfy), E.
    set (e := Z.max (Qlog2 y - 52) (-1074)).
    pose proof (pow2_pos e) as Hp.
    apply Qmult_le_compat_r; [|lra].
    rewrite <- Zle_Qle. apply rne_monotone.
    apply Qmult_le_compat_r; [exact Hxy|].
    apply Qlt_le_weak, Qinv_lt_0_compat, Hp.
  - destruct (Qlog2_spec x Hx) as [_ Hxu].
    destruct (Qlog2_spec y Hy) as [Hyl _].
    pose proof (representable_lt_overflow hi Hhi) as Hov.
    assert (Hly : (Qlog2 y < 1024)%Z).
    { destruct (Z_lt_ge_dec (Qlog2 y) 1024) as [H|H]; [exact H|].
      exfalso. pose proof (pow2_le 1024 (Qlog2 y) ltac:(lia)). lra. }
    assert (Rp : representable (2 ^ Qlog2 y)).
    { exists (2 ^ 52)%Z, (Qlog2 y - 52)%Z. split; [lia|]. split; [lia|].
      rewrite inject_pow2_52, <- pow2_add.
      replace (52 + (Qlog2 y - 52))%Z with (Qlog2 y) by ring. reflexivity. }
    assert (Hxp : x <= 2 ^ Qlog2 y).
    { pose proof (pow2_le (Qlog2 x + 1) (Qlog2 y) ltac:(lia)). lra. }
    destruct (round_sandwich s x 0 (2 ^ Qlog2 y) Hx R0 Rp ltac:(split; lra))
      as (_ & [_ H1] & _).
    destruct (round_sandwich s y (2 ^ Qlog2 y) hi Hy Rp Hhi ltac:(split; lra))
      as (_ & [H2 _] & _).
    lra.
Qed.

Lemma magnitude_value_nonneg (x : number) :
  0 <= value x -> magnitude x == value x.
Proof.
  destruct x as [| | |[] m e]; cbn [magnitude value sign_Q]; intros H;
    try reflexivity; [|ring].
  exfalso. pose proof (magnitude_finite_pos true m e) as Hp.
  cbn [magnitude] in Hp. lra.
Qed.

(** The quotient by a positive number keeps the order. *)
Lemma div_monotone (a b y : number) (hi : Q) :
  is_finite a = true -> is_finite b = true -> is_finite y = true ->
  0 <= value a -> value a <= value b -> 0 < value y ->
  representable hi -> value b <= hi * value y ->
  value (div a y) <= value (div b y).
Proof.
  intros Hfa Hfb Hfy Ha Hab Hy Hhi Hb.
  assert (R0 : representable 0) by (apply (representable_integer 0); lia).
  assert (Hqb : 0 <= value b / value y <= hi).
  { split; [apply Qle_shift_div_l | apply Qle_shift_div_r]; lra. }
  destruct (div_sandwich_nonneg b y 0 hi Hfb ltac:(lra) Hfy Hy R0 Hhi Hqb)
    as (_ & Hb0 & _).
  destruct (finite_pos_cases y Hfy Hy) as (my & ey & ->).
  destruct (finite_nonneg_cases a Hfa Ha) as [[sa ->]|(ma & ea & ->)].
  - cbn [div value]. exact Hb0.
  - assert (Ha0 : 0 < value (S754_finite false ma ea)).
    { rewrite <- magnitude_value_nonneg by exact Ha. apply magnitude_finite_pos. }
    destruct (finite_pos_cases b Hfb ltac:(lra)) as (mb & eb & ->).
    cbn [div xorb].
    set (A := S754_finite false ma ea) in *.
    set (B := S754_finite false mb eb) in *.
    set (Y := S754_finite false my ey) in *.
    assert (EA : magnitude A == value A) by (apply magnitude_value_nonneg; lra).
    assert (EB : magnitude B == value B) by (apply magnitude_value_nonneg; lra).
    assert (EY : magnitude Y == value Y) by (apply magnitude_value_nonneg; lra).
    assert (Hq1 : 0 < magnitude A / magnitude Y).
    { apply Qlt_shift_div_l; lra. }
    assert (Hq2 : magnitude A / magnitude Y <= magnitude B / magnitude Y).
    { apply Qmult_le_compat_r; [lra|].
      apply Qlt_le_weak, Qinv_lt_0_compat. lra. }
    assert (Hq3 : magnitude B / magnitude Y <= hi).
    { rewrite EB, EY. apply Qle_shift_div_r; lra. }
    pose proof (round_monotone false _ _ hi Hq1 Hq2 Hq3 Hhi) as Hm.
    destruct (round_sandwich false _ 0 hi Hq1 R0 Hhi ltac:(split; lra))
      as (_ & _ & Hv1).
    destruct (round_sandwich false (magnitude B / magnitude Y) 0 hi
                ltac:(lra) R0 Hhi ltac:(split; lra)) as (_ & _ & Hv2).
    rewrite Hv1, Hv2. cbn [sign_Q]. lra.
Qed.

(** The product by a number that is not negative keeps the order. *)
Lemma mul_monotone (a b y : number) (hi : Q) :
  is_finite a = true -> is_finite b = true -> is_finite y = true ->
  0 <= value a -> value a <= value b -> 0 < value y ->
  representable hi -> value b * value y <= hi ->
  value (mul a y) <= value (mul b y).
Proof.
  intros Hfa Hfb Hfy Ha Hab Hy Hhi Hb.
  assert (R0 : representable 0) by (apply (representable_integer 0); lia).
  assert (Hpb : 0 <= value b * value y <= hi).
  { split; [apply Qmult_le_0_compat; lra | exact Hb]. }
  destruct (mul_sandwich_nonneg b y 0 hi Hfb ltac:(lra) Hfy ltac:(lra) R0 Hhi Hpb)
    as (_ & Hb0 & _).
  destruct (finite_pos_cases y Hfy Hy) as (my & ey & ->).
  destruct (finite_nonneg_cases a Hfa Ha) as [[sa ->]|(ma & ea & ->)].
  - cbn [mul value]. exact Hb0.
  - assert (Ha0 : 0 < value (S754_finite false ma ea)).
    { rewrite <- magnitude_value_nonneg by exact Ha. apply magnitude_finite_pos. }
    destruct (finite_pos_cases b Hfb ltac:(lra)) as (mb & eb & ->).
    cbn [mul xorb].
    set (A := S754_finite false ma ea) in *.
    set (B := S754_finite false mb eb) in *.
    set (Y := S754_finite false my ey) in *.
    assert (EA : magnitude A == value A) by (apply magnitude_value_nonneg; lra).
    assert (EB : magnitude B == value B) by (apply magnitude_value_nonneg; lra).
    assert (EY : magnitude Y == value Y) by (apply magnitude_value_nonneg; lra).
    assert (Hq1 : 0 < magnitude A * magnitude Y).
    { apply Qmult_lt_0_compat; lra. }
    assert (Hq2 : magnitude A * magnitude Y <= magnitude B * magnitude Y).
    { apply Qmult_le_compat_r; lra. }
    assert (Hq3 : magnitude B * magnitude Y <= hi).
    { rewrite EB, EY. exact Hb. }
    pose proof (round_monotone false _ _ hi Hq1 Hq2 Hq3 Hhi) as Hm.
    destruct (round_sandwich false _ 0 hi Hq1 R0 Hhi ltac:(split; lra))
      as (_ & _ & Hv1).
    destruct (round_sandwich false (magnitude B * magnitude Y) 0 hi
                ltac:(lra) R0 Hhi ltac:(split; lra)) as (_ & _ & Hv2).
    rewrite Hv1, Hv2. cbn [sign_Q]. lra.
Qed.

End JSNumOrder.

(** ** More on the progress percentage *)
Module PercentageFacts.
Import JSNum JSStr Home JSNumFacts HomeFacts JSNumOrder.

Local Open Scope string_scope.

Lemma representable_pow2_60 : representable (2 ^ 60).
Proof. exists 1%Z, 60%Z. repeat split; lia || discriminate || reflexivity. Qed.

Lemma representable_hundred_pow2_60 : representable (100 * 2 ^ 60).
Proof. exists 25%Z, 62%Z. repeat split; lia || discriminate || reflexivity. Qed.

(** The percentage of counts [0 <= current], [0 < total] is the numeral of
    the nearest integer. *)
Lemma percentage_numeral (current total : number) :
  is_finite current = true -> is_finite total = true ->
  (0 <= value current)%Q -> (0 < value total)%Q ->
  (value current <= 2 ^ 60 * value total)%Q ->
  percentage current total
  = decimal (nearest_integer (mul (div current total) (of_Z 100))) /\
  (0 <= nearest_integer (mul (div current total) (of_Z 100)))%Z.
Proof.
  intros Hfc Hft Hc0 Ht0 Hb.
  destruct (percentage_bounds current total Hfc Hft Hc0 Ht0 (2 ^ 60)
              representable_pow2_60 representable_hundred_pow2_60 Hb)
    as (Hf & H0 & H1).
  cbv zeta in Hf, H0, H1. split.
  - unfold percentage. apply toFixed_0_nonneg; [exact Hf | exact H0 |].
    apply Qle_lt_trans with (100 * 2 ^ 60)%Q; [exact H1 | reflexivity].
  - unfold nearest_integer.
    apply (Qfloor_half_range _ (Qceiling (100 * 2 ^ 60))). split; [exact H0|].
    apply Qle_trans with (100 * 2 ^ 60)%Q; [exact H1 | apply Qle_ceiling].
Qed.

(** X1: for one total, a larger count never shows a smaller percentage. *)
Theorem percentage_never_decreases (current later total : number) :
  is_finite current = true -> is_finite later = true ->
  is_finite total = true ->
  (0 <= value current)%Q -> (value current <= value later)%Q ->
  (0 < value total)%Q -> (value later <= 2 ^ 60 * value total)%Q ->
  let shown (c : number) := nearest_integer (mul (div c total) (of_Z 100)) in
  percentage current total = decimal (shown current) /\
  percentage later total = decimal (shown later) /\
  (0 <= shown current <= shown later)%Z.
Proof.
  intros Hfc Hfl Hft Hc0 Hcl Ht0 Hb shown.
  assert (Hbc : (value current <= 2 ^ 60 * value total)%Q) by lra.
  destruct (percentage_numeral current total Hfc Hft Hc0 Ht0 Hbc) as [E1 P1].
  destruct (percentage_numeral later total Hfl Hft ltac:(lra) Ht0 Hb) as [E2 _].
  split; [exact E1|]. split; [exact E2|]. split; [exact P1|].
  unfold shown, nearest_integer. apply Qfloor_resp_le.
  apply Qplus_le_l.
  assert (R0 : representable 0) by (apply (representable_integer 0); lia).
  assert (Hq : forall c, is_finite c = true -> (0 <= value c)%Q ->
                 (value c <= 2 ^ 60 * value total)%Q ->
                 is_finite (div c total) = true /\
                 (0 <= value (div c total) <= 2 ^ 60)%Q).
  { intros c Hf H0 H1.
    apply (div_sandwich_nonneg c total 0 (2 ^ 60) Hf H0 Hft Ht0 R0
             representable_pow2_60).
    split; [apply Qle_shift_div_l | apply Qle_shift_div_r]; lra. }
  destruct (Hq current Hfc Hc0 Hbc) as (Hfq1 & Hq10 & _).
  destruct (Hq later Hfl ltac:(lra) Hb) as (Hfq2 & _ & Hq21).
  destruct (of_Z_exact 100 ltac:(lia)) as [Hfh Hvh].
  apply (mul_monotone _ _ _ (100 * 2 ^ 60)); try assumption.
  - apply (div_monotone _ _ _ (2 ^ 60)); try assumption.
    apply representable_pow2_60.
  - rewrite Hvh. reflexivity.
  - apply representable_hundred_pow2_60.
  - rewrite Hvh. change (inject_Z 100) with 100%Q.
    change (2 ^ 60)%Q with 1152921504606846976%Q in *. lra.
Qed.

Lemma percentage_never_decreases_witness :
  percentage (of_Z 1) (of_Z 3) = "33" /\ percentage (of_Z 2) (of_Z 3) = "67".
Proof.
  destruct (percentage_never_decreases (of_Z 1) (of_Z 2) (of_Z 3)
              eq_refl eq_refl eq_refl
              ltac:(vm_compute; discriminate) ltac:(vm_compute; discriminate)
              ltac:(vm_compute; reflexivity) ltac:(vm_compute; discriminate))
    as (H1 & H2 & _).
  rewrite H1, H2. split; vm_compute; reflexivity.
Defined.

(** X2: with a positive total, nothing processed is shown as 0 and all of
    it as 100. *)
Theorem percentage_at_both_ends (total : number) (s : bool) :
  is_finite total = true -> (0 < value total)%Q ->
  percentage (S754_zero s) total = "0" /\ percentage total total = "100".
Proof.
  intros Hft Ht0. split.
  - destruct (finite_pos_cases total Hft Ht0) as (m & e & ->).
    destruct s; reflexivity.
  - assert (R1 : representable 1) by (apply (representable_integer 1); lia).
    assert (Hq : (1 <= value total / value total <= 1)%Q).
    { assert (E : (value total / value total == 1)%Q) by (field; lra).
      rewrite E. split; apply Qle_refl. }
    destruct (div_sandwich_nonneg total total 1 1 Hft ltac:(lra) Hft Ht0 R1 R1 Hq)
      as (Hfq & Hq1 & Hq2).
    assert (Eq : (value (div total total) == 1)%Q) by lra.
    destruct (of_Z_exact 100 ltac:(lia)) as [Hfh Hvh].
    assert (Ep : (value (div total total) * value (of_Z 100) == inject_Z 100)%Q).
    { rewrite Eq, Hvh. ring. }
    destruct (mul_exact (div total total) (of_Z 100) Hfq Hfh) as [Hfm Hvm].
    { apply (representable_abs_integer 100); [exact Ep | lia]. }
    unfold percentage. rewrite toFixed_0_nonneg.
    + rewrite (Qfloor_between _ 100); [reflexivity | |];
        rewrite Hvm, Ep; reflexivity || discriminate.
    + exact Hfm.
    + rewrite Hvm, Ep. discriminate.
    + rewrite Hvm, Ep. reflexivity.
Qed.

Lemma percentage_at_both_ends_witness :
  percentage (of_Z 0) (of_Z 7) = "0" /\ percentage (of_Z 7) (of_Z 7) = "100".
Proof.
  apply (percentage_at_both_ends (of_Z 7) false);
    [reflexivity | vm_compute; reflexivity].
Defined.

End PercentageFacts.

(** ** Facts about launch sessions and the server status *)
Module SessionFacts.
Import JSNum JSStr Home Session JSNumFacts HomeFacts.

Local Open Scope string_scope.

(** A world is its [.mods-list] element and the rest. *)
Lemma world_by_modsList (a b : world) :
  without_modsList a = without_modsList b -> modsList a = modsList b -> a = b.
Proof.
  destruct a, b. unfold without_modsList, set_modsList. cbn.
  intros H1 H2. injection H1. intros. subst. reflexivity.
Qed.

Section SessionRun.

Variable t : string -> string.
Variable path_join : list string -> string.
Variable pkg : package.
Variable dataDirectory : string.
Variable platform : string.
Variable config : launcher_config.

Local Abbreviation verifyMods := (verifyModsBeforeLaunch path_join dataDirectory platform config).
Local Abbreviation modsDir := (modsDirectory path_join dataDirectory platform config).
Local Abbreviation click := (initLaunch_click path_join pkg dataDirectory platform config).
Local Abbreviation options := (getLaunchOptions pkg dataDirectory platform config).
Local Abbreviation cases := (verifyModsBeforeLaunch_cases path_join dataDirectory platform config).

(** X3: a second scan changes nothing: the list is rebuilt, not extended. *)
Theorem scan_is_idempotent (w : world) :
  let w1 := snd (verifyMods w) in
  verifyMods w1 = (fst (verifyMods w), w1).
Proof.
  intros w1. subst w1. pose proof (cases w) as H.
  destruct (modsList w) as [el|] eqn:Hel.
  - destruct (fs w modsDir) as [| |entries] eqn:Hfs.
    + rewrite H. cbn [fst snd].
      pose proof (cases (displayEmptyModsMessage w)) as H1.
      cbn [modsList displayEmptyModsMessage set_modsList fs] in H1.
      rewrite Hfs in H1. exact H1.
    + rewrite H. cbn [fst snd]. rewrite H. reflexivity.
    + destruct H as (w' & Hrun & Hw & Hm). rewrite Hrun. cbn [fst snd].
      pose proof (cases w') as H1. rewrite Hm in H1.
      assert (Hfs' : fs w' = fs w) by exact (f_equal fs Hw).
      rewrite Hfs', Hfs in H1. destruct H1 as (w'' & Hrun' & Hw' & Hm').
      rewrite Hrun'. f_equal. apply world_by_modsList; [exact Hw'|].
      rewrite Hm', Hm. reflexivity.
  - rewrite H. cbn [fst snd]. rewrite H. reflexivity.
Qed.

(** X4: with a file where the mods directory should be, the scan throws and
    the click does nothing. *)
Theorem click_with_a_file_for_mods_directory (w : world) :
  modsList w <> None -> fs w modsDir = fs_file ->
  click w = (Throw "ENOTDIR", w).
Proof.
  intros Hel Hfs. pose proof (cases w) as H.
  destruct (modsList w) as [el|]; [|now elim Hel].
  rewrite Hfs in H. unfold initLaunch_click, bind at 1. rewrite H. reflexivity.
Qed.

(** *** What the listeners keep *)

Lemma listener_keeps (ls : launcher_settings) (ev : engine_event) (w : world) :
  let w' := listener t ls ev w in
  fs w' = fs w /\ modsList w' = modsList w /\ db w' = db w /\
  engine_runs w' = engine_runs w /\ listeners w' = listeners w.
Proof.
  destruct ev; cbn; repeat split;
    unfold handleLaunchData, handleLaunchClose;
    destruct (strict_equal_string (launcher_close ls) "close-launcher");
    reflexivity.
Qed.

Lemma emit_keeps (ev : engine_event) (w : world) :
  let w' := emit t ev w in
  fs w' = fs w /\ modsList w' = modsList w /\ db w' = db w /\
  engine_runs w' = engine_runs w /\ listeners w' = listeners w.
Proof.
  unfold emit. generalize (listeners w) at 1 2 3 4 5. intros l. revert w.
  induction l as [|ls l IH]; intros w; cbn [fold_left]; [repeat split|].
  destruct (IH (listener t ls ev w)) as (H1 & H2 & H3 & H4 & H5).
  destruct (listener_keeps ls ev w) as (K1 & K2 & K3 & K4 & K5).
  cbv zeta in *. rewrite H1, H2, H3, H4, H5. repeat split; assumption.
Qed.

(** *** Sessions *)

Lemma after_keeps (h : happening) (w : world) :
  modsList w = None \/ fs w modsDir <> fs_file ->
  let w1 := after t path_join pkg dataDirectory platform config w h in
  (modsList w1 = None \/ fs w1 modsDir <> fs_file) /\
  db w1 = db w /\
  (complete (db w) = true ->
   exists opts ls,
     fst (options w) = Normal opts /\ launcher (db w) = Some ls /\
     listeners w1 = (listeners w ++ repeat ls (clicks [h]))%list /\
     engine_runs w1 = (engine_runs w ++ repeat opts (clicks [h]))%list) /\
  (complete (db w) = false ->
   listeners w1 = listeners w /\ engine_runs w1 = engine_runs w).
Proof.
  intros Hpre. destruct h as [|ev]; cbn [after]; cbv zeta.
  - destruct (verifyModsBeforeLaunch_returns path_join dataDirectory platform
                config w Hpre) as (w1 & Hrun & Hw).
    destruct (without_modsList_fields w w1 Hw) as (Hdb & Hruns & Hls & _ & _).
    assert (Hfs : fs w1 = fs w) by exact (f_equal fs Hw).
    assert (Hnone : modsList w = None -> modsList w1 = None).
    { intros Hn. pose proof (cases w) as H. rewrite Hn in H.
      rewrite H in Hrun. injection Hrun as <-. exact Hn. }
    destruct (click_after_scan path_join pkg dataDirectory platform config
                w w1 Hrun Hdb)
      as [(Hc & opts & ls & Hopts & Hl & Hclick)|[Hc Hclick]];
      rewrite Hclick; cbn [snd];
      cbn [engine_runs listeners db fs modsList
           setupLaunchListeners Launch set_listeners set_engine_runs
           set_info_display set_playBtn_display];
      rewrite ?Hfs, ?Hruns, ?Hls.
    + split; [destruct Hpre as [Hn|Hf]; [left; auto | right; exact Hf]|].
      split; [exact Hdb|]. split; [|congruence].
      intros _. exists opts, ls. repeat split; assumption.
    + split; [destruct Hpre as [Hn|Hf]; [left; auto | right; exact Hf]|].
      split; [exact Hdb|]. split; [congruence|].
      intros _. split; reflexivity.
  - destruct (emit_keeps ev w) as (Hfs & Hm & Hdb & Hruns & Hls).
    cbv zeta in Hfs, Hm, Hdb, Hruns, Hls. rewrite Hfs, Hm, Hdb, Hruns, Hls.
    split; [exact Hpre|]. split; [reflexivity|]. split.
    + intros Hc.
      destruct (getLaunchOptions_cases pkg dataDirectory platform config w)
        as [(_ & opts & ls & Ho & Hl & _)|[Hc' _]]; [|congruence].
      exists opts, ls. rewrite Ho. cbn [fst clicks filter List.length repeat].
      rewrite !app_nil_r. repeat split. exact Hl.
    + intros _. split; reflexivity.
Qed.

(** X5: nothing removes a registration or changes the settings.  When the
    settings hold the records that the options are made of, the emitter
    holds one more set of listeners, and the engine was started once more,
    for every click among any clicks and engine events; when a record is
    missing, every click throws and none registers or starts anything. *)
Theorem every_click_registers_listeners (l : list happening) (w : world) :
  modsList w = None \/ fs w modsDir <> fs_file ->
  let w' := run t path_join pkg dataDirectory platform config l w in
  (complete (db w) = true ->
   exists opts ls,
     fst (options w) = Normal opts /\ launcher (db w) = Some ls /\
     listeners w' = (listeners w ++ repeat ls (clicks l))%list /\
     engine_runs w' = (engine_runs w ++ repeat opts (clicks l))%list) /\
  (complete (db w) = false ->
   listeners w' = listeners w /\ engine_runs w' = engine_runs w).
Proof.
  revert w. induction l as [|h l IH]; intros w Hpre; cbv zeta.
  - split.
    + intros Hc.
      destruct (getLaunchOptions_cases pkg dataDirectory platform config w)
        as [(_ & opts & ls & Ho & Hl & _)|[Hc' _]]; [|congruence].
      exists opts, ls. rewrite Ho. cbn. rewrite !app_nil_r.
      repeat split. exact Hl.
    + intros _. split; reflexivity.
  - change (run t path_join pkg dataDirectory platform config (h :: l) w)
      with (run t path_join pkg dataDirectory platform config l
              (after t path_join pkg dataDirectory platform config w h)).
    destruct (after_keeps h w Hpre) as (Hpre1 & Hdb & Hyes & Hno).
    cbv zeta in Hpre1, Hdb, Hyes, Hno.
    set (w1 := after t path_join pkg dataDirectory platform config w h) in *.
    destruct (IH w1 Hpre1) as [IHyes IHno]. cbv zeta in IHyes, IHno.
    assert (Hcl : clicks (h :: l) = (clicks [h] + clicks l)%nat).
    { unfold clicks. destruct h; reflexivity. }
    pose proof (getLaunchOptions_db pkg dataDirectory platform config w w1 Hdb)
      as Ho.
    split.
    + intros Hc. destruct (Hyes Hc) as (opts & ls & Hopts & Hl & H1 & H2).
      destruct IHyes as (opts' & ls' & Hopts' & Hl' & H1' & H2').
      { rewrite Hdb. exact Hc. }
      assert (opts' = opts) by congruence.
      assert (ls' = ls) by congruence. subst opts' ls'.
      exists opts, ls. split; [exact Hopts|]. split; [exact Hl|].
      rewrite H1', H2', H1, H2, Hcl, !repeat_app, <- !app_assoc.
      split; reflexivity.
    + intros Hc. destruct (Hno Hc) as [H1 H2].
      destruct IHno as [H1' H2']; [rewrite Hdb; exact Hc|].
      rewrite H1', H2', H1, H2. split; reflexivity.
Qed.

(** *** The host window *)

Lemma handleLaunchData_ipc (e : payload) (ls : launcher_settings) (w : world) :
  ipc (handleLaunchData t e ls w) = (ipc w ++ data_signal ls)%list.
Proof.
  unfold handleLaunchData, data_signal.
  destruct (strict_equal_string (launcher_close ls) "close-launcher"); cbn.
  - now rewrite <- app_assoc.
  - reflexivity.
Qed.

Lemma data_fold (e : payload) (l : list launcher_settings) :
  forall w,
    ipc (fold_left (fun w ls => listener t ls (ev_data e) w) l w)
    = (ipc w ++ flat_map data_signal l)%list.
Proof.
  induction l as [|ls l IH]; intros w; cbn [fold_left flat_map].
  - now rewrite app_nil_r.
  - rewrite IH. cbn [listener]. rewrite handleLaunchData_ipc.
    now rewrite app_assoc.
Qed.

Lemma hidden_flat_map (l : list launcher_settings) :
  List.length (filter is_hide (flat_map data_signal l))
  = List.length (filter hides_window l) /\
  List.length (filter is_show (flat_map data_signal l)) = 0%nat.
Proof.
  induction l as [|ls l [IH1 IH2]]; [split; reflexivity|].
  cbn [flat_map]. rewrite !filter_app, !length_app, IH1, IH2.
  unfold data_signal, hides_window. cbn [filter].
  destruct (strict_equal_string (launcher_close ls) "close-launcher");
    split; reflexivity.
Qed.

Lemma shown_flat_map (l : list launcher_settings) :
  List.length (filter is_show (flat_map close_signal l))
  = List.length (filter hides_window l) /\
  List.length (filter is_hide (flat_map close_signal l)) = 0%nat.
Proof.
  induction l as [|ls l [IH1 IH2]]; [split; reflexivity|].
  cbn [flat_map]. rewrite !filter_app, !length_app, IH1, IH2.
  unfold close_signal, hides_window. cbn [filter].
  destruct (strict_equal_string (launcher_close ls) "close-launcher");
    split; reflexivity.
Qed.

(** X6: from the game's first output to its end, the window is shown as
    often as it was hidden: once for every registration made with the
    close behaviour ['close-launcher']. *)
Theorem window_shown_as_often_as_hidden (e : payload) (code : number)
  (w : world) :
  let w' := emit t (ev_close code) (emit t (ev_data e) w) in
  let sent :=
    (flat_map data_signal (listeners w)
     ++ flat_map close_signal (listeners w))%list in
  ipc w' = (ipc w ++ sent)%list /\
  List.length (filter is_hide sent)
  = List.length (filter hides_window (listeners w)) /\
  List.length (filter is_show sent)
  = List.length (filter hides_window (listeners w)).
Proof.
  intros w' sent. split.
  - unfold w'. rewrite (proj1 (emit_close t code _)).
    destruct (emit_keeps (ev_data e) w) as (_ & _ & _ & _ & Hls).
    cbv zeta in Hls. rewrite Hls. unfold emit at 1. rewrite data_fold.
    unfold sent. now rewrite app_assoc.
  - unfold sent. rewrite !filter_app, !length_app.
    destruct (hidden_flat_map (listeners w)) as [H1 H2].
    destruct (shown_flat_map (listeners w)) as [H3 H4].
    rewrite H1, H2, H3, H4. split; lia.
Qed.

(** *** Events that are printed, and progress *)

(** X7: the extract, estimated, speed and error events are printed, once by
    every registration, and change nothing else. *)
Theorem printed_events_change_the_console_only (ev : engine_event)
  (w : world) :
  printed_only ev = true ->
  let w' := emit t ev w in
  without_console w' = without_console w /\
  List.length (console w')
  = (List.length (console w) + List.length (listeners w))%nat.
Proof.
  intros Hev. cbv zeta. unfold emit. generalize (listeners w). intros l.
  revert w. induction l as [|ls l IH]; intros w; cbn [fold_left List.length].
  - split; [reflexivity | lia].
  - destruct (IH (listener t ls ev w)) as [H1 H2]. rewrite H1, H2.
    destruct ev; try discriminate Hev; cbn [listener];
      unfold console_log; cbn [console set_console]; rewrite length_app;
      cbn [List.length]; (split; [reflexivity | lia]).
Qed.

Lemma updateProgressBar_fold (progress size : number) (text : string)
  (l : list launcher_settings) :
  forall w,
    l <> [] ->
    let w' := fold_left (fun w _ => updateProgressBar progress size text w) l w in
    progressBar_display w' = "block" /\
    progressBar_value w' = progress /\
    progressBar_max w' = size /\
    info_innerHTML w' = text ++ " " ++ percentage progress size ++ "%" /\
    ipc w'
    = (ipc w ++ repeat (main_window_progress progress size) (List.length l))%list /\
    without_progress w' = without_progress w.
Proof.
  induction l as [|ls l IH]; intros w Hne; [now elim Hne|].
  cbn [fold_left]. destruct l as [|ls' l].
  - cbn. repeat split.
  - destruct (IH (updateProgressBar progress size text w) ltac:(discriminate))
      as (H1 & H2 & H3 & H4 & H5 & H6).
    cbv zeta in *. rewrite H1, H2, H3, H4, H5, H6.
    repeat split. cbn [updateProgressBar ipc ipcRenderer_send set_ipc
      set_progressBar_max set_progressBar_value set_info_innerHTML
      set_progressBar_display].
    rewrite <- app_assoc. reflexivity.
Qed.

(** X8: a progress or check event shows the progress bar with the counts of
    the event and the label of its kind, tells the host window once by
    registration, and leaves the launch control and the visibility of the
    info text alone. *)
Theorem progress_events_show_the_bar (progress size : number) (w : world) :
  listeners w <> [] ->
  forall (ev : engine_event) (label : string),
    (ev = ev_progress progress size /\ label = t "download") \/
    (ev = ev_check progress size /\ label = t "verification") ->
    let w' := emit t ev w in
    progressBar_display w' = "block" /\
    progressBar_value w' = progress /\
    progressBar_max w' = size /\
    info_innerHTML w' = label ++ " " ++ percentage progress size ++ "%" /\
    ipc w'
    = (ipc w ++ repeat (main_window_progress progress size)
                  (List.length (listeners w)))%list /\
    without_progress w' = without_progress w.
Proof.
  intros Hne ev label [ [-> ->] | [-> ->] ]; unfold emit; cbn [listener];
    apply updateProgressBar_fold; exact Hne.
Qed.

(** *** The server status *)

Lemma classList_remove_spec (c : string) (l : list string) (c' : string) :
  In c' (classList_remove c l) <-> In c' l /\ c' <> c.
Proof.
  unfold classList_remove. rewrite filter_In. split; intros [H1 H2]; split; auto.
  - apply negb_true_iff in H2. apply String.eqb_neq in H2. congruence.
  - apply negb_true_iff. apply String.eqb_neq. congruence.
Qed.

Lemma classList_add_spec (c : string) (l : list string) (c' : string) :
  In c' (classList_add c l) <-> In c' l \/ c' = c.
Proof.
  unfold classList_add. destruct (existsb (String.eqb c) l) eqn:E.
  - split; [auto|]. intros [H | ->]; [exact H|].
    apply existsb_exists in E as (x & Hx & Hq).
    apply String.eqb_eq in Hq. now subst x.
  - rewrite in_app_iff. cbn. split; intros [H|H]; auto.
    + destruct H as [H|[]]; auto.
Qed.

Lemma existsb_eqb_In (c : string) (l : list string) :
  existsb (String.eqb c) l = true <-> In c l.
Proof.
  rewrite existsb_exists. split.
  - intros (x & Hx & Hq). apply String.eqb_eq in Hq. now subst x.
  - intros H. exists c. split; [exact H | apply String.eqb_refl].
Qed.

(** X9: when the reply carries no error, the panel shows the server as
    reachable with the player count of the reply; the other classes of the
    indicator stay. *)
Theorem good_status_check_shows_online (serverPing : status_reply)
  (w : world) :
  truthy (reply_error serverPing) = false ->
  exists w',
    initStatusServer t (fulfilled serverPing) w = (Normal tt, w') /\
    shown_status w'
    = {| reachable := true; playerCount := reply_playersConnect serverPing |} /\
    statusText w' = t "server_online" /\
    (forall c,
       In c (onlineIndicator w') <-> In c (onlineIndicator w) /\ c <> "offline").
Proof.
  intros Herr. eexists. split; [apply initStatusServer_reply|].
  rewrite Herr. cbn [negb].
  cbn [statusText set_playersCount set_onlineIndicator set_statusText
       onlineIndicator]. split; [|split; [reflexivity|]].
  - unfold shown_status. cbn [onlineIndicator playersCount set_playersCount
      set_onlineIndicator set_statusText]. f_equal.
    apply negb_true_iff. apply not_true_is_false. intros H.
    apply existsb_eqb_In in H. apply classList_remove_spec in H. now destruct H.
  - intros c. apply classList_remove_spec.
Qed.

(** X10: the status shown is that of the last reply: an earlier poll,
    whether it was answered or rejected, leaves no trace in the text, in
    the player count or in the classes of the indicator. *)
Theorem last_status_reply_wins (first : settled status_reply)
  (last : status_reply) (w : world) :
  let w1 :=
    snd (initStatusServer t (fulfilled last)
           (snd (initStatusServer t first w))) in
  let w2 := snd (initStatusServer t (fulfilled last) w) in
  statusText w1 = statusText w2 /\
  playersCount w1 = playersCount w2 /\
  (forall c, In c (onlineIndicator w1) <-> In c (onlineIndicator w2)) /\
  shown_status w1 = shown_status w2 /\
  set_onlineIndicator [] w1 = set_onlineIndicator [] w2.
Proof.
  intros w1 w2.
  assert (Hc : forall c, In c (onlineIndicator w1) <-> In c (onlineIndicator w2)).
  { intros c. unfold w1, w2. destruct first as [first|reason].
    - rewrite !initStatusServer_reply. cbn [snd].
      destruct (truthy (reply_error last)), (truthy (reply_error first));
        cbn [negb onlineIndicator set_playersCount set_onlineIndicator
             set_statusText];
        rewrite ?classList_remove_spec, ?classList_add_spec,
          ?classList_remove_spec, ?classList_add_spec;
        destruct (string_dec c "offline"); tauto.
    - reflexivity. }
  assert (Hrest : statusText w1 = statusText w2 /\
                  playersCount w1 = playersCount w2 /\
                  set_onlineIndicator [] w1 = set_onlineIndicator [] w2).
  { unfold w1, w2. destruct first as [first|reason].
    - rewrite !initStatusServer_reply. cbn [snd].
      destruct (truthy (reply_error last)), (truthy (reply_error first));
        cbn; repeat split.
    - repeat split. }
  destruct Hrest as (H1 & H2 & H3).
  repeat split; try assumption; try apply Hc.
  unfold shown_status. rewrite H2. f_equal. f_equal.
  apply eq_true_iff_eq. rewrite !existsb_eqb_In. apply Hc.
Qed.

Lemma classList_add_twice (c : string) (l : list string) :
  classList_add c (classList_add c l) = classList_add c l.
Proof.
  assert (H : existsb (String.eqb c) (classList_add c l) = true).
  { apply existsb_eqb_In. apply classList_add_spec. now right. }
  unfold classList_add at 1. rewrite H. reflexivity.
Qed.

Lemma classList_remove_twice (c : string) (l : list string) :
  classList_remove c (classList_remove c l) = classList_remove c l.
Proof.
  unfold classList_remove. induction l as [|x l IH]; [reflexivity|].
  cbn [filter]. destruct (negb (c =? x)) eqn:E; [|exact IH].
  cbn [filter]. rewrite E, IH. reflexivity.
Qed.

(** X11: a poll handled twice leaves the panel as the first handling left
    it: the class [offline] is not put twice on the indicator. *)
Theorem status_reply_handled_twice (poll : settled status_reply) (w : world) :
  initStatusServer t poll (snd (initStatusServer t poll w))
  = initStatusServer t poll w.
Proof.
  destruct poll as [serverPing|reason]; [|reflexivity].
  rewrite !initStatusServer_reply. cbn [snd]. f_equal.
  destruct (truthy (reply_error serverPing));
    cbn [negb onlineIndicator set_playersCount set_onlineIndicator
         set_statusText];
    rewrite ?classList_add_twice, ?classList_remove_twice; reflexivity.
Qed.

Lemma handleLaunchData_fold (e : payload) (l : list launcher_settings) :
  forall w,
    l <> [] ->
    let w' := fold_left (fun w ls => handleLaunchData t e ls w) l w in
    view_of w'
    = {| view_playBtn_display := playBtn_display w;
         view_info_display := info_display w;
         view_info_innerHTML := t "starting";
         view_progressBar_display := "none" |} /\
    console w' = (console w ++ repeat e (List.length l))%list /\
    loggers w'
    = (loggers w ++ repeat ("Minecraft", "#36b030") (List.length l))%list.
Proof.
  assert (H1 : forall ls w,
             view_of (handleLaunchData t e ls w)
             = {| view_playBtn_display := playBtn_display w;
                  view_info_display := info_display w;
                  view_info_innerHTML := t "starting";
                  view_progressBar_display := "none" |} /\
             console (handleLaunchData t e ls w) = (console w ++ [e])%list /\
             loggers (handleLaunchData t e ls w)
             = (loggers w ++ [("Minecraft", "#36b030")])%list /\
             playBtn_display (handleLaunchData t e ls w) = playBtn_display w /\
             info_display (handleLaunchData t e ls w) = info_display w).
  { intros ls w. unfold handleLaunchData.
    destruct (strict_equal_string (launcher_close ls) "close-launcher");
      repeat split. }
  induction l as [|ls l IH]; intros w Hne; [now elim Hne|].
  cbn [fold_left]. destruct (H1 ls w) as (V & C & L & P & I).
  destruct l as [|ls' l].
  - cbn [fold_left List.length repeat]. repeat split; assumption.
  - destruct (IH (handleLaunchData t e ls w) ltac:(discriminate))
      as (V' & C' & L').
    cbv zeta in *. rewrite V', C', L', P, I, C, L.
    change (List.length (ls :: ls' :: l)) with (S (List.length (ls' :: l))).
    cbn [repeat]. rewrite <- !app_assoc. repeat split.
Qed.

(** X12: the game's first output hides the progress bar and puts the
    starting label into the info text, whatever progress was shown; the
    launch control and the visibility of the info text stay, and every
    registration prints the output and makes a logger. *)
Theorem data_event_hides_the_bar (e : payload) (w : world) :
  listeners w <> [] ->
  let w' := emit t (ev_data e) w in
  view_of w'
  = {| view_playBtn_display := playBtn_display w;
       view_info_display := info_display w;
       view_info_innerHTML := t "starting";
       view_progressBar_display := "none" |} /\
  console w' = (console w ++ repeat e (List.length (listeners w)))%list /\
  loggers w'
  = (loggers w
     ++ repeat ("Minecraft", "#36b030") (List.length (listeners w)))%list.
Proof.
  intros Hne. unfold emit. cbn [listener].
  apply handleLaunchData_fold. exact Hne.
Qed.

End SessionRun.

Lemma click_with_a_file_for_mods_directory_witness :
  let w := with_disk (fun _ => fs_file) (Home.Sample.world_with js_undefined) in
  initLaunch_click Home.Sample.path_join Home.Sample.pkg "/home/user" "linux"
    Home.Sample.config w
  = (Throw "ENOTDIR", w).
Proof.
  intros w.
  apply (click_with_a_file_for_mods_directory Home.Sample.path_join
           Home.Sample.pkg "/home/user" "linux" Home.Sample.config w).
  - discriminate.
  - reflexivity.
Defined.

Lemma every_click_registers_listeners_witness :
  let happenings :=
    [user_click; engine_event_of (ev_close (of_Z 0)); user_click] in
  let w := Home.Sample.world_with (js_string "close-launcher") in
  let go :=
    run Home.Sample.t Home.Sample.path_join Home.Sample.pkg "/home/user"
      "linux" Home.Sample.config happenings in
  List.length (listeners (go w)) = 2%nat /\
  List.length (engine_runs (go w)) = 2%nat /\
  listeners (go (with_ram None w)) = [] /\
  engine_runs (go (with_ram None w)) = [].
Proof.
  intros happenings w go.
  destruct (every_click_registers_listeners Home.Sample.t Home.Sample.path_join
              Home.Sample.pkg "/home/user" "linux" Home.Sample.config
              happenings w) as [H _].
  { right. discriminate. }
  destruct (H eq_refl) as (opts & ls & _ & _ & H1 & H2).
  destruct (every_click_registers_listeners Home.Sample.t Home.Sample.path_join
              Home.Sample.pkg "/home/user" "linux" Home.Sample.config
              happenings (with_ram None w)) as [_ H'].
  { right. discriminate. }
  destruct (H' eq_refl) as [H3 H4].
  unfold go. rewrite H1, H2, H3, H4. repeat split.
Defined.

Lemma printed_events_change_the_console_only_witness :
  let w := Home.Sample.click (Home.Sample.world_with js_undefined) in
  List.length
    (console (Home.Sample.engine_emits (ev_estimated (of_Z 3661)) w))
  = 1%nat.
Proof.
  intros w.
  destruct (printed_events_change_the_console_only Home.Sample.t
              (ev_estimated (of_Z 3661)) w eq_refl) as [_ H].
  unfold Home.Sample.engine_emits. rewrite H. reflexivity.
Defined.

Lemma progress_events_show_the_bar_witness :
  let w := Home.Sample.click (Home.Sample.world_with js_undefined) in
  info_innerHTML
    (Home.Sample.engine_emits (ev_check (of_Z 10) (of_Z 100)) w)
  = "verification 10%".
Proof.
  intros w.
  destruct (progress_events_show_the_bar Home.Sample.t (of_Z 10) (of_Z 100) w
              ltac:(discriminate) (ev_check (of_Z 10) (of_Z 100))
              (Home.Sample.t "verification")
              (or_intror (conj eq_refl eq_refl)))
    as (_ & _ & _ & H & _).
  unfold Home.Sample.engine_emits. rewrite H. vm_compute. reflexivity.
Defined.

Lemma good_status_check_shows_online_witness :
  let reply := {| reply_error := js_undefined; reply_playersConnect := "12" |} in
  shown_status
    (snd (initStatusServer Home.Sample.t (fulfilled reply)
            (Home.Sample.world_with js_undefined)))
  = {| reachable := true; playerCount := "12" |}.
Proof.
  intros reply.
  destruct (good_status_check_shows_online Home.Sample.t reply
              (Home.Sample.world_with js_undefined) eq_refl)
    as (w' & Hrun & Hs & _).
  rewrite Hrun. exact Hs.
Defined.

Lemma data_event_hides_the_bar_witness :
  let w := Home.Sample.click (Home.Sample.world_with js_undefined) in
  view_progressBar_display
    (view_of
       (Home.Sample.engine_emits (ev_data "Setting user: Steve")
          (Home.Sample.engine_emits (ev_progress (of_Z 50) (of_Z 200)) w)))
  = "none".
Proof.
  intros w.
  destruct (data_event_hides_the_bar Home.Sample.t "Setting user: Steve"
              (Home.Sample.engine_emits (ev_progress (of_Z 50) (of_Z 200)) w)
              ltac:(discriminate)) as [H _].
  unfold Home.Sample.engine_emits at 1. rewrite H. reflexivity.
Defined.

End SessionFacts.

(** ** Facts about the launch options *)
Module OptionsFacts.
Import JSNum JSStr Home Session JSNumFacts HomeFacts TextFacts.

Local Open Scope string_scope.

(** X13: the base URL is the settings URL, a slash if it does not end with
    one, and the path of the files. *)
Theorem base_url_ends_in_the_files_path (pkg : package) :
  exists root,
    getBaseUrl pkg
    = root ++ (if strict_equal_string (pkg_env pkg) "azuriom"
               then "api/centralcorp/files" else "data/") /\
    endsWith root "/" = true /\
    (root = settings_url pkg \/
     endsWith (settings_url pkg) "/" = false /\ root = settings_url pkg ++ "/").
Proof.
  unfold getBaseUrl.
  destruct (endsWith (settings_url pkg) "/") eqn:E.
  - exists (settings_url pkg). split; [|split; [exact E | now left]].
    destruct (strict_equal_string (pkg_env pkg) "azuriom"); reflexivity.
  - exists (settings_url pkg ++ "/"). split; [|split].
    + destruct (strict_equal_string (pkg_env pkg) "azuriom"); reflexivity.
    + apply endsWith_spec. now exists (settings_url pkg).
    + right. split; reflexivity.
Qed.

(** X14: a slash at the end of the settings URL makes no difference. *)
Theorem base_url_ignores_final_slash (pkg pkg' : package) :
  pkg_env pkg' = pkg_env pkg ->
  endsWith (settings_url pkg) "/" = false ->
  settings_url pkg' = settings_url pkg ++ "/" ->
  getBaseUrl pkg' = getBaseUrl pkg.
Proof.
  intros Henv Hno Hs. unfold getBaseUrl. rewrite Henv, Hs, Hno.
  assert (E : endsWith (settings_url pkg ++ "/") "/" = true).
  { apply endsWith_spec. now exists (settings_url pkg). }
  rewrite E. reflexivity.
Qed.

Lemma base_url_ignores_final_slash_witness :
  getBaseUrl {| pkg_user := js_undefined;
                pkg_settings := "https://launcher.example.org/";
                pkg_env := js_string "azuriom" |}
  = getBaseUrl Sample.pkg.
Proof.
  apply base_url_ignores_final_slash; reflexivity.
Defined.

Section Options.

Variable path_join : list string -> string.
Variable pkg : package.
Variable dataDirectory : string.
Variable platform : string.
Variable config : launcher_config.

Local Abbreviation modsDir := (modsDirectory path_join dataDirectory platform config).
Local Abbreviation options := (getLaunchOptions pkg dataDirectory platform config).

(** X15: where [path.join] only puts slashes between the three parts, the
    directory scanned for mods is the [mods] directory of the game
    directory that the options give to the engine. *)
Theorem mods_directory_is_in_the_game_directory (w w' : world)
  (opts : launch_options) :
  path_join [dataDirectory; launcher_directory platform config; "mods"]
  = dataDirectory ++ "/" ++ launcher_directory platform config ++ "/" ++ "mods" ->
  options w = (Normal opts, w') ->
  modsDir = opt_path opts ++ "/mods".
Proof.
  intros Hj Hopts. unfold modsDirectory. rewrite Hj.
  destruct (getLaunchOptions_returns pkg dataDirectory platform config w w' opts
              Hopts) as (_ & _ & _ & _ & _ & _ & _ & _ & _ & Hp & _).
  rewrite Hp. now rewrite !append_assoc.
Qed.

Lemma memory_text (x : number) (k : Z) :
  is_finite x = true -> (value x * 1024 == inject_Z k)%Q -> 0 <= k < 2 ^ 53 ->
  to_string (mul x (of_Z 1024)) ++ "M" = decimal k ++ "M".
Proof.
  intros Hf Hv Hk. f_equal.
  destruct (of_Z_exact 1024 ltac:(lia)) as [Hf1 Hv1].
  assert (Hp : (value x * value (of_Z 1024) == inject_Z k)%Q).
  { rewrite Hv1. exact Hv. }
  destruct (mul_exact x (of_Z 1024) Hf Hf1) as [Hfm Hvm].
  { apply (representable_abs_integer k); [exact Hp | lia]. }
  rewrite (to_string_int _ k); [apply int_text_nonneg; lia | | lia].
  split; [exact Hfm|]. rewrite Hvm. exact Hp.
Qed.

(** X16: the memory bounds of the options are the amounts of RAM of the
    settings, given in GB, as whole numbers of MB followed by [M]. *)
Theorem memory_is_given_in_megabytes (w w' : world) (opts : launch_options)
  (r : ram_settings) (kmin kmax : Z) :
  options w = (Normal opts, w') ->
  ram (db w) = Some r ->
  is_finite (ramMin r) = true ->
  is_finite (ramMax r) = true ->
  (value (ramMin r) * 1024 == inject_Z kmin)%Q ->
  (value (ramMax r) * 1024 == inject_Z kmax)%Q ->
  0 <= kmin < 2 ^ 53 -> 0 <= kmax < 2 ^ 53 ->
  opt_memory_min opts = decimal kmin ++ "M" /\
  opt_memory_max opts = decimal kmax ++ "M".
Proof.
  intros Hopts Hr F1 F2 V1 V2 K1 K2.
  destruct (getLaunchOptions_returns pkg dataDirectory platform config w w' opts
              Hopts) as (_ & _ & r' & _ & _ & _ & Hr' & _ & _ & _ & Hmin & Hmax).
  assert (r' = r) by congruence. subst r'. rewrite Hmin, Hmax.
  split; apply memory_text; assumption.
Qed.

End Options.

Lemma mods_directory_is_in_the_game_directory_witness :
  modsDirectory Sample.path_join "/home/user" "linux" Sample.config
  = "/home/user/.azurite/mods".
Proof.
  destruct (getLaunchOptions Sample.pkg "/home/user" "linux" Sample.config
              (Sample.world_with js_undefined)) as [[opts|e] w'] eqn:E.
  - rewrite (mods_directory_is_in_the_game_directory Sample.path_join Sample.pkg
               "/home/user" "linux" Sample.config _ _ opts eq_refl E).
    vm_compute in E. injection E as <- _. reflexivity.
  - vm_compute in E. discriminate E.
Defined.

Lemma memory_is_given_in_megabytes_witness :
  let r := {| ramMin := round false (1 # 2); ramMax := round false (5 # 2) |} in
  let w := with_ram (Some r) (Sample.world_with js_undefined) in
  exists opts,
    fst (getLaunchOptions Sample.pkg "/home/user" "linux" Sample.config w)
    = Normal opts /\
    opt_memory_min opts = "512M" /\ opt_memory_max opts = "2560M".
Proof.
  intros r w.
  destruct (getLaunchOptions Sample.pkg "/home/user" "linux" Sample.config w)
    as [[opts|e] w'] eqn:E.
  - exists opts. split; [reflexivity|].
    destruct (memory_is_given_in_megabytes Sample.pkg "/home/user" "linux"
                Sample.config w w' opts r 512 2560 E eq_refl eq_refl eq_refl
                ltac:(vm_compute; reflexivity) ltac:(vm_compute; reflexivity)
                ltac:(lia) ltac:(lia)) as [H1 H2].
    rewrite H1, H2. split; vm_compute; reflexivity.
  - vm_compute in E. discriminate E.
Defined.

End OptionsFacts.

(** ** The speed text *)
Module SpeedFacts.
Import JSNum JSStr Home Session JSNumFacts HomeFacts TextFacts.

Local Open Scope string_scope.

(** [toFixed(2)] of a number that is not negative, below [10^21]. *)
Lemma toFixed_2_nonneg (x : number) :
  is_finite x = true -> (0 <= value x)%Q -> (value x < 10 ^ 21)%Q ->
  let n := Qfloor (value x * 100 + (1 # 2)) in
  let digits := zeros (3 - String.length (decimal n)) ++ decimal n in
  exists whole frac,
    toFixed x 2 = whole ++ "." ++ frac /\
    whole ++ frac = digits /\
    String.length frac = 2%nat /\ (1 <= String.length whole)%nat.
Proof.
  intros Hf H0 H1 n digits.
  assert (Hm : (magnitude x == value x)%Q).
  { destruct (finite_nonneg_cases x Hf H0) as [[s ->]|(m & e & ->)];
      cbn [magnitude value sign_Q]; ring. }
  assert (Hl : (3 <= String.length digits)%nat).
  { unfold digits. rewrite length_append, length_zeros.
    pose proof (decimal_nonempty n). lia. }
  exists (substring 0 (String.length digits - 2) digits),
         (substring (String.length digits - 2) 2 digits).
  split; [|split; [|split]].
  - unfold toFixed.
    assert (Hb : Qle_bool (10 ^ 21) (magnitude x) = false).
    { apply not_true_is_false. intros H. apply Qle_bool_iff in H. lra. }
    destruct (finite_nonneg_cases x Hf H0) as [[s ->]|(m & e & ->)];
      rewrite Hb; cbv zeta;
      change (10 ^ Z.of_nat 2)%Q with 100%Q;
      rewrite (Qfloor_comp _ (value _ * 100 + (1 # 2)))
        by (rewrite Hm; reflexivity);
      reflexivity.
  - symmetry. apply substring_split. lia.
  - apply length_substring. lia.
  - rewrite length_substring; lia.
Qed.

Lemma representable_pow2_40 : representable (2 ^ 40).
Proof. exists 1%Z, 40%Z. repeat split; lia || discriminate || reflexivity. Qed.

(** X17: a speed event prints the speed in units of 1067008 with two digits
    after the point: the digits are those of the hundredths nearest to the
    binary64 quotient, with zeros in front when it is below 1. *)
Theorem speed_is_printed_with_two_decimals (t : string -> string)
  (ls : launcher_settings) (speed : number) (w : world) :
  is_finite speed = true -> (0 <= value speed)%Q ->
  (value speed <= 2 ^ 60)%Q ->
  let hundredths :=
    Qfloor (value (div speed (of_Z 1067008)) * 100 + (1 # 2)) in
  let digits :=
    zeros (3 - String.length (decimal hundredths)) ++ decimal hundredths in
  exists whole frac,
    console (listener t ls (ev_speed speed) w)
    = (console w ++ [(whole ++ "." ++ frac ++ " Mb/s")%string])%list /\
    whole ++ frac = digits /\
    String.length frac = 2%nat /\ (1 <= String.length whole)%nat.
Proof.
  intros Hf H0 Hb hundredths digits.
  destruct (of_Z_exact 1067008 ltac:(lia)) as [Hfd Hvd].
  assert (R0 : representable 0) by (apply (representable_integer 0); lia).
  assert (Hq : (0 <= value speed / value (of_Z 1067008) <= 2 ^ 40)%Q).
  { rewrite Hvd. change (inject_Z 1067008) with 1067008%Q.
    change (2 ^ 60)%Q with 1152921504606846976%Q in Hb.
    change (2 ^ 40)%Q with 1099511627776%Q.
    split; [apply Qle_shift_div_l | apply Qle_shift_div_r]; lra. }
  destruct (div_sandwich_nonneg speed (of_Z 1067008) 0 (2 ^ 40) Hf H0 Hfd
              ltac:(rewrite Hvd; reflexivity) R0 representable_pow2_40 Hq)
    as (Hfq & Hq0 & Hq1).
  destruct (toFixed_2_nonneg (div speed (of_Z 1067008)) Hfq Hq0)
    as (whole & frac & E & Hd & Hl2 & Hl1).
  { apply Qle_lt_trans with (2 ^ 40)%Q; [exact Hq1 | reflexivity]. }
  exists whole, frac. split; [|repeat split; assumption].
  cbn [listener console_log console set_console]. rewrite E.
  do 2 f_equal. now rewrite !append_assoc.
Qed.

Lemma speed_is_printed_with_two_decimals_witness :
  exists whole frac,
    console
      (listener Home.Sample.t {| launcher_close := js_undefined |}
         (ev_speed (of_Z 1600512)) (Home.Sample.world_with js_undefined))
    = [(whole ++ "." ++ frac ++ " Mb/s")%string] /\
    whole ++ frac = "150".
Proof.
  destruct (speed_is_printed_with_two_decimals Home.Sample.t
              {| launcher_close := js_undefined |} (of_Z 1600512)
              (Home.Sample.world_with js_undefined) eq_refl
              ltac:(vm_compute; discriminate) ltac:(vm_compute; discriminate))
    as (whole & frac & H1 & H2 & _).
  exists whole, frac. split; [exact H1|]. rewrite H2. vm_compute. reflexivity.
Defined.

End SpeedFacts.

(** ** Facts about the rest of the page *)
Module PageFacts.
Import JSNum JSStr Home Page JSNumFacts HomeFacts.

Local Open Scope string_scope.

Lemma includes_In (l : list string) (s : string) :
  includes l s = true <-> In s l.
Proof.
  unfold includes. rewrite existsb_exists. split.
  - intros (x & Hx & Hq). apply String.eqb_eq in Hq. now subst x.
  - intros H. exists s. split; [exact H | apply String.eqb_refl].
Qed.

Lemma includes_not_In (l : list string) (s : string) :
  includes l s = false <-> ~ In s l.
Proof.
  rewrite <- includes_In. destruct (includes l s); split; congruence.
Qed.

(** *** The whitelist *)

Section Whitelist.

Variable t : string -> string.
Variable config : page_config.

(** X18: for an account that carries a role, the launch button is blocked
    exactly when the whitelist is active and lists neither the name nor the
    role of the account; otherwise it is playable. *)
Theorem whitelist_blocks_the_unlisted (acc : account) (role : string)
  (playBtn : play_button) :
  account_role_name acc = Some role ->
  exists playBtn',
    updateWhitelist t config acc playBtn = (Normal tt, playBtn') /\
    (playBtn' = blocked_button t <->
     truthy (whitelist_activate config) = true /\
     ~ In (account_name acc) (whitelist config) /\
     ~ In role (whitelist_roles config)) /\
    (playBtn' = playable_button t <->
     truthy (whitelist_activate config) = false \/
     In (account_name acc) (whitelist config) \/
     In role (whitelist_roles config)).
Proof.
  intros Hr. unfold updateWhitelist. rewrite Hr.
  destruct (truthy (whitelist_activate config)).
  - destruct (includes (whitelist config) (account_name acc)) eqn:E1; cbn [negb].
    + apply includes_In in E1. exists (playable_button t).
      split; [reflexivity|]. split; split; try discriminate; tauto.
    + apply includes_not_In in E1.
      destruct (includes (whitelist_roles config) role) eqn:E2; cbn [negb].
      * apply includes_In in E2. exists (playable_button t).
        split; [reflexivity|]. split; split; try discriminate; tauto.
      * apply includes_not_In in E2. exists (blocked_button t).
        split; [reflexivity|]. split; split; try discriminate; try tauto.
        intros [H|[H|H]]; [discriminate | now elim E1 | now elim E2].
  - exists (playable_button t). split; [reflexivity|].
    split; split; try discriminate; try tauto.
    intros [H _]. discriminate.
Qed.

(** X19: an account without role information makes [updateWhitelist] throw
    exactly when the whitelist is active and does not list its name; the
    button is then left as it was, and is playable otherwise. *)
Theorem whitelist_reads_the_role_last (acc : account) (playBtn : play_button) :
  account_role_name acc = None ->
  (truthy (whitelist_activate config) = true /\
   ~ In (account_name acc) (whitelist config) ->
   updateWhitelist t config acc playBtn = (Throw "TypeError", playBtn)) /\
  (truthy (whitelist_activate config) = false \/
   In (account_name acc) (whitelist config) ->
   updateWhitelist t config acc playBtn = (Normal tt, playable_button t)).
Proof.
  intros Hr. unfold updateWhitelist. rewrite Hr. split.
  - intros [Ha Hn]. rewrite Ha. apply includes_not_In in Hn. rewrite Hn.
    reflexivity.
  - intros [Ha|Hi].
    + rewrite Ha. reflexivity.
    + apply includes_In in Hi. rewrite Hi.
      destruct (truthy (whitelist_activate config)); reflexivity.
Qed.

(** X20: the button shows the verdict on the last account checked: what an
    earlier check made of it is overwritten as a whole. *)
Theorem whitelist_last_account_wins (first last : account)
  (playBtn : play_button) :
  fst (updateWhitelist t config last playBtn) = Normal tt ->
  updateWhitelist t config last (snd (updateWhitelist t config first playBtn))
  = updateWhitelist t config last playBtn.
Proof.
  unfold updateWhitelist at 1 2 4.
  destruct (truthy (whitelist_activate config));
    [destruct (includes (whitelist config) (account_name last)); cbn [negb];
     [|destruct (account_role_name last) as [r|];
       [destruct (includes (whitelist_roles config) r)|]]|];
    cbn; intros H; try reflexivity; discriminate H.
Qed.

End Whitelist.

(** *** The role *)

(** X21: without a tooltip [updateRole] does nothing, whatever the account;
    with one, every call for an account with a role adds a line after those
    that are there, and none is replaced. *)
Theorem role_lines_pile_up (t : string -> string) (accounts : list account)
  (roles : list string) (acc : account) (children : list element) :
  map account_role_name accounts = map Some roles ->
  updateRole t acc None = (Normal tt, None) /\
  fold_left (fun tooltip a => snd (updateRole t a tooltip)) accounts
    (Some children)
  = Some (children ++ map (role_line t) roles)%list.
Proof.
  intros Hr. split; [reflexivity|].
  revert roles children Hr.
  induction accounts as [|a accounts IH]; intros roles children Hr.
  - destruct roles; [|discriminate]. cbn. now rewrite app_nil_r.
  - destruct roles as [|r roles]; [discriminate|].
    cbn [map] in Hr. injection Hr as Ha Hr.
    cbn [fold_left]. unfold updateRole at 2. rewrite Ha. cbn [snd].
    rewrite (IH roles _ Hr). cbn [map]. now rewrite <- app_assoc.
Qed.

(** *** The news *)

Section News.

Variable t : string -> string.
Variable config : page_config.
Variable Date : string -> option (Z * nat).

Lemma createNewsBlock_item (container : list element) (item : news_item) :
  createNewsBlock container (news_title item) (news_content item)
    (Some (news_author item)) (Some (getDate Date (news_publish_date item)))
  = (container ++ [news_block item (getDate Date (news_publish_date item))])%list.
Proof.
  unfold createNewsBlock, news_block. destruct (news_author item); reflexivity.
Qed.

Lemma news_loop (items : list news_item) :
  forall container,
    fold_left
      (fun container newsItem =>
         let date := getDate Date (news_publish_date newsItem) in
         createNewsBlock container (news_title newsItem)
           (news_content newsItem) (Some (news_author newsItem)) (Some date))
      items container
    = (container
       ++ map (fun item => news_block item (getDate Date (news_publish_date item)))
            items)%list.
Proof.
  induction items as [|item items IH]; intros container; cbn [fold_left map].
  - now rewrite app_nil_r.
  - rewrite IH. cbv zeta. rewrite createNewsBlock_item.
    now rewrite <- app_assoc.
Qed.

(** X22: [initNews] keeps the blocks that the list holds and adds one block
    for every item of the feed, in the order of the feed; it adds one notice
    when the feed is empty, and another one when it could not be read.  In
    every case the server icon gets its source, and is hidden when the
    configuration names none. *)
Theorem news_list_follows_the_feed (news : option (list news_item))
  (newsContainer : list element) (serverImg : server_img) :
  let added :=
    match news with
    | Some [] =>
        [notice_block (t "no_news_available") (t "news_follow_here")]
    | Some items =>
        map (fun item => news_block item (getDate Date (news_publish_date item)))
          items
    | None =>
        [notice_block (t "error_contacting_server")
           (t "error_contacting_server")]
    end in
  let serverImg' := snd (initNews t config Date news newsContainer serverImg) in
  fst (initNews t config Date news newsContainer serverImg)
  = (newsContainer ++ added)%list /\
  List.length added
  = match news with
    | Some items => Nat.max 1 (List.length items)
    | None => 1%nat
    end /\
  img_src serverImg' = to_text (server_icon config) /\
  (img_display serverImg' = "none" <->
   truthy (server_icon config) = false \/ img_display serverImg = "none").
Proof.
  cbv zeta. split; [|split; [|split]].
  - destruct news as [[|item items]|]; try reflexivity.
    unfold initNews. cbn [List.length Nat.eqb fst]. apply news_loop.
  - destruct news as [[|item items]|]; try reflexivity.
    rewrite length_map. cbn [List.length]. lia.
  - unfold initNews, setServerIcon. cbn [snd].
    destruct (truthy (server_icon config)); reflexivity.
  - unfold initNews, setServerIcon. cbn [snd].
    destruct (truthy (server_icon config)); cbn [negb img_display].
    + split; [tauto | intros [H|H]; [discriminate H | exact H]].
    + split; [tauto | reflexivity].
Qed.

(** X23: an item whose date cannot be read and whose author is missing, null
    or empty gets the block of a notice: no date badge and no author line. *)
Theorem news_without_date_or_author (item : news_item) :
  Date (news_publish_date item) = None ->
  truthy (news_author item) = false ->
  news_block item (getDate Date (news_publish_date item))
  = notice_block (news_title item) (news_content item).
Proof.
  intros Hd Ha. unfold news_block, notice_block, getDate. rewrite Hd.
  f_equal. unfold news_markup. cbn [date_day date_month truthy].
  destruct (news_author item) as [| |b|n|s|p]; try reflexivity;
    rewrite Ha; reflexivity.
Qed.

(** X24: an item with a date gets a badge with the day of the month as a
    plain numeral and the French name of the month. *)
Theorem news_date_badge (item : news_item) (d : Z) (m : nat) :
  Date (news_publish_date item) = Some (d, m) ->
  1 <= d <= 31 -> (m < 12)%nat ->
  exists name,
    nth_error MONTHS m = Some name /\
    news_block item (getDate Date (news_publish_date item))
    = news_block item
        {| date_day := js_string (decimal d); date_month := js_string name |}.
Proof.
  intros Hd Hday Hm.
  destruct (nth_error MONTHS m) as [name|] eqn:En.
  2:{ apply nth_error_None in En. cbn in En. lia. }
  exists name. split; [reflexivity|].
  unfold news_block, getDate. rewrite Hd, En. f_equal.
  unfold news_markup. cbn [date_day date_month to_text].
  assert (Hs : to_string (of_Z d) = decimal d).
  { rewrite (to_string_int (of_Z d) d); [apply int_text_nonneg; lia | | lia].
    apply of_Z_int. lia. }
  assert (Ht : truthy (js_number (of_Z d)) = true).
  { destruct (of_Z_exact d ltac:(lia)) as [Hf Hv].
    destruct (of_Z d) as [s| | |s p e] eqn:E; try discriminate Hf.
    - exfalso. cbn in Hv. assert (d = 0) by (apply inject_Z_injective; symmetry; exact Hv). lia.
    - reflexivity. }
  assert (Hne : truthy (js_string (decimal d)) = true).
  { cbn [truthy]. apply negb_true_iff. apply String.eqb_neq. intros E.
    pose proof (decimal_nonempty d) as Hl. rewrite E in Hl. cbn in Hl. lia. }
  rewrite Ht, Hne, Hs. reflexivity.
Qed.

End News.

(** *** The video *)

Section Video.

Variable config : page_config.

Lemma video_wanted_dec :
  video_wanted config \/
  truthy (video_activate config) = false \/
  (truthy (video_activate config) = true /\
   strict_equal_string (video_type config) "short" = false /\
   strict_equal_string (video_type config) "normal" = false).
Proof.
  unfold video_wanted. destruct (truthy (video_activate config)); [|tauto].
  destruct (video_type config) as [| |b|n|s|p]; cbn; try tauto.
  destruct (String.eqb_spec s "short") as [->|H1]; [tauto|].
  destruct (String.eqb_spec s "normal") as [->|H2]; tauto.
Qed.

Lemma video_wanted_type :
  video_wanted config ->
  strict_equal_string (video_type config) "short" = true \/
  strict_equal_string (video_type config) "short" = false /\
  strict_equal_string (video_type config) "normal" = true.
Proof.
  intros [_ [E|E]]; rewrite E; [left | right]; split; reflexivity.
Qed.

Lemma app_one_neq {A : Type} (l : list A) (x : A) : (l ++ [x])%list <> l.
Proof.
  intros E. apply (f_equal (@List.length A)) in E.
  rewrite length_app in E. cbn in E. lia.
Qed.

(** X25: [initVideo] throws exactly when a video of a known type is wanted
    and the page lacks the thumbnail or the button, and then changes
    nothing; the container is hidden exactly when the video is switched off
    (or was hidden before). *)
Theorem video_throws_without_its_elements (v : video) :
  (fst (initVideo config v) = Throw "TypeError" <->
   video_wanted config /\ (ytb_thumbnail v = None \/ ytb_btn v = None)) /\
  (fst (initVideo config v) <> Normal tt -> snd (initVideo config v) = v) /\
  (ytb_display (snd (initVideo config v)) = "none" <->
   truthy (video_activate config) = false \/ ytb_display v = "none").
Proof.
  unfold initVideo.
  destruct video_wanted_dec as [Hw|[Hoff|(Hon & H1 & H2)]].
  - destruct Hw as [Hon Hty].
    assert (Hw : video_wanted config) by (split; assumption).
    rewrite Hon. cbn [negb].
    destruct (video_wanted_type Hw) as [E|[E1 E2]];
      rewrite ?E, ?E1, ?E2;
      destruct (ytb_thumbnail v) as [th|], (ytb_btn v) as [btn|];
      cbn [fst snd ytb_display];
      (split; [split; [intros H; try discriminate H; tauto |
                       intros [_ [H|H]]; try discriminate H; reflexivity]
              | split; [intros H; try reflexivity; now elim H
                       | split; [tauto | intros [H|H]; [discriminate H | exact H]]]]).
  - rewrite Hoff. cbn [negb fst snd ytb_display].
    split; [split; [discriminate | intros [[H _] _]; congruence]|].
    split; [intros H; now elim H | tauto].
  - rewrite Hon, H1, H2. cbn [negb fst snd ytb_display].
    split; [split; [discriminate|]|].
    + intros [[_ [E|E]] _]; rewrite E in *; discriminate.
    + split; [intros H; now elim H|].
      split; [tauto | intros [H|H]; [discriminate H | exact H]].
Qed.

(** X26: the thumbnail gets a click listener exactly when a video of a known
    type is wanted and the page has the button and a thumbnail with its
    image and its play button. *)
Theorem video_player_needs_its_elements (v : video) :
  thumbnail_listeners (snd (initVideo config v)) <> thumbnail_listeners v <->
  video_wanted config /\
  exists videoThumbnail btn,
    ytb_thumbnail v = Some videoThumbnail /\ ytb_btn v = Some btn /\
    thumb_img_src videoThumbnail <> None /\
    thumb_playButton videoThumbnail = true.
Proof.
  assert (Hsame : snd (initVideo config v) = v \/
                  ytb_thumbnail (snd (initVideo config v)) = ytb_thumbnail v ->
                  ~ thumbnail_listeners (snd (initVideo config v))
                    <> thumbnail_listeners v).
  { unfold thumbnail_listeners. intros [E|E] H; rewrite E in H; now elim H. }
  destruct video_wanted_dec as [Hw|[Hoff|(Hon & H1 & H2)]].
  - assert (Hon : truthy (video_activate config) = true) by apply Hw.
    assert (Hrun : exists embed image watch,
               initVideo config v
               = match ytb_thumbnail v with
                 | None => (Throw "TypeError", v)
                 | Some videoThumbnail =>
                     match ytb_btn v with
                     | None => (Throw "TypeError", v)
                     | Some btn =>
                         (Normal tt,
                          {| ytb_display := ytb_display v;
                             ytb_thumbnail :=
                               Some
                                 match thumb_img_src videoThumbnail with
                                 | Some _ =>
                                     if thumb_playButton videoThumbnail then
                                       {| thumb_img_src := Some image;
                                          thumb_playButton := true;
                                          thumb_onclick :=
                                            (thumb_onclick videoThumbnail
                                             ++ [embed])%list |}
                                     else videoThumbnail
                                 | None => videoThumbnail
                                 end;
                             ytb_btn := Some (btn ++ [watch])%list;
                             console_errors := console_errors v |})
                     end
                 end).
    { unfold initVideo. rewrite Hon. cbn [negb].
      destruct (video_wanted_type Hw) as [E|[E1 E2]]; rewrite ?E, ?E1, ?E2;
        do 3 eexists; reflexivity. }
    destruct Hrun as (embed & image & watch & Hrun).
    destruct (ytb_thumbnail v) as [th|] eqn:Hth.
    2:{ split; [intros H; exfalso; apply Hsame in H; [exact H|];
                left; rewrite Hrun; reflexivity
               | intros (_ & th' & btn' & Ha & _); discriminate]. }
    destruct (ytb_btn v) as [btn|] eqn:Hbtn.
    2:{ split; [intros H; exfalso; apply Hsame in H; [exact H|];
                left; rewrite Hrun; reflexivity
               | intros (_ & th' & btn' & _ & Hb & _); discriminate]. }
    unfold thumbnail_listeners. rewrite Hrun, Hth. cbn [snd ytb_thumbnail].
    destruct (thumb_img_src th) as [src|] eqn:Hsrc.
    + destruct (thumb_playButton th) eqn:Hpb.
      * cbn [thumb_onclick]. split.
        -- intros _. split; [exact Hw|]. exists th, btn.
           rewrite Hsrc. repeat split; [discriminate | exact Hpb].
        -- intros _. apply app_one_neq.
      * split; [intros H; now elim H|].
        intros (_ & th' & btn' & Ha & _ & _ & Hd). injection Ha as <-. congruence.
    + split; [intros H; now elim H|].
      intros (_ & th' & btn' & Ha & _ & Hc & _). injection Ha as <-. congruence.
  - split.
    + intros H. exfalso. apply Hsame in H; [exact H|]. right.
      unfold initVideo. rewrite Hoff. reflexivity.
    + intros [[H _] _]. congruence.
  - split.
    + intros H. exfalso. apply Hsame in H; [exact H|]. right.
      unfold initVideo. rewrite Hon, H1, H2. reflexivity.
    + intros [[_ [E|E]] _]; rewrite E in *; discriminate.
Qed.

End Video.

Lemma whitelist_blocks_the_unlisted_witness :
  let acc := {| account_name := "Herobrine"; account_role_name := Some "Member" |} in
  updateWhitelist Home.Sample.t SamplePage.settings acc (playable_button Home.Sample.t)
  = (Normal tt, blocked_button Home.Sample.t).
Proof.
  intros acc.
  destruct (whitelist_blocks_the_unlisted Home.Sample.t SamplePage.settings acc
              "Member" (playable_button Home.Sample.t) eq_refl)
    as (b & Hrun & Hblocked & _).
  rewrite Hrun. f_equal. apply Hblocked.
  split; [reflexivity|]. split; cbn; intuition discriminate.
Defined.

Lemma whitelist_reads_the_role_last_witness :
  let listed := {| account_name := "Alex"; account_role_name := None |} in
  let unlisted := {| account_name := "Herobrine"; account_role_name := None |} in
  updateWhitelist Home.Sample.t SamplePage.settings listed (blocked_button Home.Sample.t)
  = (Normal tt, playable_button Home.Sample.t) /\
  updateWhitelist Home.Sample.t SamplePage.settings unlisted
    (blocked_button Home.Sample.t)
  = (Throw "TypeError", blocked_button Home.Sample.t).
Proof.
  intros listed unlisted. split.
  - apply (whitelist_reads_the_role_last Home.Sample.t SamplePage.settings listed
             (blocked_button Home.Sample.t) eq_refl).
    right. cbn. tauto.
  - apply (whitelist_reads_the_role_last Home.Sample.t SamplePage.settings unlisted
             (blocked_button Home.Sample.t) eq_refl).
    split; [reflexivity | cbn; intuition discriminate].
Defined.

Lemma whitelist_last_account_wins_witness :
  let blocked := {| account_name := "Herobrine"; account_role_name := Some "Member" |} in
  let admin := {| account_name := "Notch"; account_role_name := Some "Admin" |} in
  snd (updateWhitelist Home.Sample.t SamplePage.settings admin
         (snd (updateWhitelist Home.Sample.t SamplePage.settings blocked
                 (playable_button Home.Sample.t))))
  = playable_button Home.Sample.t.
Proof.
  intros blocked admin.
  rewrite (whitelist_last_account_wins Home.Sample.t SamplePage.settings blocked admin
             (playable_button Home.Sample.t) eq_refl).
  reflexivity.
Defined.

Lemma role_lines_pile_up_witness :
  let admin := {| account_name := "Notch"; account_role_name := Some "Admin" |} in
  fold_left (fun tooltip a => snd (updateRole Home.Sample.t a tooltip))
    [admin; admin] (Some [])
  = Some [role_line Home.Sample.t "Admin"; role_line Home.Sample.t "Admin"].
Proof.
  intros admin.
  apply (role_lines_pile_up Home.Sample.t [admin; admin] ["Admin"; "Admin"]
           admin [] eq_refl).
Defined.

Lemma news_list_follows_the_feed_witness :
  let feed :=
    [ {| news_title := "Update"; news_content := "New map";
         news_author := js_string "Notch"; news_publish_date := "2024-03-05" |};
      {| news_title := "Maintenance"; news_content := "Tonight";
         news_author := js_undefined; news_publish_date := "soon" |} ] in
  List.length
    (fst (initNews Home.Sample.t SamplePage.settings SamplePage.Date (Some feed) []
            {| img_src := EmptyString; img_display := "block" |}))
  = 2%nat.
Proof.
  intros feed.
  destruct (news_list_follows_the_feed Home.Sample.t SamplePage.settings SamplePage.Date
              (Some feed) [] {| img_src := EmptyString; img_display := "block" |})
    as (H & Hl & _).
  rewrite H. cbn [app]. exact Hl.
Defined.

Lemma video_throws_without_its_elements_witness :
  let page :=
    {| ytb_display := "block"; ytb_thumbnail := ytb_thumbnail SamplePage.video_container;
       ytb_btn := None; console_errors := [] |} in
  initVideo SamplePage.settings page = (Throw "TypeError", page).
Proof.
  intros page.
  destruct (video_throws_without_its_elements SamplePage.settings page)
    as ((_ & Hthrow) & Hsame & _).
  assert (H : fst (initVideo SamplePage.settings page) = Throw "TypeError").
  { apply Hthrow. split; [split; [reflexivity | now left] | now right]. }
  rewrite (surjective_pairing (initVideo SamplePage.settings page)), H, Hsame.
  - reflexivity.
  - rewrite H. discriminate.
Defined.

Lemma video_player_needs_its_elements_witness :
  thumbnail_listeners (snd (initVideo SamplePage.settings SamplePage.video_container))
  <> [].
Proof.
  apply (video_player_needs_its_elements SamplePage.settings SamplePage.video_container).
  split; [split; [reflexivity | now left]|].
  eexists. eexists. repeat split; discriminate.
Defined.

Lemma news_without_date_or_author_witness :
  let item :=
    {| news_title := "Maintenance"; news_content := "Tonight";
       news_author := js_null; news_publish_date := "soon" |} in
  news_block item (getDate SamplePage.Date "soon")
  = notice_block "Maintenance" "Tonight".
Proof.
  intros item.
  apply (news_without_date_or_author SamplePage.Date item); reflexivity.
Defined.

Lemma news_date_badge_witness :
  let item :=
    {| news_title := "Update"; news_content := "New map";
       news_author := js_string "Notch"; news_publish_date := "2024-03-05" |} in
  news_block item (getDate SamplePage.Date "2024-03-05")
  = news_block item
      {| date_day := js_string "5"; date_month := js_string "mars" |}.
Proof.
  intros item.
  destruct (news_date_badge SamplePage.Date item 5 2 eq_refl ltac:(lia) ltac:(lia))
    as (name & Hn & H).
  injection Hn as <-. exact H.
Defined.

End PageFacts.
